(** * wrpnng: the processor chain, the sender, the sender map, the receiver
      and the registration handler, embedded from the Go sources.

    The program:
    - [errs]      Go error values, [errors.Join] and [errors.Is];
    - [wrp]       the fields of [wrp.Message] the code inspects;
    - [stopping]  internal/processors/stopping/stopping.go;
    - [nng]       sender.go, sendermap.go and the registration handler of
                  server.go over one explicit world (heap of senders, routing
                  table, the table's lock, an event trace);
    - [receiver]  internal/receiver/receiver.go over a schedule of [select]
                  outcomes;
    - [filters]   the two filters of internal/filters;
    - [server]    the two chains of the server, [Start] and [Stop];
    - [client]    [NewClient] and its options;
    - [notions], [fixtures]  what the statements speak of, and the concrete
                  inputs (those of the tests among them).

    The properties:
    - [stopping_facts]   the chain;
    - [nng_facts]        the sender and the sender map, call by call;
    - [nng_invariant]    what every call of the sender map keeps;
    - [nng_examples]     the sender map on concrete worlds;
    - [receiver_facts], [receiver_examples]  the receiver;
    - [sender_life]      the sender by itself: options, dialling, closing,
                         sending;
    - [sendermap_life]   the sender map over its whole life;
    - [receiver_life]    the loop, the options and [Listen] of the receiver;
    - [server_facts]     the filters, the chains, [Start] and [Stop];
    - [client_facts]     [NewClient]. *)

From Stdlib Require Import ZArith.
From Stdlib Require Import Sorted.
From Stdlib.Strings Require Import Byte.
From stdpp Require Import base option list gmap strings.
From stdpp Require Import pretty.

#[local] Set Warnings "-register-all".

(* ================================================================== *)
(** ** Go errors *)
(* ================================================================== *)

Module errs.

(** [errors.New] yields an [errorString]; [errors.Join] a [joinError] that
    wraps the non-nil arguments.  A Go [error] that may be nil is an
    [option error].  Two sentinels are the same value when their texts
    agree (every sentinel of the program has a text of its own). *)
Inductive error : Type :=
| errorString (text : string)
| joinError (errs : list error).

Fixpoint error_eqb (a b : error) {struct a} : bool :=
  match a, b with
  | errorString s, errorString t => String.eqb s t
  | joinError l, joinError m =>
      (fix all2 (l : list error) (m : list error) {struct l} : bool :=
         match l, m with
         | [], [] => true
         | x :: l', y :: m' => error_eqb x y && all2 l' m'
         | _, _ => false
         end) l m
  | _, _ => false
  end.

(** [errors.Is(err, target)] for a non-nil [target]: equal to the target,
    or a join one of whose members is. *)
Fixpoint is_ (err target : error) {struct err} : bool :=
  error_eqb err target ||
  match err with
  | errorString _ => false
  | joinError l => existsb (fun e => is_ e target) l
  end.

Definition Is (err : option error) (target : error) : bool :=
  match err with
  | None => false
  | Some e => is_ e target
  end.

(** [errors.Join(errs...)]: nil arguments are dropped, and the result is
    nil when nothing is left. *)
Definition Join (es : list (option error)) : option error :=
  match omap id es with
  | [] => None
  | l => Some (joinError l)
  end.

(** The sentinels of the program and of the packages it uses. *)
Definition ErrNotHandled : error := errorString "message not handled".
Definition ErrorInvalidLocator : error := errorString "invalid locator".
Definition Canceled : error := errorString "context canceled".
Definition DeadlineExceeded : error := errorString "context deadline exceeded".
Definition ErrRecvTimeout : error := errorString "receive time out".
Definition ErrConnClosed : error := errorString "connection closed".
Definition ErrFailedToSend : error := errorString "failed to send message".
Definition errInvalidMsg : error := errorString "invalid message".
Definition errURLRequired : error := errorString "url is required".

End errs.
Export errs.

(* ================================================================== *)
(** ** wrp messages *)
(* ================================================================== *)

Module wrp.

Definition MessageType : Type := Z.

(** The message types the code names (values as in wrp-go). *)
Definition AuthorizationMessageType : MessageType := 2%Z.
Definition SimpleRequestResponseMessageType : MessageType := 3%Z.
Definition SimpleEventMessageType : MessageType := 4%Z.
Definition ServiceRegistrationMessageType : MessageType := 9%Z.
Definition ServiceAliveMessageType : MessageType := 10%Z.

Record Message : Type := {
  Type_ : MessageType;
  Source : string;
  Destination : string;
  Status : option Z;
  ServiceName : string;
  URL : string;
  Payload : list byte
}.

(** The zero value [wrp.Message{}]. *)
Definition zero : Message :=
  {| Type_ := 0%Z; Source := ""; Destination := ""; Status := None;
     ServiceName := ""; URL := ""; Payload := [] |}.

(** [msg.To()] *)
Definition To (msg : Message) : string := Destination msg.

Record Locator : Type := {
  Scheme : string;
  Authority : string;
  Service : string;
  Ignored : string
}.

End wrp.

(* ================================================================== *)
(** ** stopping.Processors *)
(* ================================================================== *)

Module stopping.

Section Chain.
(** What a processor can touch, the context included: [ctxErr] reads
    [ctx.Err()] in the current world, so a processor (or time) may cancel
    the context between two iterations. *)
Context {World Ctx : Type}.
Variable ctxErr : Ctx -> World -> option error.

(** [wrp.Processor]: [ProcessWRP(ctx, msg) error] with its effects. *)
Definition Processor : Type :=
  Ctx -> wrp.Message -> World -> option error * World.

(** [type Processors []wrp.Processor]; a nil entry is [None]. *)
Definition Processors : Type := list (option Processor).

(** [func (p Processors) ProcessWRP(ctx, msg) error] *)
Fixpoint ProcessWRP (p : Processors) (ctx : Ctx) (msg : wrp.Message)
    (w : World) : option error * World :=
  match p with
  | [] => (Some ErrNotHandled, w)
  | proc :: rest =>
      match ctxErr ctx w with
      | Some e => (Some e, w)
      | None =>
          match proc with
          | None => ProcessWRP rest ctx msg w
          | Some f =>
              let '(err, w') := f ctx msg w in
              if errs.Is err ErrNotHandled
              then ProcessWRP rest ctx msg w'
              else (err, w')
          end
      end
  end.

(** [passes ctx msg i pre w calls w']: going through the entries [pre],
    which stand at the positions [i], [i+1], ... of the chain, from world
    [w]: the context was live before every entry, the nil entries were
    skipped, every other entry was invoked, in order, each answering
    not-handled; [calls] lists the positions invoked and [w'] is the world
    they leave. *)
Inductive passes (ctx : Ctx) (msg : wrp.Message) :
    nat -> Processors -> World -> list nat -> World -> Prop :=
| passes_nil i w : passes ctx msg i [] w [] w
| passes_skip i rest w calls w' :
    ctxErr ctx w = None ->
    passes ctx msg (S i) rest w calls w' ->
    passes ctx msg i (None :: rest) w calls w'
| passes_call i f rest w err w1 calls w' :
    ctxErr ctx w = None ->
    f ctx msg w = (err, w1) ->
    errs.Is err ErrNotHandled = true ->
    passes ctx msg (S i) rest w1 calls w' ->
    passes ctx msg i (Some f :: rest) w (i :: calls) w'.

(** The three ways a run of the chain ends; [i] is the position of the
    first entry of [p]. *)
Inductive run (ctx : Ctx) (msg : wrp.Message) (i : nat)
    (p : Processors) (w : World) :
    list nat -> option error -> World -> Prop :=
| run_exhausted calls w' :
    passes ctx msg i p w calls w' ->
    run ctx msg i p w calls (Some ErrNotHandled) w'
| run_cancelled pre q post calls w' e :
    p = pre ++ q :: post ->
    passes ctx msg i pre w calls w' ->
    ctxErr ctx w' = Some e ->
    run ctx msg i p w calls (Some e) w'
| run_decided pre f post calls w1 err w' :
    p = pre ++ Some f :: post ->
    passes ctx msg i pre w calls w1 ->
    ctxErr ctx w1 = None ->
    f ctx msg w1 = (err, w') ->
    errs.Is err ErrNotHandled = false ->
    run ctx msg i p w (calls ++ [i + length pre]) err w'.

End Chain.

Section Noting.
Context {World Ctx : Type}.
Variable ctxErr : Ctx -> World -> option error.

(** The chain as a test instruments it: the processor at position [i]
    notes [i] each time it is invoked. *)
Definition noting (i : nat) (f : @Processor World Ctx)
    : @Processor (World * list nat) Ctx :=
  fun ctx msg wl =>
    let '(err, w') := f ctx msg wl.1 in (err, (w', wl.2 ++ [i])).

Fixpoint noting_from (i : nat) (p : @Processors World Ctx)
    : @Processors (World * list nat) Ctx :=
  match p with
  | [] => []
  | o :: rest => (noting i <$> o) :: noting_from (S i) rest
  end.

Definition noted_ctxErr (ctx : Ctx) (wl : World * list nat) : option error :=
  ctxErr ctx wl.1.

End Noting.

End stopping.

(* ================================================================== *)
(** ** sender.Sender, senderMap and the registration handler *)
(* ================================================================== *)

Module nng.

(** A sender lives on the heap; the routing table and the callers hold its
    address, so that two holders of one sender see the same socket. *)
Abbreviation loc := nat (only parsing).

(** The mangos socket as its peer drives it: the results of the coming
    [Send] calls, in order; once they are used up a [Send] succeeds. *)
Record Socket : Type := { sendRv : list (option error) }.

Definition Socket_Send (sk : Socket) : option error * Socket :=
  match sendRv sk with
  | [] => (None, sk)
  | r :: rest => (r, {| sendRv := rest |})
  end.

(** The close listeners of the program, as data.  [RemoveFromMap name] is
    the closure [func(error) { _ = sm.Remove(name) }] that [upsert] adds;
    [Observer tag] stands for a listener of a caller, which records the
    reason it was given. *)
Inductive CloseListener : Type :=
| RemoveFromMap (name : string)
| Observer (tag : nat).

#[global] Instance CloseListener_eq_dec : EqDecision CloseListener.
Proof. solve_decision. Defined.

Record Sender : Type := {
  url : string;
  onClose : list CloseListener;
  sock : option Socket;
  sendDeadline : Z
}.

Definition set_sock (s : Sender) (sk : option Socket) : Sender :=
  {| url := url s; onClose := onClose s; sock := sk;
     sendDeadline := sendDeadline s |}.

(** [sender.Option]; a nil option is [NilOption]. *)
Inductive Option_ : Type :=
| WithURL (u : string)
| WithSendTimeout (timeout : Z)
| WithCloseListener (f : CloseListener)
| NilOption.

Definition apply (opt : Option_) (s : Sender) : Sender :=
  match opt with
  | WithURL u =>
      {| url := u; onClose := onClose s; sock := sock s;
         sendDeadline := sendDeadline s |}
  | WithSendTimeout t =>
      if (0 <? t)%Z
      then {| url := url s; onClose := onClose s; sock := sock s;
              sendDeadline := t |}
      else s
  | WithCloseListener f =>
      {| url := url s; onClose := onClose s ++ [f]; sock := sock s;
         sendDeadline := sendDeadline s |}
  | NilOption => s
  end.

(** [sender.New]: the options in order, then [validate()]. *)
Definition New (opts : list Option_) : error + Sender :=
  let s := foldl (fun s opt => apply opt s)
             {| url := ""; onClose := []; sock := None; sendDeadline := 0%Z |}
             opts in
  if String.eqb (url s) "" then inl errURLRequired else inr s.

(** The test double of the sender map's tests. *)
Record mockSender : Type := {
  processErr : option error;
  processCount : Z;
  dialErr : option error
}.

(** [m.processCount++] *)
Definition bump (m : mockSender) : mockSender :=
  {| processErr := processErr m; processCount := processCount m + 1;
     dialErr := dialErr m |}.

(** The implementations of [limitedSender] in the repository. *)
Inductive limitedSender : Type :=
| RealSender (s : Sender)
| MockSender (m : mockSender).

(** [limitedSenderFactory]: [sender.New], as [Upsert] passes it, or one of
    the factories of the tests, which return a given mock or a given error
    whatever the options. *)
Inductive Factory : Type :=
| factoryNew
| factoryMock (m : mockSender)
| factoryFail (e : error).

(** [context.Context] for the length of one call: the value of [ctx.Err()],
    and whether the [select] of [Sender.ProcessWRP] takes [ctx.Done()] when
    the context is done. *)
Record Context : Type := { Err : option error; doneFirst : bool }.

Definition Background : Context := {| Err := None; doneFirst := false |}.

(** What the trace records. *)
Inductive Event : Type :=
| CallProcessWRP (l : loc) (msg : wrp.Message)
| CallDial (l : loc)
| CallClose (l : loc)
| SockSend (l : loc) (buf : list byte)
| SockClose (l : loc)
| Observed (tag : nat) (reason : option error).

Record World : Type := {
  heap : list limitedSender;
  senders : option (gmap string loc);   (* sm.senders; [None] is the nil map *)
  locked : bool;                        (* sm.lock is held for writing *)
  trace : list Event
}.

Definition set_heap (h : list limitedSender) (w : World) : World :=
  {| heap := h; senders := senders w; locked := locked w; trace := trace w |}.
Definition set_senders (t : option (gmap string loc)) (w : World) : World :=
  {| heap := heap w; senders := t; locked := locked w; trace := trace w |}.
Definition set_locked (b : bool) (w : World) : World :=
  {| heap := heap w; senders := senders w; locked := b; trace := trace w |}.
Definition add_event (ev : Event) (w : World) : World :=
  {| heap := heap w; senders := senders w; locked := locked w;
     trace := trace w ++ [ev] |}.

(** The world of a zero [senderMap]. *)
Definition empty : World :=
  {| heap := []; senders := None; locked := false; trace := [] |}.

(** [sm.senders[name]]; reading the nil map finds nothing. *)
Definition table (w : World) (name : string) : option loc :=
  t ← senders w; t !! name.

(** A call returns, or its goroutine waits for ever for [sm.lock], which is
    held by the very call that reached the [Lock] (the mutex is not
    reentrant).  [OutOfFuel] is the bound on nested listener calls. *)
Inductive Outcome (A : Type) : Type :=
| Returns (a : A) (w : World)
| Blocked (w : World)
| OutOfFuel.
Arguments Returns {A} a w.
Arguments Blocked {A} w.
Arguments OutOfFuel {A}.

Definition M (A : Type) : Type := World -> Outcome A.

Definition ret {A} (a : A) : M A := fun w => Returns a w.

Definition bind {A B} (m : M A) (k : A -> M B) : M B :=
  fun w =>
    match m w with
    | Returns a w' => k a w'
    | Blocked w' => Blocked w'
    | OutOfFuel => OutOfFuel
    end.

Declare Scope go_scope.
Delimit Scope go_scope with go.
Notation "x <- c1 ;; c2" := (bind c1 (fun x => c2))
  (at level 100, c1 at next level, right associativity) : go_scope.
Notation "c1 ;; c2" := (bind c1 (fun _ => c2))
  (at level 100, right associativity) : go_scope.
Local Open Scope go_scope.

Definition get : M World := fun w => Returns w w.
Definition modify (f : World -> World) : M unit := fun w => Returns tt (f w).
Definition log (ev : Event) : M unit := modify (add_event ev).

(** [sync.RWMutex]: [Lock] waits while the lock is held. *)
Definition Lock : M unit :=
  fun w => if locked w then Blocked w else Returns tt (set_locked true w).
Definition Unlock : M unit := modify (set_locked false).
Definition RLock : M unit :=
  fun w => if locked w then Blocked w else Returns tt w.
Definition RUnlock : M unit := ret tt.

Definition load (l : loc) : M (option limitedSender) :=
  fun w => Returns (heap w !! l) w.
Definition store (l : loc) (o : limitedSender) : M unit :=
  modify (fun w => set_heap (<[l := o]> (heap w)) w).
Definition alloc (o : limitedSender) : M loc :=
  fun w => Returns (length (heap w)) (set_heap (heap w ++ [o]) w).

(** The collaborators the program calls and the repository does not hold:
    the msgpack encoder, [wrp.ParseLocator], and what dialling a URL with a
    send deadline gives ([dialNewSocket], that is the network). *)
Record Collaborators : Type := {
  encode : wrp.Message -> error + list byte;
  ParseLocator : string -> error + wrp.Locator;
  dialNewSocket : string -> Z -> error + Socket
}.

Section Program.
Variable E : Collaborators.

(** *** sender.go *)

Section Listeners.
(** How a listener is run: [eventor.Visit] calls the listeners one after
    the other on the caller's goroutine (the sender tests read what a
    listener wrote right after [Close] and [ProcessWRP] return). *)
Variable fire : CloseListener -> option error -> M unit.

(** [func (s *Sender) visitOnClose(err error)] *)
Fixpoint visitOnClose (fs : list CloseListener) (err : option error)
    : M unit :=
  match fs with
  | [] => ret tt
  | f :: rest => fire f err ;; visitOnClose rest err
  end.

(** [func (s *Sender) Close() error] *)
Definition Sender_Close (l : loc) (s : Sender) : M (option error) :=
  match sock s with
  | Some _ =>
      log (SockClose l) ;;
      store l (RealSender (set_sock s None)) ;;
      visitOnClose (onClose s) None ;;
      ret None
  | None => ret None
  end.

(** The [select] that ends [Sender.ProcessWRP]: [rv] is what the sending
    goroutine reports. *)
Definition select (ctx : Context) (rv : option error) : option error :=
  match Err ctx with
  | Some c => if doneFirst ctx then Some c else rv
  | None => rv
  end.

(** [func (s *Sender) ProcessWRP(ctx, msg) error].  The sending
    goroutine is run to its end within the call. *)
Definition Sender_ProcessWRP (l : loc) (s : Sender) (ctx : Context)
    (msg : wrp.Message) : M (option error) :=
  match encode E msg with
  | inl e => ret (Some e)
  | inr buf =>
      match sock s with
      | None => ret (Some ErrConnClosed)
      | Some sk =>
          log (SockSend l buf) ;;
          match Socket_Send sk with
          | (Some e, _) =>
              log (SockClose l) ;;
              store l (RealSender (set_sock s None)) ;;
              visitOnClose (onClose s)
                (errs.Join [Some e; Some ErrFailedToSend]) ;;
              ret (select ctx (Some e))
          | (None, sk') =>
              store l (RealSender (set_sock s (Some sk'))) ;;
              ret (select ctx (Err ctx))
          end
      end
  end.

(** *** the methods of [limitedSender], by dynamic dispatch *)

Definition Close (l : loc) : M (option error) :=
  log (CallClose l) ;;
  o <- load l ;;
  match o with
  | Some (RealSender s) => Sender_Close l s
  | Some (MockSender _) => ret None
  | None => ret None
  end.

Definition ProcessWRP (l : loc) (ctx : Context) (msg : wrp.Message)
    : M (option error) :=
  log (CallProcessWRP l msg) ;;
  o <- load l ;;
  match o with
  | Some (RealSender s) => Sender_ProcessWRP l s ctx msg
  | Some (MockSender m) =>
      store l (MockSender (bump m)) ;;
      ret (processErr m)
  | None => ret None
  end.

End Listeners.

(** [func (s *Sender) Dial() error] *)
Definition Sender_Dial (l : loc) (s : Sender) : M (option error) :=
  match sock s with
  | Some _ => ret None
  | None =>
      match dialNewSocket E (url s) (sendDeadline s) with
      | inl e => ret (Some e)
      | inr sk => store l (RealSender (set_sock s (Some sk))) ;; ret None
      end
  end.

Definition Dial (l : loc) : M (option error) :=
  log (CallDial l) ;;
  o <- load l ;;
  match o with
  | Some (RealSender s) => Sender_Dial l s
  | Some (MockSender m) => ret (dialErr m)
  | None => ret None
  end.

(** *** sendermap.go *)

(** A listener, given what [sm.Remove] does. *)
Definition fire_with (remove : string -> M (option error))
    (f : CloseListener) (err : option error) : M unit :=
  match f with
  | RemoveFromMap name => remove name ;; ret tt
  | Observer tag => log (Observed tag err)
  end.

(** [func (sm *senderMap) Remove(name string) error].  [Remove] closes a
    sender, whose listeners may call [Remove]: [depth] bounds that
    nesting ([Remove_depth] below shows that 2 is never exceeded). *)
Fixpoint Remove_ (depth : nat) (name : string) : M (option error) :=
  match depth with
  | O => fun _ => OutOfFuel
  | S d =>
      Lock ;;
      w <- get ;;
      match table w name with
      | Some l =>
          Close (fire_with (Remove_ d)) l ;;
          modify (fun w => set_senders (delete name <$> senders w) w) ;;
          Unlock ;;
          ret None
      | None => Unlock ;; ret None
      end
  end.

Definition Remove : string -> M (option error) := Remove_ 2.

(** The listeners as the program runs them. *)
Definition fire : CloseListener -> option error -> M unit :=
  fire_with Remove.

(** The snapshot [ProcessWRP] takes of the table for a ServiceAlive
    message (Go leaves the order of the iteration open). *)
Definition snapshot (w : World) : list loc :=
  match senders w with
  | Some t => (map_to_list t).*2
  | None => []
  end.

Fixpoint send_all (ls : list loc) (ctx : Context) (msg : wrp.Message)
    : M unit :=
  match ls with
  | [] => ret tt
  | s :: rest => ProcessWRP fire s ctx msg ;; send_all rest ctx msg
  end.

(** [func (sm *senderMap) ProcessWRP(ctx, msg) error] *)
Definition senderMap_ProcessWRP (ctx : Context) (msg : wrp.Message)
    : M (option error) :=
  if (wrp.Type_ msg =? wrp.ServiceAliveMessageType)%Z then
    RLock ;;
    w <- get ;;
    RUnlock ;;
    send_all (snapshot w) ctx msg ;;
    ret None
  else
    match ParseLocator E (wrp.To msg) with
    | inl err => ret (Some err)
    | inr dest =>
        RLock ;;
        w <- get ;;
        RUnlock ;;
        match table w (wrp.Service dest) with
        | Some target => ProcessWRP fire target ctx msg
        | None => ret (Some ErrNotHandled)
        end
    end.

Fixpoint close_all (ls : list loc) : M unit :=
  match ls with
  | [] => ret tt
  | s :: rest => Close fire s ;; close_all rest
  end.

(** [func (sm *senderMap) Close() error] *)
Definition senderMap_Close : M (option error) :=
  Lock ;;
  w <- get ;;
  close_all (snapshot w) ;;
  modify (set_senders None) ;;
  Unlock ;;
  ret None.

(** Calling a [limitedSenderFactory]. *)
Definition build (factory : Factory) (opts : list Option_)
    : M (error + loc) :=
  match factory with
  | factoryNew =>
      match New opts with
      | inl e => ret (inl e)
      | inr s => l <- alloc (RealSender s) ;; ret (inr l)
      end
  | factoryMock m => l <- alloc (MockSender m) ;; ret (inr l)
  | factoryFail e => ret (inl e)
  end.

(** [if sm.senders == nil { sm.senders = make(map[string]limitedSender) }] *)
Definition ensure_map (w : World) : World :=
  match senders w with
  | None => set_senders (Some ∅) w
  | Some _ => w
  end.

(** The message [upsert] sends to the sender it has installed. *)
Definition authorization : wrp.Message :=
  {| wrp.Type_ := wrp.AuthorizationMessageType; wrp.Source := "";
     wrp.Destination := ""; wrp.Status := Some 200%Z;
     wrp.ServiceName := ""; wrp.URL := ""; wrp.Payload := [] |}.

(** [func (sm *senderMap) upsert(name, opts, factory) error] *)
Definition upsert (name : string) (opts : list Option_) (factory : Factory)
    : M (option error) :=
  let opts := opts ++ [WithCloseListener (RemoveFromMap name)] in
  r <- build factory opts ;;
  match r with
  | inl err => ret (Some err)
  | inr s =>
      err <- Dial s ;;
      match err with
      | Some e => Close fire s ;; ret (Some e)
      | None =>
          Lock ;;
          modify ensure_map ;;
          w <- get ;;
          match table w name with
          | Some existing => Close fire existing ;; ret tt
          | None => ret tt
          end ;;
          modify (fun w => set_senders (<[name := s]> <$> senders w) w) ;;
          Unlock ;;
          ProcessWRP fire s Background authorization ;;
          ret None
      end
  end.

(** [func (sm *senderMap) Upsert(name, opts) error] *)
Definition Upsert (name : string) (opts : list Option_) : M (option error) :=
  upsert name opts factoryNew.

(** *** server.go *)

Record Server : Type := { sOpts : list Option_ }.

(** [func (srv *Server) handleRegisterMsg(_, msg) error] *)
Definition handleRegisterMsg (srv : Server) (msg : wrp.Message)
    : M (option error) :=
  if negb (wrp.Type_ msg =? wrp.ServiceRegistrationMessageType)%Z then
    ret (Some ErrNotHandled)
  else if String.eqb (wrp.ServiceName msg) "" || String.eqb (wrp.URL msg) ""
  then ret (Some errInvalidMsg)
  else Upsert (wrp.ServiceName msg) (sOpts srv ++ [WithURL (wrp.URL msg)]).

End Program.

End nng.

(* ================================================================== *)
(** ** receiver.Receiver *)
(* ================================================================== *)

Module receiver.

(** What [sock.Recv()] gives the receiving goroutine: an error (a timeout
    among them) or the bytes, which Go lets be the nil slice. *)
Inductive RecvResult : Type :=
| RecvErr (e : error)
| RecvOk (bytes : option (list byte)).

(** One turn of the loop of [receive] as the scheduler decides it: the
    result of [Recv], and whether the [select] takes [ctx.Done()] when the
    context is done. *)
Record Turn : Type := { recv : RecvResult; takeDone : bool }.

Record Receiver : Type := {
  url : string;
  timeout : Z;
  onFailure : list nat;      (* the close listeners, by tag *)
  cancel : bool              (* r.cancel != nil: the receiver is running *)
}.

Definition set_cancel (b : bool) (r : Receiver) : Receiver :=
  {| url := url r; timeout := timeout r; onFailure := onFailure r;
     cancel := b |}.

Section Loop.
(** The msgpack decoder. *)
Variable decode : list byte -> error + wrp.Message.

(** [func (r *Receiver) receive(ctx, sock) error] while the context is
    done ([done = true]) or not: the messages handed to the message
    listeners and the error returned, [None] as long as the loop runs. *)
Fixpoint receive (done : bool) (turns : list Turn)
    : list wrp.Message * option (option error) :=
  match turns with
  | [] => ([], None)
  | t :: rest =>
      let ctxErr := if done then Some Canceled else None in
      let '(buf, err) :=
        if done && takeDone t then (None, ctxErr)
        else match recv t with
             | RecvErr e => (None, Some e)
             | RecvOk b => (b, None)
             end in
      match buf with
      | Some b =>
          match decode b with
          | inr msg =>
              let '(ms, r) := receive done rest in (msg :: ms, r)
          | inl _ => receive done rest
          end
      | None =>
          if errs.Is err ErrRecvTimeout then receive done rest
          else ([], Some (errs.Join [err; ctxErr]))
      end
  end.

(** The calls [wrapper] makes to the close listeners. *)
Definition notify (r : Receiver) (err : option error)
    : list (nat * option error) :=
  (fun f => (f, err)) <$> onFailure r.

(** [func (r *Receiver) Close() error], called from outside while the loop,
    if there is one, goes through [turns] once [r.cancel()] is called.
    The result is [None] as long as [r.wg.Wait()] has not returned;
    otherwise the value returned, the receiver, and the calls the wrapper
    of the loop makes to the close listeners afterwards. *)
Definition Close (r : Receiver) (turns : list Turn)
    : option (option error * Receiver * list (nat * option error)) :=
  if cancel r then
    match receive true turns with
    | (_, Some err) => Some (None, set_cancel false r, notify r err)
    | (_, None) => None
    end
  else Some (None, r, []).

(** [func (r *Receiver) wrapper(ctx, sock)] when nobody calls [Close]:
    the loop ends by itself, [wrapper] calls [r.Close()] and the close
    listeners. *)
Definition wrapper (r : Receiver) (turns : list Turn)
    : option (Receiver * list (nat * option error)) :=
  match receive false turns with
  | (_, Some err) => Some (set_cancel false r, notify r err)
  | (_, None) => None
  end.

End Loop.

(** [func (r *Receiver) Listen() error].  [newSocket url timeout] is the
    error, if there is one, of opening the pull socket and listening on
    [url] (the network); the loop [Listen] starts is [wrapper] above. *)
Definition Listen (newSocket : string -> Z -> option error) (r : Receiver)
    : option error * Receiver :=
  if cancel r then (None, r)
  else
    match newSocket (url r) (timeout r) with
    | Some e => (Some e, r)
    | None => (None, set_cancel true r)
    end.

(** *** options.go *)

(** [receiver.Option]; a message handler and a close listener are named
    by a tag, and a nil option is [NilOption]. *)
Inductive Option_ : Type :=
| WithURL (u : string)
| WithRecvTimeout (t : Z)
| WithModifyWRP (m : nat)
| WithCloseListener (f : nat)
| NilOption.

(** A receiver together with its message handlers ([r.onMsg]). *)
Record Configured : Type := { rcv : Receiver; onMsg : list nat }.

(** [&Receiver{}] *)
Definition zero : Configured :=
  {| rcv := {| url := ""; timeout := 0%Z; onFailure := []; cancel := false |};
     onMsg := [] |}.

(** [opt.apply(r)]; applying the nil option panics ([None]). *)
Definition apply (opt : Option_) (c : Configured) : option Configured :=
  match opt with
  | WithURL u =>
      Some {| rcv := {| url := u; timeout := timeout (rcv c);
                        onFailure := onFailure (rcv c);
                        cancel := cancel (rcv c) |};
              onMsg := onMsg c |}
  | WithRecvTimeout t =>
      if (0 <=? t)%Z
      then Some {| rcv := {| url := url (rcv c); timeout := t;
                             onFailure := onFailure (rcv c);
                             cancel := cancel (rcv c) |};
                   onMsg := onMsg c |}
      else Some c
  | WithModifyWRP m => Some {| rcv := rcv c; onMsg := onMsg c ++ [m] |}
  | WithCloseListener f =>
      Some {| rcv := {| url := url (rcv c); timeout := timeout (rcv c);
                        onFailure := onFailure (rcv c) ++ [f];
                        cancel := cancel (rcv c) |};
              onMsg := onMsg c |}
  | NilOption => None
  end.

(** [func New(opts ...Option)]: the options in order,
    then [validate()]; [None] is a panic. *)
Definition New (opts : list Option_) : option (error + Configured) :=
  c ← foldl (fun c opt => c ≫= apply opt) (Some zero) opts;
  Some (if String.eqb (url (rcv c)) "" then inl errURLRequired else inr c).

End receiver.

(* ================================================================== *)
(** ** The filters *)
(* ================================================================== *)

Module filters.

Definition ErrUnsupported : error := errorString "unsupported message type".
Definition ErrLocalDisallowed : error :=
  errorString "local message types are not allowed".

(** The bounds of [wrp.MessageType] that the filter names (wrp-go holds
    their values). *)
Record Bounds : Type := {
  LastMessageType : wrp.MessageType;
  Invalid0MessageType : wrp.MessageType;
  Invalid1MessageType : wrp.MessageType
}.

(** [fmt.Errorf("invalid message type: %d", m.Type)] *)
Definition invalidType (t : wrp.MessageType) : error :=
  errorString ("invalid message type: " +:+ pretty t).

(** [func ErrorOnUnsupportedMsgTypes() wrp.ProcessorFunc] *)
Definition ErrorOnUnsupportedMsgTypes (B : Bounds) (m : wrp.Message)
    : option error :=
  if (LastMessageType B <=? wrp.Type_ m)%Z
     || (wrp.Type_ m <? 0)%Z
     || (wrp.Type_ m =? Invalid0MessageType B)%Z
     || (wrp.Type_ m =? Invalid1MessageType B)%Z
  then errs.Join [Some (invalidType (wrp.Type_ m)); Some ErrUnsupported]
  else Some ErrNotHandled.

(** [func ErrorOnLocalMsgTypes() wrp.ProcessorFunc] *)
Definition ErrorOnLocalMsgTypes (m : wrp.Message) : option error :=
  if (wrp.Type_ m =? wrp.AuthorizationMessageType)%Z
     || (wrp.Type_ m =? wrp.ServiceRegistrationMessageType)%Z
     || (wrp.Type_ m =? wrp.ServiceAliveMessageType)%Z
  then Some ErrLocalDisallowed
  else Some ErrNotHandled.

End filters.

(* ================================================================== *)
(** ** The server: its two chains, Start and Stop *)
(* ================================================================== *)

Module server.
Import nng.
Local Open Scope go_scope.

(** [wrp.Processor], for a call that may not return. *)
Definition Processor : Type := Context -> wrp.Message -> M (option error).

(** [wrp.ProcessorFunc] of a function without effects. *)
Definition ProcessorFunc (f : wrp.Message -> option error) : Processor :=
  fun _ msg => ret (f msg).

(** [func (p Processors) ProcessWRP(ctx, msg) error] of stopping.go with
    such processors; [lift] below carries a processor of [stopping] over,
    and the two chains then agree. *)
Fixpoint Processors_ProcessWRP (p : list (option Processor)) (ctx : Context)
    (msg : wrp.Message) : M (option error) :=
  match p with
  | [] => ret (Some ErrNotHandled)
  | proc :: rest =>
      match Err ctx with
      | Some e => ret (Some e)
      | None =>
          match proc with
          | None => Processors_ProcessWRP rest ctx msg
          | Some f =>
              err <- f ctx msg ;;
              if errs.Is err ErrNotHandled
              then Processors_ProcessWRP rest ctx msg
              else ret err
          end
      end
  end.

Definition lift (f : @stopping.Processor World Context) : Processor :=
  fun ctx msg w => let '(err, w') := f ctx msg w in Returns err w'.

Definition lift_all (p : list (option (@stopping.Processor World Context)))
    : list (option Processor) :=
  map (option_map lift) p.

Section Chains.
Variable E : Collaborators.
Variable B : filters.Bounds.

(** The code of the caller: [srv.rxObservers.ObserveWRP],
    [srv.txObservers.ObserveWRP], and the visit of the egress modifiers
    (their results are dropped). *)
Variable rxObservers : Context -> wrp.Message -> M unit.
Variable txObservers : Context -> wrp.Message -> M unit.
Variable egress : Context -> wrp.Message -> M unit.

(** [wrp.ObserverAsProcessor] of wrp-go. *)
Variable ObserverAsProcessor :
  (Context -> wrp.Message -> M unit) -> Processor.

(** [func (srv *Server) egressWRP(ctx, msg) error] *)
Definition egressWRP : Processor :=
  fun ctx msg => egress ctx msg ;; ret None.

(** The chain [createReceiver] hands to the receiver. *)
Definition rxChain (srv : Server) : list (option Processor) :=
  [Some (ObserverAsProcessor rxObservers);
   Some (ProcessorFunc (filters.ErrorOnUnsupportedMsgTypes B));
   Some (fun _ msg => handleRegisterMsg E srv msg);
   Some (ProcessorFunc filters.ErrorOnLocalMsgTypes);
   Some egressWRP].

(** What the receiver runs for a decoded message: the chain, under
    [context.Background()]. *)
Definition received (srv : Server) (msg : wrp.Message) : M (option error) :=
  Processors_ProcessWRP (rxChain srv) Background msg.

(** The chain of [createIngressChain]. *)
Definition ingressChain : list (option Processor) :=
  [Some (ProcessorFunc (filters.ErrorOnUnsupportedMsgTypes B));
   Some (ProcessorFunc filters.ErrorOnLocalMsgTypes);
   Some (ObserverAsProcessor txObservers);
   Some (senderMap_ProcessWRP E)].

(** [func (srv *Server) ProcessWRP(ctx, msg) error] *)
Definition Server_ProcessWRP (ctx : Context) (msg : wrp.Message)
    : M (option error) :=
  Processors_ProcessWRP ingressChain ctx msg.

End Chains.

(** *** NewServer and the server options *)

(** [ServerOption]; an observer and a modifier are named by a tag, and a
    nil option is [NilOption]. *)
Inductive ServerOption : Type :=
| RXURL (u : string)
| RXTimeout (t : Z)
| WithHeartbeatInterval (i : Z)
| WithRXObserver (o : nat)
| WithTXObserver (o : nat)
| WithEgressModifier (m : nat)
| NilOption.

(** The fields of [Server] the options set. *)
Record Config : Type := {
  rOpts : list receiver.Option_;
  heartbeatInterval : Z;
  rxObserverTags : list nat;
  txObserverTags : list nat;
  egressTags : list nat
}.

(** [var srv Server] *)
Definition zero : Config :=
  {| rOpts := []; heartbeatInterval := 0%Z; rxObserverTags := [];
     txObserverTags := []; egressTags := [] |}.

(** [opt.apply(&srv)] for the options a caller can give; none fails, and
    [NewServer] skips the nil option. *)
Definition apply (opt : ServerOption) (c : Config) : Config :=
  match opt with
  | RXURL u =>
      {| rOpts := rOpts c ++ [receiver.WithURL u];
         heartbeatInterval := heartbeatInterval c;
         rxObserverTags := rxObserverTags c;
         txObserverTags := txObserverTags c; egressTags := egressTags c |}
  | RXTimeout t =>
      {| rOpts := rOpts c ++ [receiver.WithRecvTimeout t];
         heartbeatInterval := heartbeatInterval c;
         rxObserverTags := rxObserverTags c;
         txObserverTags := txObserverTags c; egressTags := egressTags c |}
  | WithHeartbeatInterval i =>
      {| rOpts := rOpts c; heartbeatInterval := i;
         rxObserverTags := rxObserverTags c;
         txObserverTags := txObserverTags c; egressTags := egressTags c |}
  | WithRXObserver o =>
      {| rOpts := rOpts c; heartbeatInterval := heartbeatInterval c;
         rxObserverTags := rxObserverTags c ++ [o];
         txObserverTags := txObserverTags c; egressTags := egressTags c |}
  | WithTXObserver o =>
      {| rOpts := rOpts c; heartbeatInterval := heartbeatInterval c;
         rxObserverTags := rxObserverTags c;
         txObserverTags := txObserverTags c ++ [o];
         egressTags := egressTags c |}
  | WithEgressModifier m =>
      {| rOpts := rOpts c; heartbeatInterval := heartbeatInterval c;
         rxObserverTags := rxObserverTags c;
         txObserverTags := txObserverTags c;
         egressTags := egressTags c ++ [m] |}
  | NilOption => c
  end.

(** [30 * time.Second], in nanoseconds. *)
Definition defaultHeartbeat : Z := 30000000000%Z.

(** The tag that stands for the modifier of the rx chain. *)
Definition chainHandler : nat := 0.

(** [func NewServer(opts ...ServerOption)]: the default, the options of
    the caller, then [createReceiver()] and [createIngressChain()], which
    does not fail.  The result is the configuration and the receiver;
    [None] is a panic. *)
Definition NewServer (opts : list ServerOption)
    : option (error + Config * receiver.Configured) :=
  let c := foldl (fun c opt => apply opt c) zero
             (WithHeartbeatInterval defaultHeartbeat :: opts) in
  match receiver.New (rOpts c ++ [receiver.WithModifyWRP chainHandler]) with
  | None => None
  | Some (inl e) => Some (inl e)
  | Some (inr rc) => Some (inr (c, rc))
  end.

(** *** Start and Stop *)

(** The server as [Start] and [Stop] see it: its receiver, whether
    [srv.heartbeatCancel] is set, and the [sendHeartbeat] goroutines that
    have been started and not told to stop. *)
Record Lifecycle : Type := {
  r : receiver.Receiver;
  heartbeatCancel : bool;
  heartbeats : nat
}.

(** [func (srv *Server) Start() error] *)
Definition Start (newSocket : string -> Z -> option error) (s : Lifecycle)
    : option error * Lifecycle :=
  if heartbeatCancel s then (None, s)
  else
    let '(err, r') := receiver.Listen newSocket (r s) in
    (err, {| r := r'; heartbeatCancel := true;
             heartbeats := S (heartbeats s) |}).

(** [func (srv *Server) Stop() error], the loop of the receiver going
    through [turns] once its context is cancelled.  The result is [None]
    as long as [srv.r.Close()] has not returned; otherwise the value
    returned, the server, and the calls made to the close listeners of the
    receiver. *)
Definition Stop (decode : list byte -> error + wrp.Message) (s : Lifecycle)
    (turns : list receiver.Turn)
    : M (option (option error * Lifecycle
                 * list (nat * option error))) :=
  let beats :=
    if heartbeatCancel s then pred (heartbeats s) else heartbeats s in
  match receiver.Close decode (r s) turns with
  | None => ret None
  | Some (e1, r', calls) =>
      e2 <- senderMap_Close ;;
      ret (Some (errs.Join [e1; e2],
                 {| r := r'; heartbeatCancel := false; heartbeats := beats |},
                 calls))
  end.

End server.

(* ================================================================== *)
(** ** The client *)
(* ================================================================== *)

Module client.

Definition errServerURLRequired : error :=
  errorString "server URL is required".

(** The fields of [Client] the options set; a modifier is named by a
    tag. *)
Record Client : Type := {
  clientURL : string;
  serverURL : string;
  egress : list nat
}.

(** [Client{}] *)
Definition zero : Client :=
  {| clientURL := ""; serverURL := ""; egress := [] |}.

(** [ClientOption]; a nil option is [NilOption]. *)
Inductive ClientOption : Type :=
| WithClientURL (u : string)
| WithServerURL (u : string)
| WithReceivedModifier (m : nat)
| NilOption.

Definition apply (opt : ClientOption) (c : Client) : Client :=
  match opt with
  | WithClientURL u =>
      {| clientURL := u; serverURL := serverURL c; egress := egress c |}
  | WithServerURL u =>
      {| clientURL := clientURL c; serverURL := u; egress := egress c |}
  | WithReceivedModifier m =>
      {| clientURL := clientURL c; serverURL := serverURL c;
         egress := egress c ++ [m] |}
  | NilOption => c
  end.

(** [determineClientURL()]; [findOpenURL] is what the search for a free
    port gives. *)
Definition determineClientURL (findOpenURL : error + string) (c : Client)
    : error + Client :=
  if String.eqb (clientURL c) "" then
    match findOpenURL with
    | inl e => inl e
    | inr u =>
        inr {| clientURL := u; serverURL := serverURL c; egress := egress c |}
    end
  else inr c.

(** [validateClient()] *)
Definition validateClient (c : Client) : error + Client :=
  if String.eqb (serverURL c) "" then inl errServerURLRequired else inr c.

(** [func NewClient(opts ...ClientOption)]: the options
    in order, then the two validators; the client returned is
    [&Client{}]. *)
Definition NewClient (findOpenURL : error + string)
    (opts : list ClientOption) : error + Client :=
  let c := foldl (fun c opt => apply opt c) zero opts in
  match determineClientURL findOpenURL c with
  | inl e => inl e
  | inr c1 =>
      match validateClient c1 with
      | inl e => inl e
      | inr _ => inr zero
      end
  end.

End client.

(* ================================================================== *)
(** ** Notions the statements use *)
(* ================================================================== *)

Module notions.
Import nng.

(** The calls of [ProcessWRP] on senders that a trace records. *)
Definition sends (tr : list Event) : list (loc * wrp.Message) :=
  omap (fun ev => match ev with
                  | CallProcessWRP l msg => Some (l, msg)
                  | _ => None
                  end) tr.

(** The senders [Close] was called on, and the number of those calls that
    were on [l]. *)
Definition close_calls (tr : list Event) : list loc :=
  omap (fun ev => match ev with CallClose l => Some l | _ => None end) tr.

Definition closes (l : loc) (tr : list Event) : nat :=
  length (filter (fun x => x = l) (close_calls tr)).

(** The senders [Dial] was called on. *)
Definition dial_calls (tr : list Event) : list loc :=
  omap (fun ev => match ev with CallDial l => Some l | _ => None end) tr.

Definition is_observer (f : CloseListener) : bool :=
  match f with
  | Observer _ => true
  | RemoveFromMap _ => false
  end.

(** Options that bring no listener calling back into the sender map: those
    a caller of the package can write. *)
Definition plain (opts : list Option_) : Prop :=
  forall name, WithCloseListener (RemoveFromMap name) ∉ opts.

(** [Close] on [l] does not call back into the sender map: [l] is a mock
    or a sender without socket. *)
Definition quiet (w : World) (l : loc) : Prop :=
  match heap w !! l with
  | Some (RealSender s) => sock s = None
  | Some (MockSender _) => True
  | None => False
  end.

(** The listeners of a heap cell: those of a sender, none otherwise. *)
Definition listeners (o : option limitedSender)
    : option (list CloseListener) :=
  match o with
  | Some (RealSender s) => Some (onClose s)
  | _ => None
  end.

(** [l] is a sender without socket. *)
Definition closed (w : World) (l : loc) : Prop :=
  exists s, heap w !! l = Some (RealSender s) /\ sock s = None.

(** The senders of the table remove themselves: a sender registered under
    a name has no listener removing another name. *)
Definition self_pruning (w : World) : Prop :=
  forall name l s n,
    table w name = Some l ->
    heap w !! l = Some (RealSender s) ->
    RemoveFromMap n ∈ onClose s ->
    n = name.

(** What a call that returns leaves in place: the lock as it was, the
    senders that were there with their listeners, no new entry in the
    table; [ds] lists the senders it dialled. *)
Record frame (ds : list loc) (w w' : World) : Prop := {
  frame_locked : locked w' = locked w;
  frame_length : length (heap w) <= length (heap w');
  frame_listeners :
    forall l, l < length (heap w) ->
      listeners (heap w' !! l) = listeners (heap w !! l);
  frame_table : forall m l, table w' m = Some l -> table w m = Some l;
  frame_dials : dial_calls (trace w') = dial_calls (trace w) ++ ds
}.

(** The state of a sender map between two calls: the lock is free, the
    entries are senders of the heap, and they remove themselves. *)
Definition well_formed (w : World) : Prop :=
  locked w = false /\
  (forall name l, table w name = Some l -> l < length (heap w)) /\
  self_pruning w.

(** The worlds the methods of the sender map produce from the zero value,
    called one after the other with options a caller can write. *)
Inductive reachable (E : Collaborators) : World -> Prop :=
| reachable_empty : reachable E empty
| reachable_upsert w name opts factory r w' :
    reachable E w ->
    plain opts ->
    upsert E name opts factory w = Returns r w' ->
    reachable E w'
| reachable_Remove w name r w' :
    reachable E w ->
    Remove name w = Returns r w' ->
    reachable E w'
| reachable_ProcessWRP w ctx msg r w' :
    reachable E w ->
    senderMap_ProcessWRP E ctx msg w = Returns r w' ->
    reachable E w'
| reachable_Close w r w' :
    reachable E w ->
    senderMap_Close w = Returns r w' ->
    reachable E w'.

(** The names the listeners of [l] remove are free or held by [l]. *)
Definition prunes_itself (w : World) (l : loc) : Prop :=
  forall s n l',
    heap w !! l = Some (RealSender s) ->
    RemoveFromMap n ∈ onClose s ->
    table w n = Some l' ->
    l' = l.

(** The world in which the listeners of a sender run once its socket has
    been torn down. *)
Definition torn (l : loc) (s : Sender) (w : World) : World :=
  set_heap (<[l := RealSender (set_sock s None)]> (heap w))
    (add_event (SockClose l) w).

(** The listeners among options. *)
Definition option_listeners (opts : list Option_) : list CloseListener :=
  omap (fun opt => match opt with
                   | WithCloseListener f => Some f
                   | _ => None
                   end) opts.

(** [upsert] fails to build the sender ([None]) or builds it at some
    address and fails to dial it ([Some l]). *)
Inductive attempt_fails (E : Collaborators) (name : string)
    (opts : list Option_) (factory : Factory) (w : World) (e : error)
    : option loc -> Prop :=
| build_fails w1 :
    build factory (opts ++ [WithCloseListener (RemoveFromMap name)]) w
      = Returns (inl e) w1 ->
    attempt_fails E name opts factory w e None
| dial_fails l w1 w2 :
    build factory (opts ++ [WithCloseListener (RemoveFromMap name)]) w
      = Returns (inr l) w1 ->
    Dial E l w1 = Returns (Some e) w2 ->
    attempt_fails E name opts factory w e (Some l).

(** The world a call leaves, when it leaves one. *)
Definition world_of {A} (o : Outcome A) : World :=
  match o with
  | Returns _ w => w
  | Blocked w => w
  | OutOfFuel => empty
  end.

(** The listeners with the table's lock held: an observer records, a
    [RemoveFromMap] waits for the lock for ever. *)
Fixpoint visit_locked (fs : list CloseListener) (err : option error)
    : M unit :=
  match fs with
  | [] => ret tt
  | Observer tag :: rest =>
      fun w => visit_locked rest err (add_event (Observed tag err) w)
  | RemoveFromMap _ :: _ => fun w => Blocked w
  end.

(** *** what the later statements use *)

(** A world with more events in its trace. *)
Definition add_events (evs : list Event) (w : World) : World :=
  {| heap := heap w; senders := senders w; locked := locked w;
     trace := trace w ++ evs |}.

(** What the observers among listeners record when they are given
    [err]. *)
Definition notices (fs : list CloseListener) (err : option error)
    : list Event :=
  omap (fun f => match f with
                 | Observer tag => Some (Observed tag err)
                 | RemoveFromMap _ => None
                 end) fs.

(** The URL options leave to a sender: that of the last [WithURL]. *)
Definition last_url (opts : list Option_) : string :=
  default "" (last (omap (fun opt => match opt with
                                     | WithURL u => Some u
                                     | _ => None
                                     end) opts)).

(** The send deadline options leave: the last positive one. *)
Definition last_deadline (opts : list Option_) : Z :=
  default 0%Z
    (last (omap (fun opt => match opt with
                            | WithSendTimeout t =>
                                if (0 <? t)%Z then Some t else None
                            | _ => None
                            end) opts)).

(** A sender registered under a name has the listener that removes this
    name. *)
Definition armed (w : World) : Prop :=
  forall name l s,
    table w name = Some l ->
    heap w !! l = Some (RealSender s) ->
    RemoveFromMap name ∈ onClose s.

(** No sender is registered under two names. *)
Definition one_name (w : World) : Prop :=
  forall n1 n2 l, table w n1 = Some l -> table w n2 = Some l -> n1 = n2.

(** The number of entries of the table. *)
Definition registered (w : World) : nat :=
  match senders w with
  | Some t => size t
  | None => 0
  end.

(** [l] is a sender with a socket. *)
Definition connected (w : World) (l : loc) : Prop :=
  exists s sk, heap w !! l = Some (RealSender s) /\ sock s = Some sk.

(** *** the receiver *)

(** A turn after which the loop of the receiver goes on while its context
    is live: bytes came, or the receive timed out. *)
Definition benign (t : receiver.Turn) : Prop :=
  match receiver.recv t with
  | receiver.RecvOk (Some _) => True
  | receiver.RecvOk None => False
  | receiver.RecvErr e => errs.Is (Some e) ErrRecvTimeout = true
  end.

(** The messages among the frames of turns. *)
Definition decoded (decode : list byte -> error + wrp.Message)
    (turns : list receiver.Turn) : list wrp.Message :=
  omap (fun t => match receiver.recv t with
                 | receiver.RecvOk (Some b) =>
                     match decode b with
                     | inr msg => Some msg
                     | inl _ => None
                     end
                 | _ => None
                 end) turns.

(** The error the loop ends with at a turn that is not benign, the
    context being live. *)
Definition fatal (t : receiver.Turn) : option error :=
  match receiver.recv t with
  | receiver.RecvErr e => Some (joinError [e])
  | receiver.RecvOk _ => None
  end.

(** What the options of a receiver leave: the last URL, the last timeout
    that is not negative, the handlers and the listeners in order. *)
Definition rx_url (opts : list receiver.Option_) : string :=
  default "" (last (omap (fun opt => match opt with
                                     | receiver.WithURL u => Some u
                                     | _ => None
                                     end) opts)).

Definition rx_timeout (opts : list receiver.Option_) : Z :=
  default 0%Z
    (last (omap (fun opt => match opt with
                            | receiver.WithRecvTimeout t =>
                                if (0 <=? t)%Z then Some t else None
                            | _ => None
                            end) opts)).

Definition rx_handlers (opts : list receiver.Option_) : list nat :=
  omap (fun opt => match opt with
                   | receiver.WithModifyWRP m => Some m
                   | _ => None
                   end) opts.

Definition rx_listeners (opts : list receiver.Option_) : list nat :=
  omap (fun opt => match opt with
                   | receiver.WithCloseListener f => Some f
                   | _ => None
                   end) opts.

Definition rx_nil (opts : list receiver.Option_) : bool :=
  existsb (fun opt => match opt with
                      | receiver.NilOption => true
                      | _ => false
                      end) opts.

(** *** the filters *)

(** The types [ErrorOnUnsupportedMsgTypes] lets through, and those
    [ErrorOnLocalMsgTypes] stops. *)
Definition supported (B : filters.Bounds) (t : wrp.MessageType) : bool :=
  negb ((filters.LastMessageType B <=? t)%Z
        || (t <? 0)%Z
        || (t =? filters.Invalid0MessageType B)%Z
        || (t =? filters.Invalid1MessageType B)%Z).

Definition local (t : wrp.MessageType) : bool :=
  (t =? wrp.AuthorizationMessageType)%Z
  || (t =? wrp.ServiceRegistrationMessageType)%Z
  || (t =? wrp.ServiceAliveMessageType)%Z.

(** An error as the end of a chain reports it: one that says not-handled
    becomes the bare [ErrNotHandled]. *)
Definition at_end (err : option error) : option error :=
  if errs.Is err ErrNotHandled then Some ErrNotHandled else err.

(** *** the server *)

(** What wrp-go says of [wrp.ObserverAsProcessor]: the observer is called
    and the processor answers not-handled. *)
Definition observer_passes
    (ObserverAsProcessor :
       (Context -> wrp.Message -> M unit) -> server.Processor) : Prop :=
  forall o ctx msg w,
    ObserverAsProcessor o ctx msg w =
    bind (o ctx msg) (fun _ => ret (Some ErrNotHandled)) w.

(** An observer that leaves the sender map alone: its call returns and
    has at most added events to the trace. *)
Definition bystander (o : Context -> wrp.Message -> M unit) : Prop :=
  forall ctx msg w, exists evs,
    o ctx msg w = Returns tt (add_events evs w) /\
    sends evs = [] /\ close_calls evs = [] /\ dial_calls evs = [].

(** What the options of a server leave: the options of its receiver, the
    last heartbeat interval, the observers and the modifiers in order. *)
Definition receiver_options (opts : list server.ServerOption)
    : list receiver.Option_ :=
  omap (fun opt => match opt with
                   | server.RXURL u => Some (receiver.WithURL u)
                   | server.RXTimeout t => Some (receiver.WithRecvTimeout t)
                   | _ => None
                   end) opts.

Definition last_heartbeat (opts : list server.ServerOption) : Z :=
  default server.defaultHeartbeat
    (last (omap (fun opt => match opt with
                            | server.WithHeartbeatInterval i => Some i
                            | _ => None
                            end) opts)).

Definition rx_observers (opts : list server.ServerOption) : list nat :=
  omap (fun opt => match opt with
                   | server.WithRXObserver o => Some o
                   | _ => None
                   end) opts.

Definition tx_observers (opts : list server.ServerOption) : list nat :=
  omap (fun opt => match opt with
                   | server.WithTXObserver o => Some o
                   | _ => None
                   end) opts.

Definition egress_modifiers (opts : list server.ServerOption) : list nat :=
  omap (fun opt => match opt with
                   | server.WithEgressModifier m => Some m
                   | _ => None
                   end) opts.

(** Between two calls, the server has at most one heartbeat goroutine, and
    has one exactly when it is marked started. *)
Definition steady (s : server.Lifecycle) : Prop :=
  server.heartbeats s = (if server.heartbeatCancel s then 1 else 0).

End notions.

(* ================================================================== *)
(** ** Concrete inputs *)
(* ================================================================== *)

Module fixtures.

(** *** the processors of stopping_test.go *)

(** The context of the tests: cancelled or not, for the whole call. *)
Definition testCtxErr (cancelled : bool) (calls : list nat) : option error :=
  if cancelled then Some Canceled else None.

(** [mockProcessor{err, f}], where [f] notes that processor [i] was called:
    the world is the list of the processors called so far. *)
Definition mockProcessor (i : nat) (err : option error)
    : @stopping.Processor (list nat) bool :=
  fun _ _ calls => (err, calls ++ [i]).

Definition someError : error := errorString "some error".

Definition allNotHandled : @stopping.Processors (list nat) bool :=
  [Some (mockProcessor 0 (Some ErrNotHandled)); None;
   Some (mockProcessor 2 (Some ErrNotHandled))].

Definition returnsError : @stopping.Processors (list nat) bool :=
  [Some (mockProcessor 0 (Some ErrNotHandled));
   Some (mockProcessor 1 (Some someError));
   Some (mockProcessor 2 None)].

Definition returnsNil : @stopping.Processors (list nat) bool :=
  [Some (mockProcessor 0 (Some ErrNotHandled));
   Some (mockProcessor 1 None);
   Some (mockProcessor 2 None)].

(** *** the collaborators *)

Import nng notions.

Definition dialError : error := errorString "dial error".
Definition sendError : error := errorString "send error".
Definition decodeError : error := errorString "decode error".

(** An encoder that accepts every message, a locator parser that takes the
    whole destination for the service and refuses the empty one, and a
    network where one peer refuses the connection, one breaks at the
    first frame, one at the second, and the others take everything. *)
Definition E0 : Collaborators :=
  {| encode := fun _ => inr [];
     ParseLocator := fun dest =>
       if String.eqb dest "" then inl ErrorInvalidLocator
       else inr {| wrp.Scheme := "mac"; wrp.Authority := "112233445566";
                   wrp.Service := dest; wrp.Ignored := "" |};
     dialNewSocket := fun u _ =>
       if String.eqb u "tcp://refused" then inl dialError
       else if String.eqb u "tcp://breaks" then
         inr {| sendRv := [Some sendError] |}
       else if String.eqb u "tcp://breaks-later" then
         inr {| sendRv := [None; Some sendError] |}
       else inr {| sendRv := [] |} |}.

(** *** messages *)

Definition alive : wrp.Message :=
  {| wrp.Type_ := wrp.ServiceAliveMessageType; wrp.Source := "";
     wrp.Destination := ""; wrp.Status := None; wrp.ServiceName := "";
     wrp.URL := ""; wrp.Payload := [] |}.

Definition request (dest : string) : wrp.Message :=
  {| wrp.Type_ := wrp.SimpleRequestResponseMessageType; wrp.Source := "";
     wrp.Destination := dest; wrp.Status := None; wrp.ServiceName := "";
     wrp.URL := ""; wrp.Payload := [] |}.

Definition registration (name u : string) : wrp.Message :=
  {| wrp.Type_ := wrp.ServiceRegistrationMessageType; wrp.Source := "";
     wrp.Destination := ""; wrp.Status := None; wrp.ServiceName := name;
     wrp.URL := u; wrp.Payload := [] |}.

(** *** worlds *)

(** One sender registered by [Upsert]. *)
Definition w_A : World :=
  world_of (Upsert E0 "svcA" [WithURL "tcp://peerA"] empty).

(** A second one, whose peer breaks at the second frame. *)
Definition w_AB : World :=
  world_of (Upsert E0 "svcB" [WithURL "tcp://breaks-later"] w_A).

(** The mock of the sender map's tests, registered once and twice. *)
Definition mock0 : mockSender :=
  {| processErr := None; processCount := 0; dialErr := None |}.

Definition w_mock : World :=
  world_of (upsert E0 "svcA" [] (factoryMock mock0) empty).

Definition w_mock2 : World :=
  world_of (upsert E0 "svcA" [] (factoryMock mock0) w_mock).

(** The race of two goroutines, as one interleaving.  A sender whose peer
    breaks at the second frame is registered ([w_old]); a request is sent
    to it, the send fails and the socket is taken away ([w_torn] is the
    world in which [visitOnClose] is about to run); before the listeners
    run, [Upsert] registers a new sender under the name ([w_race]).  The
    listeners of the old sender run next. *)
Definition w_old : World :=
  world_of (Upsert E0 "svcA" [WithURL "tcp://breaks-later"] empty).

Definition w_torn : World :=
  match heap w_old !! 0 with
  | Some (RealSender s) =>
      torn 0 s (add_event (SockSend 0 [])
                  (add_event (CallProcessWRP 0 (request "svcA")) w_old))
  | _ => w_old
  end.

Definition w_race : World :=
  world_of (Upsert E0 "svcA" [WithURL "tcp://peerA2"] w_torn).

(** A sender by itself, with an observer: built, dialled, closed, and
    dialled again. *)
Definition w_built : World :=
  world_of (build factoryNew
              [WithURL "tcp://peerA"; WithCloseListener (Observer 7)] empty).
Definition w_dialled : World := world_of (Dial E0 0 w_built).
Definition w_closed : World := world_of (Close fire 0 w_dialled).
Definition w_redialled : World := world_of (Dial E0 0 w_closed).

(** The sender of [w_closed]. *)
Definition s_closed : Sender :=
  {| url := "tcp://peerA"; onClose := [Observer 7]; sock := None;
     sendDeadline := 0%Z |}.

(** A server without sender options (no server option sets any). *)
Definition srv0 : Server := {| sOpts := [] |}.

(** The reason the listeners of a sender are given when a send fails. *)
Definition sendFailed : option error :=
  errs.Join [Some sendError; Some ErrFailedToSend].

(** *** the receiver *)

Definition decode0 : list byte -> error + wrp.Message :=
  fun _ => inl decodeError.

(** A running receiver with one close listener. *)
Definition r0 : receiver.Receiver :=
  {| receiver.url := "tcp://127.0.0.1:6666"; receiver.timeout := 100%Z;
     receiver.onFailure := [0]; receiver.cancel := true |}.

(** After [Close] has cancelled the context: a receive that times out,
    then a turn in which the [select] takes [ctx.Done()]. *)
Definition turns0 : list receiver.Turn :=
  [{| receiver.recv := receiver.RecvErr ErrRecvTimeout;
      receiver.takeDone := false |};
   {| receiver.recv := receiver.RecvErr ErrRecvTimeout;
      receiver.takeDone := true |}].

(** *** the filters and the server *)

(** The bounds as wrp-go v3 numbers the message types. *)
Definition wrp_go : filters.Bounds :=
  {| filters.LastMessageType := 12%Z;
     filters.Invalid0MessageType := 0%Z;
     filters.Invalid1MessageType := 1%Z |}.

(** An observer, or a modifier, that records that it was called. *)
Definition recording (tag : nat) : Context -> wrp.Message -> M unit :=
  fun _ _ => log (Observed tag None).

(** [wrp.ObserverAsProcessor]: the observer is called and the processor
    answers not-handled. *)
Definition observerAsProcessor (o : Context -> wrp.Message -> M unit)
    : server.Processor :=
  fun ctx msg => bind (o ctx msg) (fun _ => ret (Some ErrNotHandled)).

Definition event (dest : string) : wrp.Message :=
  {| wrp.Type_ := wrp.SimpleEventMessageType; wrp.Source := "";
     wrp.Destination := dest; wrp.Status := None; wrp.ServiceName := "";
     wrp.URL := ""; wrp.Payload := [] |}.

(** A network on which no socket can listen on port 1. *)
Definition listenError : error := errorString "address in use".

Definition newSocket0 (u : string) (timeout : Z) : option error :=
  if String.eqb u "tcp://127.0.0.1:1" then Some listenError else None.

(** A server that was never started, and one whose receiver cannot
    listen. *)
Definition life0 : server.Lifecycle :=
  {| server.r := receiver.set_cancel false r0;
     server.heartbeatCancel := false; server.heartbeats := 0 |}.

Definition life_bad : server.Lifecycle :=
  {| server.r :=
       {| receiver.url := "tcp://127.0.0.1:1"; receiver.timeout := 0%Z;
          receiver.onFailure := []; receiver.cancel := false |};
     server.heartbeatCancel := false; server.heartbeats := 0 |}.

(** A sender with two observers, connected to a peer that breaks at the
    first frame. *)
Definition w_watched : World :=
  world_of (Dial E0 0
    (world_of (build factoryNew
       [WithCloseListener (Observer 1); WithURL "tcp://breaks";
        WithCloseListener (Observer 2)] empty))).

(** A frame that decodes, for the decoder below. *)
Definition decode1 : list byte -> error + wrp.Message :=
  fun b => match b with
           | [] => inl decodeError
           | _ => inr (event "svcA")
           end.

(** A server that was started, its receiver running. *)
Definition life1 : server.Lifecycle :=
  {| server.r := r0; server.heartbeatCancel := true;
     server.heartbeats := 1 |}.

(** The sender of [w_watched], connected. *)
Definition s_watched : Sender :=
  {| url := "tcp://breaks"; onClose := [Observer 1; Observer 2];
     sock := Some {| sendRv := [Some sendError] |}; sendDeadline := 0%Z |}.

(** The sender of [w_old] once the authorization message has gone
    through. *)
Definition s_old : Sender :=
  {| url := "tcp://breaks-later"; onClose := [RemoveFromMap "svcA"];
     sock := Some {| sendRv := [Some sendError] |}; sendDeadline := 0%Z |}.

(** The sender that the registration of "svcB" at "tcp://peerB" builds. *)
Definition s_B : Sender :=
  {| url := "tcp://peerB"; onClose := [RemoveFromMap "svcB"];
     sock := None; sendDeadline := 0%Z |}.

(** A context that is done, whose [select] takes [ctx.Done()]. *)
Definition cancelled : Context :=
  {| Err := Some Canceled; doneFirst := true |}.

(** The turns of a loop: a frame, a timeout, a frame that does not
    decode, and the socket closing. *)
Definition socketClosed : error := errorString "object closed".

Definition turns1 : list receiver.Turn :=
  [{| receiver.recv := receiver.RecvOk (Some ["x"%byte]);
      receiver.takeDone := false |};
   {| receiver.recv := receiver.RecvErr ErrRecvTimeout;
      receiver.takeDone := false |};
   {| receiver.recv := receiver.RecvOk (Some []);
      receiver.takeDone := false |}].

Definition turn_closed : receiver.Turn :=
  {| receiver.recv := receiver.RecvErr socketClosed;
     receiver.takeDone := false |}.

End fixtures.

(* ================================================================== *)
(** * Properties *)
(* ================================================================== *)

(** ** errors.Is and errors.Join *)

Module errs_facts.

(** Induction on an error through the members of a join. *)
Lemma error_nested_ind (P : error -> Prop) :
  (forall s, P (errorString s)) ->
  (forall l, Forall P l -> P (joinError l)) ->
  forall e, P e.
Proof.
  intros Hs Hj. fix IH 1. intros [s | l]; [apply Hs | apply Hj].
  induction l as [| x l IHl]; constructor; [apply IH | exact IHl].
Qed.

Lemma error_eqb_refl (e : error) : error_eqb e e = true.
Proof.
  induction e as [s | l IH] using error_nested_ind.
  - apply String.eqb_refl.
  - induction IH as [| x l Hx _ IHl]; simpl in *; [done |].
    by rewrite Hx, IHl.
Qed.

Lemma is_join (l : list error) (target : error) :
  is_ (joinError l) target =
  error_eqb (joinError l) target || existsb (fun e => is_ e target) l.
Proof. reflexivity. Qed.

Lemma is_refl (e : error) : is_ e e = true.
Proof.
  destruct e as [s | l]; [| rewrite is_join];
    [unfold is_ |]; by rewrite error_eqb_refl.
Qed.

(** A join is one of its members, as far as [errors.Is] can tell. *)
Lemma Is_Join_member (es : list (option error)) (e : error) :
  Some e ∈ es -> errs.Is (errs.Join es) e = true.
Proof.
  intros Hin. unfold errs.Join.
  assert (He : e ∈ omap id es).
  { apply list_elem_of_omap. exists (Some e). split; [done | done]. }
  destruct (omap id es) as [| x l] eqn:Hl; [by apply elem_of_nil in He |].
  unfold errs.Is. rewrite is_join. apply orb_true_iff. right.
  apply existsb_exists. exists e. split; [| apply is_refl].
  apply list_elem_of_In. exact He.
Qed.

Lemma Join_nil_iff (es : list (option error)) :
  errs.Join es = None <-> Forall (fun o => o = None) es.
Proof.
  unfold errs.Join. split.
  - intros H. destruct (omap id es) eqn:Hl; [| done].
    clear H. induction es as [| [e |] es IH]; simpl in *; try done.
    constructor; [done | by apply IH].
  - intros H. replace (omap id es) with (@nil error); [done |].
    induction H as [| o es -> _ IH]; simpl; done.
Qed.

End errs_facts.

(** ** The processor chain *)

Module stopping_facts.
Import stopping.

Section Chain.
Context {World Ctx : Type}.
Variable ctxErr : Ctx -> World -> option error.

Abbreviation Processors := (@Processors World Ctx).
Abbreviation chain := (ProcessWRP ctxErr).
Abbreviation passes := (passes ctxErr).
Abbreviation run := (run ctxErr).

(** A run of the rest of the chain, after a nil entry met with a live
    context. *)
Lemma run_skip ctx msg i (rest : Processors) w calls r w' :
  ctxErr ctx w = None ->
  run ctx msg (S i) rest w calls r w' ->
  run ctx msg i (None :: rest) w calls r w'.
Proof.
  intros Hlive Hrun. inversion Hrun; subst.
  - apply run_exhausted. by apply passes_skip.
  - eapply (run_cancelled _ _ _ _ _ _ (None :: pre)); [done | | done].
    by apply passes_skip.
  - replace (S i + length pre) with (i + length (None :: pre : Processors))
      by (simpl; lia).
    eapply (run_decided _ _ _ _ _ _ (None :: pre)); [done | | done..].
    by apply passes_skip.
Qed.

(** A run of the rest of the chain, after a processor that answered
    not-handled. *)
Lemma run_call ctx msg i f (rest : Processors) w err w1 calls r w' :
  ctxErr ctx w = None ->
  f ctx msg w = (err, w1) ->
  errs.Is err ErrNotHandled = true ->
  run ctx msg (S i) rest w1 calls r w' ->
  run ctx msg i (Some f :: rest) w (i :: calls) r w'.
Proof.
  intros Hlive Hf Hnh Hrun. inversion Hrun; subst.
  - apply run_exhausted. by eapply passes_call.
  - eapply (run_cancelled _ _ _ _ _ _ (Some f :: pre)); [done | | done].
    by eapply passes_call.
  - replace (S i + length pre) with (i + length (Some f :: pre : Processors))
      by (simpl; lia).
    change (i :: calls0 ++ [?x]) with ((i :: calls0) ++ [x]).
    eapply (run_decided _ _ _ _ _ _ (Some f :: pre)); [done | | done..].
    by eapply passes_call.
Qed.

(** Every call of the chain is a run, and the instrumented chain notes
    the positions of that run. *)
Lemma ProcessWRP_run_from i (p : Processors) ctx msg w log :
  exists calls,
    run ctx msg i p w calls (chain p ctx msg w).1 (chain p ctx msg w).2 /\
    ProcessWRP (noted_ctxErr ctxErr) (noting_from i p) ctx msg (w, log)
    = ((chain p ctx msg w).1, ((chain p ctx msg w).2, log ++ calls)).
Proof.
  revert i w log. induction p as [| proc rest IH]; intros i w log; simpl.
  - exists []. rewrite app_nil_r. split; [| done].
    apply run_exhausted, passes_nil.
  - unfold noted_ctxErr at 1. simpl.
    destruct (ctxErr ctx w) as [e |] eqn:Hctx.
    + exists []. simpl. rewrite app_nil_r. split; [| done].
      by eapply (run_cancelled _ _ _ _ _ _ [] proc rest), Hctx;
        [| apply passes_nil].
    + destruct proc as [f |]; simpl.
      * unfold noting at 1. simpl.
        destruct (f ctx msg w) as [err w1] eqn:Hf.
        destruct (errs.Is err ErrNotHandled) eqn:Hnh.
        -- destruct (IH (S i) w1 (log ++ [i])) as (calls & Hrun & Hlog).
           exists (i :: calls). split; [by eapply run_call |].
           rewrite Hlog. by rewrite <- app_assoc.
        -- exists ([] ++ [i + length (@nil (option (@Processor World Ctx)))]).
           simpl fst; simpl snd. split.
           ++ by eapply (run_decided _ _ _ _ _ _ [] f rest), Hnh;
                [| apply passes_nil | |].
           ++ simpl. by rewrite Nat.add_0_r.
      * destruct (IH (S i) w log) as (calls & Hrun & Hlog).
        exists calls. split; [by apply run_skip | done].
Qed.

(** C1 -- [ProcessWRP] goes through the processors in order and skips the
    nil entries; its result is that of the first processor that does not
    answer not-handled, and no later processor is invoked; it is the
    not-handled sentinel when every processor answers not-handled; and it
    is the error of the context, with nothing more invoked, as soon as an
    entry is met with the context done.  The positions the run lists are
    those the processors note when the chain is instrumented. *)
Theorem ProcessWRP_run (p : Processors) ctx msg w :
  exists calls,
    run ctx msg 0 p w calls (chain p ctx msg w).1 (chain p ctx msg w).2 /\
    ProcessWRP (noted_ctxErr ctxErr) (noting_from 0 p) ctx msg (w, [])
    = ((chain p ctx msg w).1, ((chain p ctx msg w).2, calls)).
Proof. apply (ProcessWRP_run_from 0 p ctx msg w []). Qed.

(** Going through entries that all pass leaves the rest of the chain to
    decide. *)
Lemma passes_ProcessWRP ctx msg i (pre post : Processors) w calls w' :
  passes ctx msg i pre w calls w' ->
  chain (pre ++ post) ctx msg w = chain post ctx msg w'.
Proof.
  induction 1 as [| i rest w calls w' Hlive _ IH
                  | i f rest w err w1 calls w' Hlive Hf Hnh _ IH]; simpl.
  - done.
  - by rewrite Hlive.
  - by rewrite Hlive, Hf, Hnh.
Qed.

(** A run decides the result and the world: the chain has no other
    behaviour than the one [run] describes. *)
Lemma run_ProcessWRP (p : Processors) ctx msg i w calls r w' :
  run ctx msg i p w calls r w' -> chain p ctx msg w = (r, w').
Proof.
  intros Hrun. inversion Hrun as
    [calls0 w0 Hp | pre q post calls0 w0 e -> Hp Hctx
     | pre f post calls0 w1 err w0 -> Hp Hctx Hf Hnh]; subst.
  - rewrite <- (app_nil_r p).
    by rewrite (passes_ProcessWRP _ _ _ _ _ _ _ _ Hp).
  - rewrite (passes_ProcessWRP _ _ _ _ _ _ _ _ Hp). simpl. by rewrite Hctx.
  - rewrite (passes_ProcessWRP _ _ _ _ _ _ _ _ Hp). simpl.
    by rewrite Hctx, Hf, Hnh.
Qed.

(** The positions a run invokes: increasing, before the end of the chain,
    and none of them a nil entry. *)
Lemma passes_positions ctx msg i (pre : Processors) w calls w' :
  passes ctx msg i pre w calls w' ->
  forall k, k ∈ calls ->
    i <= k /\ exists f, pre !! (k - i) = Some (Some f).
Proof.
  induction 1 as [| i rest w calls w' Hlive _ IH
                  | i f rest w err w1 calls w' Hlive Hf Hnh _ IH];
    intros k Hk.
  - by apply elem_of_nil in Hk.
  - destruct (IH k Hk) as (Hle & g & Hg). split; [lia |]. exists g.
    replace (k - i) with (S (k - S i)) by lia. done.
  - apply elem_of_cons in Hk as [-> | Hk].
    + split; [lia |]. exists f. by rewrite Nat.sub_diag.
    + destruct (IH k Hk) as (Hle & g & Hg). split; [lia |]. exists g.
      replace (k - i) with (S (k - S i)) by lia. done.
Qed.

(** C10 -- the chain without processors answers not-handled whatever the
    message and the context, a context that is done included: the context
    is looked at only in front of an entry. *)
Theorem ProcessWRP_empty ctx msg w :
  chain [] ctx msg w = (Some ErrNotHandled, w).
Proof. reflexivity. Qed.

(** With one entry, nil or not, a context that is done decides. *)
Lemma ProcessWRP_done_first proc (rest : Processors) ctx msg w e :
  ctxErr ctx w = Some e ->
  chain (proc :: rest) ctx msg w = (Some e, w).
Proof. intros H. simpl. by rewrite H. Qed.

End Chain.

(** The cases of stopping_test.go; the world lists the processors called. *)
Example all_not_handled :
  ProcessWRP fixtures.testCtxErr fixtures.allNotHandled false wrp.zero []
  = (Some ErrNotHandled, [0; 2]).
Proof. reflexivity. Qed.

Example processor_returns_error :
  ProcessWRP fixtures.testCtxErr fixtures.returnsError false wrp.zero []
  = (Some fixtures.someError, [0; 1]).
Proof. reflexivity. Qed.

Example processor_returns_nil :
  ProcessWRP fixtures.testCtxErr fixtures.returnsNil false wrp.zero []
  = (None, [0; 1]).
Proof. reflexivity. Qed.

Example context_canceled :
  ProcessWRP fixtures.testCtxErr fixtures.allNotHandled true wrp.zero []
  = (Some Canceled, []).
Proof. reflexivity. Qed.

(** A processor whose error wraps the sentinel passes as well, and the
    chain then answers the bare sentinel. *)
Example wrapped_not_handled :
  ProcessWRP fixtures.testCtxErr
    [Some (fixtures.mockProcessor 0
             (errs.Join [Some fixtures.someError; Some ErrNotHandled]))]
    false wrp.zero []
  = (Some ErrNotHandled, [0]).
Proof. reflexivity. Qed.

(** The empty chain under a cancelled context. *)
Example empty_chain_cancelled :
  ProcessWRP fixtures.testCtxErr [] true wrp.zero []
  = (Some ErrNotHandled, []).
Proof. reflexivity. Qed.

End stopping_facts.

(** ** The sender and the sender map *)

Module nng_facts.
Import nng notions.
Local Open Scope go_scope.

#[local] Arguments Remove_ : simpl never.
#[local] Arguments visitOnClose : simpl never.
#[local] Arguments visit_locked : simpl never.

(** Unfolding the monad. *)
Ltac go_unfold :=
  unfold bind, ret, log, modify, get, load, store, alloc,
    Lock, Unlock, RLock, RUnlock in *.

Lemma bind_eq {A B} (m : M A) (k : A -> M B) w :
  bind m k w =
  match m w with
  | Returns a w' => k a w'
  | Blocked w' => Blocked w'
  | OutOfFuel => OutOfFuel
  end.
Proof. reflexivity. Qed.

Lemma fire_remove remove name err w :
  fire_with remove (RemoveFromMap name) err w = (remove name ;; ret tt) w.
Proof. reflexivity. Qed.

Lemma fire_observer remove tag err w :
  fire_with remove (Observer tag) err w =
  Returns tt (add_event (Observed tag err) w).
Proof. reflexivity. Qed.

Lemma Remove_S d name :
  Remove_ (S d) name =
  (Lock ;;
   w <- get ;;
   match table w name with
   | Some l =>
       Close (fire_with (Remove_ d)) l ;;
       modify (fun w => set_senders (delete name <$> senders w) w) ;;
       Unlock ;;
       ret None
   | None => Unlock ;; ret None
   end).
Proof. reflexivity. Qed.

Lemma visitOnClose_nil fire err w : visitOnClose fire [] err w = Returns tt w.
Proof. reflexivity. Qed.

Lemma visitOnClose_cons fire f fs err w :
  visitOnClose fire (f :: fs) err w =
  (fire f err ;; visitOnClose fire fs err) w.
Proof. reflexivity. Qed.

(** [Close] by the kind and the state of the sender. *)
Lemma Close_open fire l w s sk :
  heap w !! l = Some (RealSender s) ->
  sock s = Some sk ->
  Close fire l w =
  (visitOnClose fire (onClose s) None ;; ret None)
    (torn l s (add_event (CallClose l) w)).
Proof.
  intros Hl Hs. unfold Close, Sender_Close. go_unfold. simpl.
  rewrite Hl, Hs. reflexivity.
Qed.

Lemma Close_noop fire l w :
  match heap w !! l with
  | Some (RealSender s) => sock s = None
  | _ => True
  end ->
  Close fire l w = Returns None (add_event (CallClose l) w).
Proof.
  intros H. unfold Close, Sender_Close. go_unfold. simpl.
  destruct (heap w !! l) as [[s | m] |]; try done. by rewrite H.
Qed.

Lemma Lock_free w :
  locked w = false -> Lock w = Returns tt (set_locked true w).
Proof. intros H. unfold Lock. by rewrite H. Qed.

Lemma Remove_held d name w :
  locked w = true -> Remove_ (S d) name w = Blocked w.
Proof. intros H. rewrite Remove_S, bind_eq. unfold Lock. by rewrite H. Qed.

Lemma visit_locked_spec d fs err w :
  locked w = true ->
  visitOnClose (fire_with (Remove_ (S d))) fs err w = visit_locked fs err w.
Proof.
  revert w. induction fs as [| [name | tag] rest IH]; intros w Hw.
  - done.
  - rewrite visitOnClose_cons, bind_eq, fire_remove, bind_eq.
    by rewrite Remove_held.
  - rewrite visitOnClose_cons, bind_eq, fire_observer. by rewrite IH.
Qed.

Lemma visit_locked_fuel fs err w : visit_locked fs err w <> OutOfFuel.
Proof.
  revert w. induction fs as [| [name | tag] rest IH]; intros w; try done.
  apply IH.
Qed.

(** [Close] with the lock held is the same whatever the depth left. *)
Lemma Close_held d l w :
  locked w = true ->
  Close (fire_with (Remove_ (S d))) l w = Close (fire_with (Remove_ 1)) l w.
Proof.
  intros Hw.
  destruct (heap w !! l) as [[s | m] |] eqn:Hl;
    [destruct (sock s) as [sk |] eqn:Hs | |].
  - rewrite !(Close_open _ _ _ _ _ Hl Hs), !bind_eq.
    by rewrite !visit_locked_spec.
  - rewrite !Close_noop; by rewrite ?Hl.
  - rewrite !Close_noop; by rewrite ?Hl.
  - rewrite !Close_noop; by rewrite ?Hl.
Qed.

(** The bound on nested calls: two levels are enough, and more change
    nothing. *)
Lemma Remove_depth d name w :
  Remove_ (S (S d)) name w = Remove name w.
Proof.
  unfold Remove. rewrite !Remove_S, !(bind_eq Lock). unfold Lock.
  destruct (locked w) eqn:Hw; [done |].
  rewrite !(bind_eq get). unfold get.
  destruct (table _ name) as [l |]; [| done].
  rewrite !(bind_eq (Close _ _)). by rewrite Close_held.
Qed.

Lemma Remove_fuel name w : Remove name w <> OutOfFuel.
Proof.
  unfold Remove. rewrite Remove_S, (bind_eq Lock). unfold Lock.
  destruct (locked w) eqn:Hw; [done |].
  rewrite (bind_eq get). unfold get.
  destruct (table _ name) as [l |]; [| done].
  rewrite (bind_eq (Close _ _)).
  destruct (heap (set_locked true w) !! l) as [[s | m] |] eqn:Hl;
    [destruct (sock s) as [sk |] eqn:Hs | |].
  - rewrite (Close_open _ _ _ _ _ Hl Hs), bind_eq.
    rewrite visit_locked_spec by done.
    pose proof (visit_locked_fuel (onClose s) None
      (torn l s (add_event (CallClose l) (set_locked true w)))) as Hf.
    by destruct (visit_locked _ _ _).
  - rewrite Close_noop; by rewrite ?Hl.
  - rewrite Close_noop; by rewrite ?Hl.
  - rewrite Close_noop; by rewrite ?Hl.
Qed.

(** *** Frames *)

Lemma table_set_heap h w name : table (set_heap h w) name = table w name.
Proof. reflexivity. Qed.

Lemma table_delete w w' n m :
  senders w' = delete n <$> senders w ->
  table w' m = if decide (n = m) then None else table w m.
Proof.
  intros H. unfold table. rewrite H.
  destruct (senders w) as [t |]; simpl; [| by case_decide].
  apply lookup_delete.
Qed.

Lemma table_absent_delete w n :
  table w n = None -> delete n <$> senders w = senders w.
Proof.
  unfold table. destruct (senders w) as [t |]; simpl; [| done].
  intros H. by rewrite delete_id.
Qed.

Lemma sends_app tr1 tr2 : sends (tr1 ++ tr2) = sends tr1 ++ sends tr2.
Proof. apply omap_app. Qed.

Lemma close_calls_app tr1 tr2 :
  close_calls (tr1 ++ tr2) = close_calls tr1 ++ close_calls tr2.
Proof. apply omap_app. Qed.

Lemma dial_calls_app tr1 tr2 :
  dial_calls (tr1 ++ tr2) = dial_calls tr1 ++ dial_calls tr2.
Proof. apply omap_app. Qed.

Lemma quiet_noop w l :
  quiet w l ->
  match heap w !! l with
  | Some (RealSender s) => sock s = None
  | _ => True
  end.
Proof. unfold quiet. by destruct (heap w !! l) as [[s | m] |]. Qed.

(** [Remove] from outside, on a name that is free or held by a sender
    whose [Close] is quiet: the sender is closed and the name is free. *)
Lemma Remove_quiet name w :
  locked w = false ->
  (forall l, table w name = Some l -> quiet w l) ->
  exists w',
    Remove name w = Returns None w' /\
    locked w' = false /\
    heap w' = heap w /\
    senders w' = delete name <$> senders w /\
    sends (trace w') = sends (trace w) /\
    dial_calls (trace w') = dial_calls (trace w) /\
    close_calls (trace w') =
      close_calls (trace w) ++ option_list (table w name).
Proof.
  intros Hfree Hq. unfold Remove.
  rewrite Remove_S, bind_eq, Lock_free by done.
  rewrite bind_eq. unfold get.
  change (table (set_locked true w) name) with (table w name).
  destruct (table w name) as [l |] eqn:Ht.
  - rewrite bind_eq, Close_noop by (apply quiet_noop, Hq; done).
    eexists. split; [reflexivity |]. simpl.
    rewrite sends_app, dial_calls_app, close_calls_app. simpl.
    by rewrite !app_nil_r.
  - eexists. split; [reflexivity |]. simpl.
    rewrite (table_absent_delete _ _ Ht), app_nil_r. done.
Qed.

(** The listeners of a sender, run from outside the sender map, when every
    name they remove is free or held by a sender whose [Close] is quiet. *)
Lemma visit_quiet fs err w :
  locked w = false ->
  (forall n l, RemoveFromMap n ∈ fs -> table w n = Some l -> quiet w l) ->
  exists w',
    visitOnClose fire fs err w = Returns tt w' /\
    locked w' = false /\
    heap w' = heap w /\
    (forall m, table w' m =
       if decide (RemoveFromMap m ∈ fs) then None else table w m) /\
    sends (trace w') = sends (trace w) /\
    dial_calls (trace w') = dial_calls (trace w) /\
    exists cs,
      close_calls (trace w') = close_calls (trace w) ++ cs /\
      forall l, l ∈ cs -> exists n, RemoveFromMap n ∈ fs /\ table w n = Some l.
Proof.
  revert w. induction fs as [| f rest IH]; intros w Hfree Hq.
  - exists w. rewrite visitOnClose_nil.
    split; [done |]. split; [done |]. split; [done |]. split.
    { intros m. case_decide as H; [by apply elem_of_nil in H | done]. }
    split; [done |]. split; [done |].
    exists []. rewrite app_nil_r. split; [done |].
    intros l H. by apply elem_of_nil in H.
  - rewrite visitOnClose_cons, bind_eq. destruct f as [n | tag].
    + unfold fire. rewrite fire_remove, bind_eq.
      assert (Hq0 : forall l, table w n = Some l -> quiet w l).
      { intros l Hl. eapply Hq; [left | done]. }
      destruct (Remove_quiet n w Hfree Hq0) as
        (w1 & -> & Hfree1 & Hheap1 & Hsend1 & Hs1 & Hd1 & Hc1).
      pose proof (table_delete w w1 n) as Htab1.
      assert (Hq1 : forall n' l,
        RemoveFromMap n' ∈ rest -> table w1 n' = Some l -> quiet w1 l).
      { intros n' l Hin Hl. rewrite (Htab1 n' Hsend1) in Hl.
        case_decide; [done |]. unfold quiet. rewrite Hheap1.
        eapply Hq; [by right | done]. }
      destruct (IH w1 Hfree1 Hq1) as
        (w' & Hv & Hfree' & Hheap' & Htab' & Hs' & Hd' & cs & Hc' & Hcs).
      exists w'. unfold ret. fold fire. rewrite Hv.
      split; [done |]. split; [done |].
      split; [by rewrite Hheap', Hheap1 |].
      split.
      { intros m. rewrite Htab', (Htab1 m Hsend1).
        destruct (decide (n = m)) as [-> | Hne].
        - rewrite (decide_True (P := _ ∈ _ :: _)) by left.
          by destruct (decide _).
        - destruct (decide (_ ∈ rest)) as [Hin | Hnin].
          + by rewrite decide_True by (by right).
          + rewrite decide_False; [done |].
            intros [[=] | ?]%elem_of_cons; done. }
      split; [by rewrite Hs', Hs1 |]. split; [by rewrite Hd', Hd1 |].
      exists (option_list (table w n) ++ cs).
      split; [by rewrite Hc', Hc1, app_assoc |].
      intros l [Hl | Hl]%elem_of_app.
      * exists n. split; [left |].
        destruct (table w n); simpl in Hl;
          [by apply list_elem_of_singleton in Hl; subst
          | by apply elem_of_nil in Hl].
      * destruct (Hcs l Hl) as (n' & Hin & Ht). exists n'.
        split; [by right |]. rewrite (Htab1 n' Hsend1) in Ht.
        by case_decide.
    + unfold fire. rewrite fire_observer. fold fire.
      assert (Hq1 : forall n l, RemoveFromMap n ∈ rest ->
        table (add_event (Observed tag err) w) n = Some l ->
        quiet (add_event (Observed tag err) w) l).
      { intros n l Hin Hl. eapply Hq; [by right | done]. }
      destruct (IH (add_event (Observed tag err) w) Hfree Hq1) as
        (w' & Hv & Hfree' & Hheap' & Htab' & Hs' & Hd' & cs & Hc' & Hcs).
      exists w'. split; [done |]. split; [done |]. split; [done |].
      split.
      { intros m. rewrite Htab'.
        change (table (add_event _ w) m) with (table w m).
        destruct (decide (_ ∈ rest)) as [Hin | Hnin].
        - by rewrite decide_True by (by right).
        - rewrite decide_False; [done |].
          intros [[=] | ?]%elem_of_cons; done. }
      split; [by rewrite Hs'; simpl; rewrite sends_app, app_nil_r |].
      split; [by rewrite Hd'; simpl; rewrite dial_calls_app, app_nil_r |].
      exists cs. split; [by rewrite Hc'; simpl; rewrite close_calls_app, app_nil_r |].
      intros l Hl. destruct (Hcs l Hl) as (n & Hin & Ht).
      exists n. split; [by right | done].
Qed.

Section WithCollaborators.
Variable E : Collaborators.

(** *** [ProcessWRP] on a sender, case by case *)

Lemma ProcessWRP_mock fire l ctx msg w m :
  heap w !! l = Some (MockSender m) ->
  ProcessWRP E fire l ctx msg w =
  Returns (processErr m)
    (set_heap (<[l := MockSender (bump m)]> (heap w))
       (add_event (CallProcessWRP l msg) w)).
Proof.
  intros Hl. unfold ProcessWRP. go_unfold. simpl. by rewrite Hl.
Qed.

Lemma ProcessWRP_unallocated fire l ctx msg w :
  heap w !! l = None ->
  ProcessWRP E fire l ctx msg w =
  Returns None (add_event (CallProcessWRP l msg) w).
Proof.
  intros Hl. unfold ProcessWRP. go_unfold. simpl. by rewrite Hl.
Qed.

Lemma ProcessWRP_unencodable fire l ctx msg w s e :
  heap w !! l = Some (RealSender s) ->
  encode E msg = inl e ->
  ProcessWRP E fire l ctx msg w =
  Returns (Some e) (add_event (CallProcessWRP l msg) w).
Proof.
  intros Hl He. unfold ProcessWRP, Sender_ProcessWRP. go_unfold. simpl.
  by rewrite Hl, He.
Qed.

Lemma ProcessWRP_closed fire l ctx msg w s buf :
  heap w !! l = Some (RealSender s) ->
  encode E msg = inr buf ->
  sock s = None ->
  ProcessWRP E fire l ctx msg w =
  Returns (Some ErrConnClosed) (add_event (CallProcessWRP l msg) w).
Proof.
  intros Hl He Hs. unfold ProcessWRP, Sender_ProcessWRP. go_unfold. simpl.
  by rewrite Hl, He, Hs.
Qed.

Lemma ProcessWRP_sent fire l ctx msg w s buf sk sk' :
  heap w !! l = Some (RealSender s) ->
  encode E msg = inr buf ->
  sock s = Some sk ->
  Socket_Send sk = (None, sk') ->
  ProcessWRP E fire l ctx msg w =
  Returns (Err ctx)
    (set_heap (<[l := RealSender (set_sock s (Some sk'))]> (heap w))
       (add_event (SockSend l buf) (add_event (CallProcessWRP l msg) w))).
Proof.
  intros Hl He Hs Hk. unfold ProcessWRP, Sender_ProcessWRP. go_unfold. simpl.
  rewrite Hl, He, Hs, Hk. simpl. f_equal.
  unfold select. by destruct (Err ctx), (doneFirst ctx).
Qed.

Lemma ProcessWRP_send_failed fire l ctx msg w s buf sk e sk' :
  heap w !! l = Some (RealSender s) ->
  encode E msg = inr buf ->
  sock s = Some sk ->
  Socket_Send sk = (Some e, sk') ->
  ProcessWRP E fire l ctx msg w =
  (visitOnClose fire (onClose s) (errs.Join [Some e; Some ErrFailedToSend]) ;;
   ret (select ctx (Some e)))
    (torn l s
       (add_event (SockSend l buf) (add_event (CallProcessWRP l msg) w))).
Proof.
  intros Hl He Hs Hk. unfold ProcessWRP, Sender_ProcessWRP. go_unfold. simpl.
  rewrite Hl, He, Hs, Hk. reflexivity.
Qed.

(** *** [Dial], case by case *)

Lemma Dial_mock l w m :
  heap w !! l = Some (MockSender m) ->
  Dial E l w = Returns (dialErr m) (add_event (CallDial l) w).
Proof. intros Hl. unfold Dial. go_unfold. simpl. by rewrite Hl. Qed.

Lemma Dial_connected l w s sk :
  heap w !! l = Some (RealSender s) ->
  sock s = Some sk ->
  Dial E l w = Returns None (add_event (CallDial l) w).
Proof.
  intros Hl Hs. unfold Dial, Sender_Dial. go_unfold. simpl. by rewrite Hl, Hs.
Qed.

Lemma Dial_refused l w s e :
  heap w !! l = Some (RealSender s) ->
  sock s = None ->
  dialNewSocket E (url s) (sendDeadline s) = inl e ->
  Dial E l w = Returns (Some e) (add_event (CallDial l) w).
Proof.
  intros Hl Hs Hd. unfold Dial, Sender_Dial. go_unfold. simpl.
  by rewrite Hl, Hs, Hd.
Qed.

Lemma Dial_accepted l w s sk :
  heap w !! l = Some (RealSender s) ->
  sock s = None ->
  dialNewSocket E (url s) (sendDeadline s) = inr sk ->
  Dial E l w =
  Returns None
    (set_heap (<[l := RealSender (set_sock s (Some sk))]> (heap w))
       (add_event (CallDial l) w)).
Proof.
  intros Hl Hs Hd. unfold Dial, Sender_Dial. go_unfold. simpl.
  by rewrite Hl, Hs, Hd.
Qed.

(** A [Dial] that fails leaves the heap and the table as they were, and the
    sender, if it is one, without socket. *)
Lemma Dial_failed l w e w' :
  Dial E l w = Returns (Some e) w' ->
  w' = add_event (CallDial l) w /\
  match heap w !! l with
  | Some (RealSender s) => sock s = None
  | _ => True
  end.
Proof.
  unfold Dial, Sender_Dial. go_unfold. simpl.
  destruct (heap w !! l) as [[s | m] |]; [| by intros [= _ <-] | done].
  destruct (sock s); [done |].
  destruct (dialNewSocket E _ _); [by intros [= _ <-] | done].
Qed.

(** *** Building *)

Lemma build_failed factory opts w e w1 :
  build factory opts w = Returns (inl e) w1 -> w1 = w.
Proof.
  unfold build. go_unfold.
  destruct factory as [| m | e']; [destruct (New opts) | |]; simpl;
    by intros [= _ <-] || done.
Qed.

Lemma build_built factory opts w l w1 :
  build factory opts w = Returns (inr l) w1 ->
  l = length (heap w) /\
  exists o, w1 = set_heap (heap w ++ [o]) w /\
    match o with
    | RealSender s => factory = factoryNew /\ New opts = inr s
    | MockSender m => factory = factoryMock m
    end.
Proof.
  unfold build. go_unfold.
  destruct factory as [| m | e']; [destruct (New opts) as [e' | s] eqn:HN | |];
    simpl; try done; intros [= <- <-]; (split; [done |]).
  - by exists (RealSender s).
  - by exists (MockSender m).
Qed.

Lemma build_total factory opts w :
  exists r w1, build factory opts w = Returns r w1.
Proof.
  unfold build. go_unfold.
  destruct factory as [| m | e']; [destruct (New opts) | |]; simpl; eauto.
Qed.

(** [sender.New] leaves the socket nil. *)
Lemma foldl_apply_sock opts s :
  sock (foldl (fun s opt => apply opt s) s opts) = sock s.
Proof.
  revert s. induction opts as [| opt opts IH]; intros s; simpl; [done |].
  rewrite IH. destruct opt as [u | t | f |]; simpl; try done.
  by destruct (0 <? t)%Z.
Qed.

Lemma New_unconnected opts s : New opts = inr s -> sock s = None.
Proof.
  unfold New. destruct (String.eqb _ _); [done |].
  intros [= <-]. by rewrite foldl_apply_sock.
Qed.

Lemma foldl_apply_onClose opts s :
  onClose (foldl (fun s opt => apply opt s) s opts) =
  onClose s ++ option_listeners opts.
Proof.
  revert s. induction opts as [| opt opts IH]; intros s; simpl.
  - by rewrite app_nil_r.
  - rewrite IH. destruct opt as [u | t | f |]; simpl; try done.
    + by destruct (0 <? t)%Z.
    + by rewrite <- app_assoc.
Qed.

Lemma New_onClose opts s :
  New opts = inr s -> onClose s = option_listeners opts.
Proof.
  unfold New. destruct (String.eqb _ _); [done |].
  intros [= <-]. by rewrite foldl_apply_onClose.
Qed.

(** *** Unicast *)

(** C6 -- for a message that is not ServiceAlive, [ProcessWRP] of the
    sender map, from outside the lock, answers the error of
    [wrp.ParseLocator] as it is when the destination does not parse; the
    not-handled sentinel when the service of the locator has no entry; and
    otherwise what [ProcessWRP] of the sender of the entry answers, with
    the effects of that call and no other. *)
Theorem senderMap_ProcessWRP_unicast ctx msg w :
  wrp.Type_ msg <> wrp.ServiceAliveMessageType ->
  locked w = false ->
  senderMap_ProcessWRP E ctx msg w =
  match ParseLocator E (wrp.To msg) with
  | inl err => Returns (Some err) w
  | inr dest =>
      match table w (wrp.Service dest) with
      | Some target => ProcessWRP E fire target ctx msg w
      | None => Returns (Some ErrNotHandled) w
      end
  end.
Proof.
  intros Hty Hfree. unfold senderMap_ProcessWRP.
  apply Z.eqb_neq in Hty. rewrite Hty.
  destruct (ParseLocator E (wrp.To msg)) as [err | dest]; [done |].
  rewrite bind_eq. unfold RLock. rewrite Hfree.
  rewrite bind_eq. unfold get. rewrite bind_eq. unfold RUnlock, ret.
  by destruct (table w (wrp.Service dest)).
Qed.

(** *** [upsert] that fails *)

(** C7 -- when the factory fails, or the sender it built fails to dial,
    [upsert] answers that error; [Close] has been called on the sender if
    one was built, and on nothing else; no message was sent; the table and
    its lock are as they were, and so is every sender that was there. *)
Theorem upsert_failure name opts factory w e built :
  attempt_fails E name opts factory w e built ->
  exists w',
    upsert E name opts factory w = Returns (Some e) w' /\
    senders w' = senders w /\
    locked w' = locked w /\
    sends (trace w') = sends (trace w) /\
    close_calls (trace w') = close_calls (trace w) ++ option_list built /\
    (forall l, l < length (heap w) -> heap w' !! l = heap w !! l).
Proof.
  intros [w1 Hb | l w1 w2 Hb Hd]; unfold upsert; rewrite bind_eq, Hb.
  - rewrite (build_failed _ _ _ _ _ Hb). exists w.
    simpl. by rewrite app_nil_r.
  - rewrite bind_eq, Hd.
    destruct (Dial_failed _ _ _ _ Hd) as [-> Hs].
    destruct (build_built _ _ _ _ _ Hb) as (-> & o & -> & Ho).
    rewrite bind_eq, Close_noop by done.
    eexists. split; [reflexivity |]. simpl.
    rewrite !sends_app, !close_calls_app. simpl. rewrite !app_nil_r.
    repeat split; try done.
    intros l Hl. by rewrite lookup_app_l.
Qed.

(** [upsert] answers an error in no other case. *)
Lemma upsert_error name opts factory w e w' :
  upsert E name opts factory w = Returns (Some e) w' ->
  exists built, attempt_fails E name opts factory w e built.
Proof.
  unfold upsert. rewrite bind_eq.
  destruct (build_total factory
    (opts ++ [WithCloseListener (RemoveFromMap name)]) w) as (r & w1 & Hb).
  rewrite Hb. destruct r as [e' | l].
  - intros [= <- <-]. exists None. by eapply build_fails.
  - rewrite bind_eq. destruct (Dial E l w1) as [[e' |] w2 | w2 |] eqn:Hd;
      try done.
    + rewrite bind_eq. destruct (Close fire l w2); try done.
      intros [= <- <-]. exists (Some l). by eapply dial_fails.
    + rewrite bind_eq. destruct (Lock w2); try done.
      rewrite bind_eq. unfold modify at 1. rewrite bind_eq. unfold get at 1.
      rewrite bind_eq.
      intros H. exfalso. revert H.
      match goal with |- context [table ?w0 name] => generalize w0 end.
      intros w3.
      assert (Hrest : forall w4, (modify (fun w =>
                set_senders (<[name:=l]> <$> senders w) w) ;;
              Unlock ;; ProcessWRP E fire l Background authorization ;;
              ret None) w4 <> Returns (Some e) w').
      { intros w4. rewrite bind_eq. unfold modify at 1.
        rewrite bind_eq. unfold Unlock, modify.
        rewrite bind_eq. by destruct (ProcessWRP _ _ _ _ _ _). }
      destruct (table w3 name) as [existing |].
      * rewrite bind_eq. destruct (Close fire existing w3); try done.
        apply Hrest.
      * apply Hrest.
Qed.

(** *** The heap under an update of one cell *)

Lemma listeners_insert (h : list limitedSender) (l : loc) o (l2 : loc) :
  listeners (Some o) = listeners (h !! l) ->
  listeners (<[l := o]> h !! l2) = listeners (h !! l2).
Proof.
  intros Ho. destruct (decide (l = l2)) as [<- | Hne].
  - destruct (decide (l < length h)) as [Hlt | Hge].
    + by rewrite list_lookup_insert_eq.
    + by rewrite list_insert_ge by lia.
  - by rewrite list_lookup_insert_ne.
Qed.

Lemma quiet_torn l s w :
  heap w !! l = Some (RealSender s) -> quiet (torn l s w) l.
Proof.
  intros Hl. unfold quiet, torn. simpl.
  rewrite list_lookup_insert_eq; [done |]. by eapply lookup_lt_Some.
Qed.

(** *** The broadcast: one send, then all of them *)

Lemma ProcessWRP_step l ctx msg w :
  locked w = false ->
  prunes_itself w l ->
  exists r w',
    ProcessWRP E fire l ctx msg w = Returns r w' /\
    locked w' = false /\
    sends (trace w') = sends (trace w) ++ [(l, msg)] /\
    (forall l2, listeners (heap w' !! l2) = listeners (heap w !! l2)) /\
    (forall m l', table w' m = Some l' -> table w m = Some l').
Proof.
  intros Hfree Hself.
  destruct (heap w !! l) as [[s | m] |] eqn:Hl.
  - destruct (encode E msg) as [e | buf] eqn:He.
    { rewrite (ProcessWRP_unencodable _ _ _ _ _ _ _ Hl He).
      do 2 eexists. split; [done |]. simpl. by rewrite sends_app. }
    destruct (sock s) as [sk |] eqn:Hs.
    2:{ rewrite (ProcessWRP_closed _ _ _ _ _ _ _ Hl He Hs).
        do 2 eexists. split; [done |]. simpl. by rewrite sends_app. }
    destruct (Socket_Send sk) as [[e |] sk'] eqn:Hk.
    + rewrite (ProcessWRP_send_failed _ _ _ _ _ _ _ _ _ _ Hl He Hs Hk).
      rewrite bind_eq.
      set (w0 := add_event (SockSend l buf) (add_event (CallProcessWRP l msg) w)).
      assert (Hq : forall n l', RemoveFromMap n ∈ onClose s ->
        table (torn l s w0) n = Some l' -> quiet (torn l s w0) l').
      { intros n l' Hin Ht. rewrite (Hself s n l' Hl Hin Ht).
        by apply quiet_torn. }
      destruct (visit_quiet (onClose s)
        (errs.Join [Some e; Some ErrFailedToSend]) (torn l s w0) Hfree Hq)
        as (w' & -> & Hfree' & Hheap' & Htab' & Hs' & _).
      do 2 eexists. split; [done |]. split; [done |].
      split; [| split].
      * rewrite Hs'. simpl. rewrite !sends_app. simpl.
        by rewrite !app_nil_r.
      * intros l2. rewrite Hheap'. unfold torn, w0.
        cbn [heap set_heap add_event].
        apply listeners_insert. by rewrite Hl.
      * intros m l'. rewrite Htab'. by case_decide.
    + rewrite (ProcessWRP_sent _ _ _ _ _ _ _ _ _ Hl He Hs Hk).
      do 2 eexists. split; [done |]. simpl. split; [done |].
      split; [| split; [| done]].
      * rewrite !sends_app. simpl. by rewrite !app_nil_r.
      * intros l2. apply listeners_insert. by rewrite Hl.
  - rewrite (ProcessWRP_mock _ _ _ _ _ _ Hl).
    do 2 eexists. split; [done |]. simpl. split; [done |].
    split; [by rewrite sends_app | split; [| done]].
    intros l2. apply listeners_insert. by rewrite Hl.
  - rewrite (ProcessWRP_unallocated _ _ _ _ _ Hl).
    do 2 eexists. split; [done |]. simpl. by rewrite sends_app.
Qed.

Lemma send_all_spec ls ctx msg w :
  locked w = false ->
  (forall l, l ∈ ls -> prunes_itself w l) ->
  exists w',
    send_all E ls ctx msg w = Returns tt w' /\
    locked w' = false /\
    sends (trace w') = sends (trace w) ++ ((fun l => (l, msg)) <$> ls).
Proof.
  revert w. induction ls as [| l ls IH]; intros w Hfree Hself.
  - exists w. simpl. by rewrite app_nil_r.
  - assert (Hl : prunes_itself w l) by (apply Hself; left).
    destruct (ProcessWRP_step l ctx msg w Hfree Hl)
      as (r & w1 & Hp & Hfree1 & Hs1 & Hlis & Htab).
    assert (Hself1 : forall l2, l2 ∈ ls -> prunes_itself w1 l2).
    { intros l2 Hin s2 n l' Hl2 Hn Ht.
      assert (Hold : listeners (heap w !! l2) = Some (onClose s2)).
      { by rewrite <- Hlis, Hl2. }
      destruct (heap w !! l2) as [[s2o | m] |] eqn:Hl2o; try done.
      injection Hold as Hold.
      eapply (Hself l2 (list_elem_of_further _ _ _ Hin) s2o n l');
        [done | by rewrite Hold | by apply Htab]. }
    destruct (IH w1 Hfree1 Hself1) as (w' & Hsa & Hfree' & Hs').
    exists w'. cbn [send_all]. rewrite bind_eq, Hp, Hsa.
    split; [done |]. split; [done |].
    rewrite Hs', Hs1, fmap_cons. by rewrite <- app_assoc.
Qed.

Lemma snapshot_table w l :
  l ∈ snapshot w -> exists name, table w name = Some l.
Proof.
  unfold snapshot, table. destruct (senders w) as [t |]; simpl.
  - intros ([name l0] & -> & Hin)%list_elem_of_fmap.
    exists name. by apply elem_of_map_to_list.
  - by intros ?%elem_of_nil.
Qed.

(** Every entry of the table is in the snapshot. *)
Lemma snapshot_complete w name l :
  table w name = Some l -> l ∈ snapshot w.
Proof.
  unfold snapshot, table. destruct (senders w) as [t |]; simpl; [| done].
  intros Hl. apply list_elem_of_fmap. exists (name, l).
  split; [done |]. by apply elem_of_map_to_list.
Qed.

(** The broadcast on a table whose senders remove only themselves. *)
Lemma broadcast_self_pruning ctx msg w :
  wrp.Type_ msg = wrp.ServiceAliveMessageType ->
  locked w = false ->
  self_pruning w ->
  exists w',
    senderMap_ProcessWRP E ctx msg w = Returns None w' /\
    sends (trace w') =
      sends (trace w) ++ ((fun l => (l, msg)) <$> snapshot w).
Proof.
  intros Hty Hfree Hwf. unfold senderMap_ProcessWRP.
  rewrite Hty, Z.eqb_refl, bind_eq. unfold RLock. rewrite Hfree.
  rewrite bind_eq. unfold get. rewrite bind_eq. unfold RUnlock, ret.
  rewrite bind_eq.
  destruct (send_all_spec (snapshot w) ctx msg w Hfree)
    as (w' & -> & _ & Hs).
  { intros l (name & Hname)%snapshot_table s n l' Hl Hn Ht.
    rewrite (Hwf name l s n Hname Hl Hn) in Ht. congruence. }
  by exists w'.
Qed.

(** *** Replacing an entry *)

Lemma set_sock_id s sk : sock s = Some sk -> set_sock s (Some sk) = s.
Proof. destruct s; simpl; by intros ->. Qed.

Lemma Dial_ok l w w2 :
  Dial E l w = Returns None w2 ->
  locked w2 = locked w /\
  senders w2 = senders w /\
  trace w2 = trace w ++ [CallDial l] /\
  (forall l2, l2 <> l -> heap w2 !! l2 = heap w !! l2) /\
  match heap w !! l with
  | Some (RealSender s) =>
      exists sk, heap w2 !! l = Some (RealSender (set_sock s (Some sk)))
  | o => heap w2 !! l = o
  end.
Proof.
  destruct (heap w !! l) as [[s | m] |] eqn:Hl.
  - destruct (sock s) as [sk |] eqn:Hs.
    { rewrite (Dial_connected _ _ _ _ Hl Hs). intros [= <-]. simpl.
      do 4 (split; [done |]). exists sk. by rewrite set_sock_id. }
    destruct (dialNewSocket E (url s) (sendDeadline s)) as [e | sk] eqn:Hd.
    { by rewrite (Dial_refused _ _ _ _ Hl Hs Hd). }
    rewrite (Dial_accepted _ _ _ _ Hl Hs Hd). intros [= <-]. simpl.
    do 3 (split; [done |]). split.
    + intros l2 Hne. by rewrite list_lookup_insert_ne.
    + exists sk. rewrite list_lookup_insert_eq; [done |].
      by eapply lookup_lt_Some.
  - rewrite (Dial_mock _ _ _ Hl). intros [= _ <-]. by simpl.
  - unfold Dial. go_unfold. simpl. rewrite Hl. intros [= <-]. by simpl.
Qed.

Lemma table_ensure_map w name : table (ensure_map w) name = table w name.
Proof.
  unfold ensure_map, table. destruct (senders w) eqn:H; simpl; [by rewrite H |].
  apply lookup_empty.
Qed.

Lemma table_install w w' name l m :
  senders w' = <[name := l]> <$> senders (ensure_map w) ->
  table w' m = if decide (name = m) then Some l else table w m.
Proof.
  intros H. unfold table. rewrite H. unfold ensure_map.
  destruct (senders w) as [t |] eqn:Hs; cbn [senders set_senders];
    rewrite ?Hs; cbn [fmap option_fmap option_map mbind option_bind];
    rewrite lookup_insert; case_decide; try done.
Qed.

(** [upsert] once the sender is built and dialled. *)
Lemma upsert_dialled name opts factory w l w1 w2 :
  build factory (opts ++ [WithCloseListener (RemoveFromMap name)]) w
    = Returns (inr l) w1 ->
  Dial E l w1 = Returns None w2 ->
  locked w2 = false ->
  upsert E name opts factory w =
  (match table w2 name with
   | Some existing => Close fire existing ;; ret tt
   | None => ret tt
   end ;;
   modify (fun w => set_senders (<[name := l]> <$> senders w) w) ;;
   Unlock ;;
   ProcessWRP E fire l Background authorization ;;
   ret None) (ensure_map (set_locked true w2)).
Proof.
  intros Hb Hd Hfree. unfold upsert.
  rewrite bind_eq, Hb, bind_eq, Hd, bind_eq, (Lock_free _ Hfree).
  rewrite bind_eq. unfold modify at 1. rewrite bind_eq. unfold get at 1.
  fold (ensure_map (set_locked true w2)).
  by rewrite table_ensure_map.
Qed.

Lemma filter_none (x : nat) (cs : list nat) :
  (forall l, l ∈ cs -> l <> x) -> filter (fun y => y = x) cs = [].
Proof.
  induction cs as [| c cs IH]; intros H; [done |].
  rewrite filter_cons_False; [apply IH | apply H; left].
  intros l Hl. apply H. by right.
Qed.

Lemma option_listeners_app opts1 opts2 :
  option_listeners (opts1 ++ opts2) =
  option_listeners opts1 ++ option_listeners opts2.
Proof. apply omap_app. Qed.

Lemma plain_listeners opts name n :
  plain opts ->
  RemoveFromMap n ∈
    option_listeners (opts ++ [WithCloseListener (RemoveFromMap name)]) ->
  n = name.
Proof.
  intros Hplain. rewrite option_listeners_app.
  intros [Hin | Hin]%elem_of_app.
  - apply list_elem_of_omap in Hin as (opt & Hopt & Hf).
    destruct opt as [| | f |]; try done. injection Hf as ->.
    by apply Hplain in Hopt.
  - simpl in Hin. apply list_elem_of_singleton in Hin. congruence.
Qed.

Lemma heap_ensure_map w : heap (ensure_map w) = heap w.
Proof. unfold ensure_map. by destruct (senders w). Qed.

Lemma trace_ensure_map w : trace (ensure_map w) = trace w.
Proof. unfold ensure_map. by destruct (senders w). Qed.

Lemma closes_snoc_other l tr cs :
  (forall l', l' ∈ cs -> l' <> l) ->
  length (filter (fun y => y = l) (close_calls tr ++ [l] ++ cs)) =
  S (closes l tr).
Proof.
  intros Hcs. unfold closes.
  rewrite !filter_app, (filter_none _ _ Hcs), app_nil_r.
  rewrite filter_cons_True by done. rewrite length_app. simpl. lia.
Qed.

(** C8 (as the code has it) -- [upsert] of a name that has an entry, from
    outside the lock, with the new sender built and dialled, and an old
    entry whose [Close] does not call back into the map: [upsert] answers
    nil; [Close] was called once on the old entry; the authorization
    message, status 200, was sent to the new sender and to no other; the
    other names are as they were.  The name holds the new sender, unless
    the send of the authorization message failed and tore the new sender
    down: its close listener has then freed the name, and [upsert] answers
    nil all the same. *)
Theorem upsert_replace name opts factory w existing new w1 w2 :
  locked w = false ->
  table w name = Some existing ->
  quiet w existing ->
  plain opts ->
  build factory (opts ++ [WithCloseListener (RemoveFromMap name)]) w
    = Returns (inr new) w1 ->
  Dial E new w1 = Returns None w2 ->
  exists w',
    upsert E name opts factory w = Returns None w' /\
    locked w' = false /\
    closes existing (trace w') = S (closes existing (trace w)) /\
    sends (trace w') = sends (trace w) ++ [(new, authorization)] /\
    dial_calls (trace w') = dial_calls (trace w) ++ [new] /\
    (forall m, m <> name -> table w' m = table w m) /\
    ((table w' name = Some new /\ ~ closed w' new) \/
     (table w' name = None /\ closed w' new)).
Proof.
  intros Hfree Hex Hquiet Hplain Hb Hd.
  destruct (build_built _ _ _ _ _ Hb) as (Hnew & o & -> & Ho).
  destruct (Dial_ok _ _ _ Hd) as (Hl2 & Hs2 & Ht2 & Hh2 & Hn2).
  simpl in Hl2, Hs2, Ht2.
  (* the old entry is allocated, hence not the new sender *)
  assert (Hlt : existing < length (heap w)).
  { unfold quiet in Hquiet.
    destruct (heap w !! existing) eqn:Hx; [| done]. by eapply lookup_lt_Some. }
  assert (Hne : existing <> new) by lia.
  assert (Hx2 : heap w2 !! existing = heap w !! existing).
  { rewrite Hh2 by done. simpl. by rewrite lookup_app_l. }
  assert (Ho1 : heap (set_heap (heap w ++ [o]) w) !! new = Some o).
  { simpl. rewrite Hnew. by rewrite list_lookup_middle. }
  rewrite Ho1 in Hn2.
  rewrite (upsert_dialled _ _ _ _ _ _ _ Hb Hd) by congruence.
  set (w3 := ensure_map (set_locked true w2)).
  assert (Htab2 : forall m, table w2 m = table w m).
  { intros m. unfold table. by rewrite Hs2. }
  rewrite Htab2, Hex, bind_eq, bind_eq.
  rewrite Close_noop.
  2:{ unfold w3. rewrite heap_ensure_map. simpl. rewrite Hx2.
      by apply quiet_noop. }
  unfold ret at 1. rewrite bind_eq. unfold modify at 1.
  rewrite bind_eq. unfold Unlock, modify.
  set (w5 := set_locked false _).
  assert (Hfree5 : locked w5 = false) by done.
  assert (Hheap5 : heap w5 = heap w2).
  { unfold w5, w3. simpl. by rewrite heap_ensure_map. }
  assert (Htab5 : forall m,
    table w5 m = if decide (name = m) then Some new else table w m).
  { intros m. rewrite <- Htab2.
    by apply (table_install (set_locked true w2) w5). }
  assert (Htr5 : trace w5 = trace w ++ [CallDial new; CallClose existing]).
  { unfold w5, w3. simpl. rewrite trace_ensure_map. simpl.
    by rewrite Ht2, <- app_assoc. }
  assert (Hlen : new < length (heap w5)).
  { rewrite Hheap5. destruct o; [destruct Hn2 as [sk Hn2] |];
      by eapply lookup_lt_Some. }
  rewrite bind_eq.
  (* what the trace shows once the authorization has been sent *)
  assert (Hfin : forall w' cs,
    locked w' = false ->
    sends (trace w') = sends (trace w5) ++ [(new, authorization)] ->
    dial_calls (trace w') = dial_calls (trace w5) ->
    close_calls (trace w') = close_calls (trace w5) ++ cs ->
    (forall l, l ∈ cs -> l = new) ->
    locked w' = false /\
    closes existing (trace w') = S (closes existing (trace w)) /\
    sends (trace w') = sends (trace w) ++ [(new, authorization)] /\
    dial_calls (trace w') = dial_calls (trace w) ++ [new]).
  { intros w' cs Hf Hs Hdc Hcc Hcs. split; [done |].
    rewrite Htr5 in Hs, Hdc, Hcc.
    rewrite sends_app in Hs. rewrite dial_calls_app in Hdc.
    rewrite close_calls_app in Hcc. simpl in Hs, Hdc, Hcc.
    rewrite app_nil_r in Hs. split; [| by split].
    unfold closes at 1. rewrite Hcc, <- app_assoc.
    apply closes_snoc_other.
    intros l' Hl' ->. apply Hne. by apply Hcs. }
  destruct o as [s0 | m].
  - destruct Ho as [_ HN]. destruct Hn2 as [sk Hn2].
    set (s := set_sock s0 (Some sk)) in *.
    assert (Hl5 : heap w5 !! new = Some (RealSender s)) by by rewrite Hheap5.
    destruct (encode E authorization) as [e | buf] eqn:He.
    { rewrite (ProcessWRP_unencodable _ _ _ _ _ _ _ Hl5 He).
      eexists. split; [done |].
      destruct (Hfin (add_event (CallProcessWRP new authorization) w5) [])
        as (? & ? & ? & ?); try done.
      { simpl. by rewrite sends_app. }
      { simpl. by rewrite dial_calls_app, app_nil_r. }
      { simpl. by rewrite close_calls_app. }
      { by intros l ?%elem_of_nil. }
      do 4 (split; [done |]). split.
      { intros m Hm. change (table (add_event _ w5) m) with (table w5 m).
        rewrite Htab5. by rewrite decide_False. }
      left. change (table (add_event _ w5) name) with (table w5 name).
      rewrite Htab5, decide_True by done. split; [done |].
      intros Hc. change (closed w5 new) in Hc.
      destruct Hc as (s' & Hs' & Hnone). rewrite Hl5 in Hs'.
      by injection Hs' as <-. }
    destruct (Socket_Send sk) as [[e |] sk'] eqn:Hk.
    + rewrite (ProcessWRP_send_failed _ _ _ _ _ _ _ _ _ _ Hl5 He eq_refl Hk).
      rewrite bind_eq.
      set (w6 := add_event (SockSend new buf)
                   (add_event (CallProcessWRP new authorization) w5)).
      assert (Hl6 : heap w6 !! new = Some (RealSender s)) by done.
      assert (Hown : forall n, RemoveFromMap n ∈ onClose s -> n = name).
      { intros n. unfold s. simpl. rewrite (New_onClose _ _ HN).
        by apply plain_listeners. }
      assert (Hq : forall n l', RemoveFromMap n ∈ onClose s ->
        table (torn new s w6) n = Some l' -> quiet (torn new s w6) l').
      { intros n l' Hin Ht. rewrite (Hown n Hin) in Ht.
        change (table (torn new s w6) name) with (table w5 name) in Ht.
        rewrite Htab5, decide_True in Ht by done. injection Ht as <-.
        by apply quiet_torn. }
      destruct (visit_quiet (onClose s)
        (errs.Join [Some e; Some ErrFailedToSend]) (torn new s w6) Hfree5 Hq)
        as (w' & -> & Hfree' & Hheap' & Htab' & Hs' & Hd' & cs & Hc' & Hcs).
      exists w'. split; [done |].
      destruct (Hfin w' cs) as (? & ? & ? & ?); try done.
      { rewrite Hs'. simpl. rewrite !sends_app. simpl.
        by rewrite !app_nil_r. }
      { rewrite Hd'. simpl. rewrite !dial_calls_app. simpl.
        by rewrite !app_nil_r. }
      { rewrite Hc'. simpl. rewrite !close_calls_app. simpl.
        by rewrite !app_nil_r. }
      { intros l Hl. destruct (Hcs l Hl) as (n & Hin & Ht).
        rewrite (Hown n Hin) in Ht.
        change (table (torn new s w6) name) with (table w5 name) in Ht.
        rewrite Htab5, decide_True in Ht by done. congruence. }
      do 4 (split; [done |]). split.
      { intros m Hm. rewrite Htab'. rewrite decide_False.
        - change (table (torn new s w6) m) with (table w5 m).
          rewrite Htab5. by rewrite decide_False.
        - intros Hin. by apply Hm, Hown. }
      right. split.
      * rewrite Htab'. rewrite decide_True; [done |].
        unfold s. simpl. rewrite (New_onClose _ _ HN), option_listeners_app.
        apply elem_of_app. right. simpl. by left.
      * exists (set_sock s None). split; [| done].
        rewrite Hheap'. unfold torn. simpl.
        by rewrite list_lookup_insert_eq.
    + rewrite (ProcessWRP_sent _ _ _ _ _ _ _ _ _ Hl5 He eq_refl Hk).
      eexists. split; [done |].
      match goal with |- context [locked ?w0 = false] => set (w' := w0) end.
      destruct (Hfin w' []) as (? & ? & ? & ?); try done.
      { unfold w'. simpl. rewrite !sends_app. simpl.
        by rewrite !app_nil_r. }
      { unfold w'. simpl. rewrite !dial_calls_app. simpl.
        by rewrite !app_nil_r. }
      { unfold w'. simpl. rewrite !close_calls_app. simpl.
        by rewrite !app_nil_r. }
      { by intros l ?%elem_of_nil. }
      do 4 (split; [done |]). split.
      { intros m Hm. change (table w' m) with (table w5 m).
        rewrite Htab5. by rewrite decide_False. }
      left. change (table w' name) with (table w5 name).
      rewrite Htab5, decide_True by done. split; [done |].
      intros (s' & Hs' & Hnone). unfold w' in Hs'. simpl in Hs'.
      rewrite list_lookup_insert_eq in Hs' by done.
      by injection Hs' as <-.
  - subst factory. assert (Hl5 : heap w5 !! new = Some (MockSender m)).
    { by rewrite Hheap5. }
    rewrite (ProcessWRP_mock _ _ _ _ _ _ Hl5).
    eexists. split; [done |].
    match goal with |- context [locked ?w0 = false] => set (w' := w0) end.
    destruct (Hfin w' []) as (? & ? & ? & ?); try done.
    { unfold w'. simpl. by rewrite !sends_app. }
    { unfold w'. simpl. by rewrite !dial_calls_app, app_nil_r. }
    { unfold w'. simpl. by rewrite !close_calls_app. }
    { by intros l ?%elem_of_nil. }
    do 4 (split; [done |]). split.
    { intros m' Hm. change (table w' m') with (table w5 m').
      rewrite Htab5. by rewrite decide_False. }
    left. change (table w' name) with (table w5 name).
    rewrite Htab5, decide_True by done. split; [done |].
    intros (s' & Hs' & Hnone). unfold w' in Hs'. simpl in Hs'.
    by rewrite list_lookup_insert_eq in Hs'.
Qed.

(** *** Closing an open sender with the lock held *)

Lemma visit_locked_blocks fs err w :
  forallb is_observer fs = false ->
  exists w',
    visit_locked fs err w = Blocked w' /\
    heap w' = heap w /\ senders w' = senders w /\ locked w' = locked w.
Proof.
  revert w. induction fs as [| [n | tag] rest IH]; intros w; simpl.
  - done.
  - intros _. by exists w.
  - intros Hrest. destruct (IH (add_event (Observed tag err) w) Hrest)
      as (w' & Hv & ? & ? & ?).
    exists w'. unfold visit_locked; fold visit_locked. by rewrite Hv.
Qed.

(** [Close], called with the lock held on a sender that has its socket and
    a listener removing a name, takes the socket away and never returns:
    the listener waits for the lock. *)
Lemma Close_blocks l w s sk :
  locked w = true ->
  heap w !! l = Some (RealSender s) ->
  sock s = Some sk ->
  forallb is_observer (onClose s) = false ->
  exists w',
    Close fire l w = Blocked w' /\
    closed w' l /\ senders w' = senders w /\ locked w' = true.
Proof.
  intros Hheld Hl Hs Hobs.
  rewrite (Close_open _ _ _ _ _ Hl Hs), bind_eq.
  unfold fire, Remove. rewrite visit_locked_spec by done.
  destruct (visit_locked_blocks (onClose s) None
    (torn l s (add_event (CallClose l) w)) Hobs)
    as (w' & -> & Hheap & Hsend & Hlock).
  exists w'. split; [done |]. split; [| by rewrite Hsend, Hlock].
  exists (set_sock s None). split; [| done].
  rewrite Hheap. unfold torn. simpl.
  rewrite list_lookup_insert_eq; [done |]. by eapply lookup_lt_Some.
Qed.

(** So does [Remove] of a name held by such a sender, *)
Lemma Remove_blocks name w l s sk :
  locked w = false ->
  table w name = Some l ->
  heap w !! l = Some (RealSender s) ->
  sock s = Some sk ->
  forallb is_observer (onClose s) = false ->
  exists w',
    Remove name w = Blocked w' /\
    closed w' l /\ table w' name = Some l /\ locked w' = true.
Proof.
  intros Hfree Ht Hl Hs Hobs. unfold Remove.
  rewrite Remove_S, bind_eq, Lock_free by done.
  rewrite bind_eq. unfold get.
  change (table (set_locked true w) name) with (table w name).
  rewrite Ht, bind_eq.
  assert (Hc : exists w',
    Close (fire_with (Remove_ 1)) l (set_locked true w) = Blocked w' /\
    closed w' l /\ senders w' = senders w /\ locked w' = true).
  { rewrite <- (Close_held 1) by done.
    by apply (Close_blocks l (set_locked true w) s sk). }
  destruct Hc as (w' & -> & Hclosed & Hsend & Hlock).
  exists w'. split; [done |]. split; [done |]. split; [| done].
  unfold table. by rewrite Hsend.
Qed.

(** and [upsert] of a name held by such a sender: the senders [Upsert]
    registers are of that kind, so that registering a name a second time
    while its sender is connected never returns. *)
Lemma upsert_blocks name opts factory w existing s sk new w1 w2 :
  locked w = false ->
  table w name = Some existing ->
  heap w !! existing = Some (RealSender s) ->
  sock s = Some sk ->
  forallb is_observer (onClose s) = false ->
  build factory (opts ++ [WithCloseListener (RemoveFromMap name)]) w
    = Returns (inr new) w1 ->
  Dial E new w1 = Returns None w2 ->
  exists w',
    upsert E name opts factory w = Blocked w' /\
    closed w' existing /\ table w' name = Some existing /\
    locked w' = true.
Proof.
  intros Hfree Hex Hl Hs Hobs Hb Hd.
  destruct (build_built _ _ _ _ _ Hb) as (Hnew & o & -> & Ho).
  destruct (Dial_ok _ _ _ Hd) as (Hl2 & Hs2 & _ & Hh2 & _).
  simpl in Hl2, Hs2.
  assert (Hlt : existing < length (heap w)) by by eapply lookup_lt_Some.
  assert (Hx2 : heap w2 !! existing = Some (RealSender s)).
  { rewrite Hh2 by lia. simpl. by rewrite lookup_app_l. }
  rewrite (upsert_dialled _ _ _ _ _ _ _ Hb Hd) by congruence.
  assert (Htab2 : table w2 name = Some existing).
  { unfold table. by rewrite Hs2. }
  rewrite Htab2, bind_eq, bind_eq.
  destruct (Close_blocks existing (ensure_map (set_locked true w2)) s sk)
    as (w' & -> & Hclosed & Hsend & Hlock); try done.
  { unfold ensure_map. by destruct (senders (set_locked true w2)). }
  { by rewrite heap_ensure_map. }
  exists w'. split; [done |]. split; [done |]. split; [| done].
  change (table w' name) with (senders w' ≫= (fun t => t !! name)).
  rewrite Hsend.
  change (table (ensure_map (set_locked true w2)) name = Some existing).
  by rewrite table_ensure_map.
Qed.

(** *** The close listener [upsert] adds *)

(** The sender [upsert] builds with [sender.New] ends its listeners with
    the one that removes the name. *)
Lemma upsert_listener name opts s :
  New (opts ++ [WithCloseListener (RemoveFromMap name)]) = inr s ->
  onClose s = option_listeners opts ++ [RemoveFromMap name].
Proof.
  intros HN. by rewrite (New_onClose _ _ HN), option_listeners_app.
Qed.

(** C2 (as the code has it) -- the close listener [upsert] adds for a name
    calls [Remove] on that name, and [Remove] looks the name up: whatever
    sender holds the name at that moment is closed and the name is freed.
    The listener neither knows nor checks which sender raised the
    notification.  (Stated for an entry whose own [Close] does not call
    back into the map.) *)
Theorem close_listener_removes_by_name name err w :
  locked w = false ->
  (forall l, table w name = Some l -> quiet w l) ->
  exists w',
    fire (RemoveFromMap name) err w = Returns tt w' /\
    table w' name = None /\
    (forall m, m <> name -> table w' m = table w m) /\
    heap w' = heap w /\
    locked w' = false /\
    close_calls (trace w') =
      close_calls (trace w) ++ option_list (table w name).
Proof.
  intros Hfree Hq. unfold fire. rewrite fire_remove, bind_eq.
  destruct (Remove_quiet name w Hfree Hq)
    as (w' & -> & Hfree' & Hheap' & Hsend' & _ & _ & Hc').
  exists w'. split; [done |].
  pose proof (table_delete w w' name) as Htab.
  split; [by rewrite (Htab name Hsend'), decide_True |].
  split; [| done].
  intros m Hm. by rewrite (Htab m Hsend'), decide_False.
Qed.

(** *** A sender without socket *)

(** C4 (as the code has it) -- [Close] takes the socket away before the
    listeners run.  A sender without socket fails every send of a message
    that encodes, at once, with [ErrConnClosed], and [Close] on it does
    nothing more; but this lasts only until [Dial] is called: [Dial] on a
    sender without socket dials again, and installs the socket the peer
    gives.  Nothing in a sender records that it was closed. *)
Theorem sender_closed_until_dial fire l s w :
  heap w !! l = Some (RealSender s) ->
  (forall sk, sock s = Some sk ->
     Close fire l w =
       (visitOnClose fire (onClose s) None ;; ret None)
         (torn l s (add_event (CallClose l) w)) /\
     closed (torn l s (add_event (CallClose l) w)) l) /\
  (sock s = None ->
     (forall ctx msg buf, encode E msg = inr buf ->
        ProcessWRP E fire l ctx msg w =
          Returns (Some ErrConnClosed) (add_event (CallProcessWRP l msg) w)) /\
     Close fire l w = Returns None (add_event (CallClose l) w) /\
     (forall e, dialNewSocket E (url s) (sendDeadline s) = inl e ->
        Dial E l w = Returns (Some e) (add_event (CallDial l) w)) /\
     (forall sk, dialNewSocket E (url s) (sendDeadline s) = inr sk ->
        Dial E l w =
          Returns None
            (set_heap (<[l := RealSender (set_sock s (Some sk))]> (heap w))
               (add_event (CallDial l) w)))).
Proof.
  intros Hl. split.
  - intros sk Hs. split; [by apply (Close_open _ _ _ _ sk) |].
    exists (set_sock s None). split; [| done].
    unfold torn. simpl. rewrite list_lookup_insert_eq; [done |].
    by eapply lookup_lt_Some.
  - intros Hs. split; [| split; [| split]].
    + intros ctx msg buf He. by eapply ProcessWRP_closed.
    + apply Close_noop. by rewrite Hl.
    + intros e Hd. by apply (Dial_refused _ _ s).
    + intros sk Hd. by apply Dial_accepted.
Qed.

(** A failed send, too, takes the socket away before the listeners run. *)
Lemma send_failure_tears_down fire l ctx msg w s buf sk e sk' :
  heap w !! l = Some (RealSender s) ->
  encode E msg = inr buf ->
  sock s = Some sk ->
  Socket_Send sk = (Some e, sk') ->
  exists w0,
    ProcessWRP E fire l ctx msg w =
      (visitOnClose fire (onClose s)
         (errs.Join [Some e; Some ErrFailedToSend]) ;;
       ret (select ctx (Some e))) w0 /\
    closed w0 l.
Proof.
  intros Hl He Hs Hk. eexists. split.
  - by eapply ProcessWRP_send_failed.
  - exists (set_sock s None). split; [| done].
    unfold torn. simpl. rewrite list_lookup_insert_eq; [done |].
    by eapply lookup_lt_Some.
Qed.

(** *** The registration handler *)

Lemma eqb_empty (x : string) : String.eqb x "" = true <-> x = "".
Proof. apply String.eqb_eq. Qed.

(** C9 -- the registration handler answers not-handled to a message that
    is not a registration; to a registration without service name or
    without URL it answers [errInvalidMsg] and leaves the world, the table
    included, as it was; to any other registration it answers what [Upsert]
    answers for that service name, with the options of the server followed
    by that URL. *)
Theorem handleRegisterMsg_spec srv msg w :
  (wrp.Type_ msg <> wrp.ServiceRegistrationMessageType ->
     handleRegisterMsg E srv msg w = Returns (Some ErrNotHandled) w) /\
  (wrp.Type_ msg = wrp.ServiceRegistrationMessageType ->
     wrp.ServiceName msg = "" \/ wrp.URL msg = "" ->
     handleRegisterMsg E srv msg w = Returns (Some errInvalidMsg) w) /\
  (wrp.Type_ msg = wrp.ServiceRegistrationMessageType ->
     wrp.ServiceName msg <> "" ->
     wrp.URL msg <> "" ->
     handleRegisterMsg E srv msg w =
       Upsert E (wrp.ServiceName msg)
         (sOpts srv ++ [WithURL (wrp.URL msg)]) w).
Proof.
  unfold handleRegisterMsg. split; [| split].
  - intros Hty. apply Z.eqb_neq in Hty. by rewrite Hty.
  - intros Hty Hempty. rewrite Hty, Z.eqb_refl. simpl.
    destruct Hempty as [-> | ->]; simpl; [done |].
    by rewrite orb_true_r.
  - intros Hty Hname Hurl. rewrite Hty, Z.eqb_refl. simpl.
    destruct (String.eqb (wrp.ServiceName msg) "") eqn:H1;
      [by apply eqb_empty in H1 |].
    destruct (String.eqb (wrp.URL msg) "") eqn:H2;
      [by apply eqb_empty in H2 |].
    done.
Qed.

(** The URL of the message is the one the sender gets, whatever the
    options of the server. *)
Lemma registration_url opts u f s :
  New ((opts ++ [WithURL u]) ++ [WithCloseListener f]) = inr s -> url s = u.
Proof.
  unfold New. rewrite !foldl_app. simpl.
  destruct (String.eqb u ""); [done |]. by intros [= <-].
Qed.

End WithCollaborators.

End nng_facts.

(** ** What the sender map keeps *)

Module nng_invariant.
Import nng notions nng_facts.
Local Open Scope go_scope.

#[local] Arguments Remove_ : simpl never.
#[local] Arguments visitOnClose : simpl never.

Lemma frame_refl w : frame [] w w.
Proof. split; try done. by rewrite app_nil_r. Qed.

Lemma frame_trans ds1 ds2 w w1 w2 :
  frame ds1 w w1 -> frame ds2 w1 w2 -> frame (ds1 ++ ds2) w w2.
Proof.
  intros [Hl1 Hn1 Hs1 Ht1 Hd1] [Hl2 Hn2 Hs2 Ht2 Hd2]. split.
  - congruence.
  - lia.
  - intros l Hl. rewrite Hs2 by lia. by apply Hs1.
  - intros m l Hm. by apply Ht1, Ht2.
  - by rewrite Hd2, Hd1, app_assoc.
Qed.

Lemma frame_step w w1 w2 : frame [] w w1 -> frame [] w1 w2 -> frame [] w w2.
Proof. apply (frame_trans [] []). Qed.

Lemma frame_event ev w :
  dial_calls [ev] = [] -> frame [] w (add_event ev w).
Proof.
  intros Hev. split; try done. simpl. by rewrite dial_calls_app, Hev.
Qed.

Lemma frame_store (l : loc) o w :
  listeners (Some o) = listeners (heap w !! l) ->
  frame [] w (set_heap (<[l := o]> (heap w)) w).
Proof.
  intros Ho. split; simpl; try done.
  - by rewrite length_insert.
  - intros l2 _. by apply listeners_insert.
  - by rewrite app_nil_r.
Qed.

Lemma frame_torn l s w :
  heap w !! l = Some (RealSender s) -> frame [] w (torn l s w).
Proof.
  intros Hl. eapply frame_step; [by apply (frame_event (SockClose l)) |].
  apply (frame_store l (RealSender (set_sock s None))
           (add_event (SockClose l) w)).
  simpl. by rewrite Hl.
Qed.

Section Listeners.
Variable fire : CloseListener -> option error -> M unit.
Hypothesis fire_frame :
  forall f err w r w', fire f err w = Returns r w' -> frame [] w w'.

Lemma frame_visit fs err w r w' :
  visitOnClose fire fs err w = Returns r w' -> frame [] w w'.
Proof.
  revert w. induction fs as [| f rest IH]; intros w.
  - rewrite visitOnClose_nil. intros [= _ <-]. apply frame_refl.
  - rewrite visitOnClose_cons, bind_eq.
    destruct (fire f err w) as [a w1 | |] eqn:Hf; try done.
    intros Hv. eapply frame_step; [by eapply fire_frame | by apply IH].
Qed.

Lemma frame_Close l w r w' :
  Close fire l w = Returns r w' -> frame [] w w'.
Proof.
  destruct (heap w !! l) as [[s | m] |] eqn:Hl;
    [destruct (sock s) as [sk |] eqn:Hs | |].
  - rewrite (Close_open _ _ _ _ _ Hl Hs), bind_eq.
    destruct (visitOnClose _ _ _ _) as [a w1 | |] eqn:Hv; try done.
    intros [= _ <-].
    eapply frame_step; [by apply (frame_event (CallClose l)) |].
    eapply frame_step; [by apply frame_torn | by eapply frame_visit].
  - rewrite Close_noop by (by rewrite Hl). intros [= _ <-].
    by apply frame_event.
  - rewrite Close_noop by (by rewrite Hl). intros [= _ <-].
    by apply frame_event.
  - rewrite Close_noop by (by rewrite Hl). intros [= _ <-].
    by apply frame_event.
Qed.

Lemma frame_ProcessWRP E l ctx msg w r w' :
  ProcessWRP E fire l ctx msg w = Returns r w' -> frame [] w w'.
Proof.
  destruct (heap w !! l) as [[s | m] |] eqn:Hl.
  - destruct (encode E msg) as [e | buf] eqn:He.
    { rewrite (ProcessWRP_unencodable _ _ _ _ _ _ _ _ Hl He).
      intros [= _ <-]. by apply frame_event. }
    destruct (sock s) as [sk |] eqn:Hs.
    2:{ rewrite (ProcessWRP_closed _ _ _ _ _ _ _ _ Hl He Hs).
        intros [= _ <-]. by apply frame_event. }
    destruct (Socket_Send sk) as [[e |] sk'] eqn:Hk.
    + rewrite (ProcessWRP_send_failed _ _ _ _ _ _ _ _ _ _ _ Hl He Hs Hk).
      rewrite bind_eq.
      destruct (visitOnClose _ _ _ _) as [a w1 | |] eqn:Hv; try done.
      intros [= _ <-].
      eapply frame_step; [by apply (frame_event (CallProcessWRP l msg)) |].
      eapply frame_step; [by apply (frame_event (SockSend l buf)) |].
      eapply frame_step; [by apply frame_torn | by eapply frame_visit].
    + rewrite (ProcessWRP_sent _ _ _ _ _ _ _ _ _ _ Hl He Hs Hk).
      intros [= _ <-].
      eapply frame_step; [by apply (frame_event (CallProcessWRP l msg)) |].
      eapply frame_step; [by apply (frame_event (SockSend l buf)) |].
      apply (frame_store l (RealSender (set_sock s (Some sk')))
               (add_event (SockSend l buf)
                  (add_event (CallProcessWRP l msg) w))).
      simpl. by rewrite Hl.
  - rewrite (ProcessWRP_mock _ _ _ _ _ _ _ Hl). intros [= _ <-].
    eapply frame_step; [by apply (frame_event (CallProcessWRP l msg)) |].
    apply (frame_store l (MockSender (bump m))
             (add_event (CallProcessWRP l msg) w)).
    simpl. by rewrite Hl.
  - rewrite (ProcessWRP_unallocated _ _ _ _ _ _ Hl). intros [= _ <-].
    by apply frame_event.
Qed.

End Listeners.

(** Taking the lock, working in the frame, freeing names and giving the
    lock back is in the frame. *)
Lemma frame_critical w w2 w' :
  locked w = false ->
  frame [] (set_locked true w) w2 ->
  locked w' = false ->
  heap w' = heap w2 ->
  trace w' = trace w2 ->
  (forall m l, table w' m = Some l -> table w2 m = Some l) ->
  frame [] w w'.
Proof.
  intros Hfree [Hl Hn Hs Ht Hd] Hfree' Hheap Htrace Htab. split.
  - congruence.
  - by rewrite Hheap.
  - intros l Hlt. rewrite Hheap. by apply Hs.
  - intros m l Hm. by apply Ht, Htab.
  - by rewrite Htrace.
Qed.

Lemma frame_Remove_ d name w r w' :
  Remove_ d name w = Returns r w' -> frame [] w w'.
Proof.
  revert name w r w'. induction d as [| d IH]; intros name w r w'; [done |].
  rewrite Remove_S, bind_eq. unfold Lock.
  destruct (locked w) eqn:Hfree; [done |].
  rewrite bind_eq. unfold get.
  change (table (set_locked true w) name) with (table w name).
  destruct (table w name) as [l |] eqn:Ht.
  - rewrite bind_eq.
    destruct (Close _ l _) as [a w2 | |] eqn:Hc; try done.
    intros [= _ <-].
    apply frame_Close in Hc.
    2:{ intros f err w0 r0 w0'. destruct f as [n | tag].
        - rewrite fire_remove, bind_eq.
          destruct (Remove_ d n w0) eqn:Hr; try done.
          intros [= _ <-]. by eapply IH.
        - rewrite fire_observer. intros [= _ <-]. by apply frame_event. }
    eapply frame_critical; try done.
    intros m l0 Hm.
    erewrite (table_delete w2 _ name m) in Hm by reflexivity.
    by case_decide.
  - intros [= _ <-]. by eapply frame_critical; [| apply frame_refl | ..].
Qed.

Lemma fire_frame f err w r w' :
  fire f err w = Returns r w' -> frame [] w w'.
Proof.
  unfold fire. destruct f as [n | tag].
  - rewrite fire_remove, bind_eq.
    destruct (Remove n w) eqn:Hr; try done.
    intros [= _ <-]. by eapply frame_Remove_.
  - rewrite fire_observer. intros [= _ <-]. by apply frame_event.
Qed.

Lemma frame_send_all E ls ctx msg w r w' :
  send_all E ls ctx msg w = Returns r w' -> frame [] w w'.
Proof.
  revert w. induction ls as [| l ls IH]; intros w; cbn [send_all].
  - intros [= _ <-]. apply frame_refl.
  - rewrite bind_eq.
    destruct (ProcessWRP E fire l ctx msg w) as [a w1 | |] eqn:Hp; try done.
    intros Hs. eapply frame_step; [| by apply IH].
    eapply frame_ProcessWRP; [apply fire_frame | done].
Qed.

Lemma frame_senderMap_ProcessWRP E ctx msg w r w' :
  senderMap_ProcessWRP E ctx msg w = Returns r w' -> frame [] w w'.
Proof.
  unfold senderMap_ProcessWRP.
  destruct (wrp.Type_ msg =? wrp.ServiceAliveMessageType)%Z.
  - rewrite bind_eq. unfold RLock. destruct (locked w); [done |].
    rewrite bind_eq. unfold get. rewrite bind_eq. unfold RUnlock, ret.
    rewrite bind_eq.
    destruct (send_all E _ ctx msg w) as [a w1 | |] eqn:Hs; try done.
    intros [= _ <-]. by eapply frame_send_all.
  - destruct (ParseLocator E (wrp.To msg)) as [e | dest].
    { intros [= _ <-]. apply frame_refl. }
    rewrite bind_eq. unfold RLock. destruct (locked w); [done |].
    rewrite bind_eq. unfold get. rewrite bind_eq. unfold RUnlock, ret.
    destruct (table w (wrp.Service dest)) as [l |].
    + apply frame_ProcessWRP, fire_frame.
    + intros [= _ <-]. apply frame_refl.
Qed.

Lemma frame_close_all ls w r w' :
  close_all ls w = Returns r w' -> frame [] w w'.
Proof.
  revert w. induction ls as [| l ls IH]; intros w; cbn [close_all].
  - intros [= _ <-]. apply frame_refl.
  - rewrite bind_eq.
    destruct (Close fire l w) as [a w1 | |] eqn:Hc; try done.
    intros Hs. eapply frame_step; [| by apply IH].
    eapply frame_Close; [apply fire_frame | done].
Qed.

Lemma frame_senderMap_Close w r w' :
  senderMap_Close w = Returns r w' -> frame [] w w'.
Proof.
  unfold senderMap_Close. rewrite bind_eq. unfold Lock.
  destruct (locked w) eqn:Hfree; [done |].
  rewrite bind_eq. unfold get. rewrite bind_eq.
  destruct (close_all _ _) as [a w2 | |] eqn:Hc; try done.
  intros [= _ <-]. apply frame_close_all in Hc.
  by eapply frame_critical.
Qed.

Lemma frame_Dial E l w r w' :
  Dial E l w = Returns r w' -> frame [l] w w'.
Proof.
  unfold Dial, Sender_Dial. go_unfold. simpl.
  assert (Hev : frame [l] w (add_event (CallDial l) w)).
  { split; try done. simpl. by rewrite dial_calls_app. }
  destruct (heap w !! l) as [[s | m] |] eqn:Hl;
    [| by intros [= _ <-] | by intros [= _ <-]].
  destruct (sock s); [by intros [= _ <-] |].
  destruct (dialNewSocket E _ _) as [e | sk]; [by intros [= _ <-] |].
  intros [= _ <-].
  rewrite <- (app_nil_r [l]). eapply frame_trans; [exact Hev |].
  apply (frame_store l (RealSender (set_sock s (Some sk)))
           (add_event (CallDial l) w)).
  simpl. by rewrite Hl.
Qed.

Lemma frame_alloc o w : frame [] w (set_heap (heap w ++ [o]) w).
Proof.
  split; simpl; try done.
  - rewrite length_app. lia.
  - intros l Hl. by rewrite lookup_app_l.
  - by rewrite app_nil_r.
Qed.

(** The frame keeps the state of the sender map. *)
Lemma well_formed_frame ds w w' :
  frame ds w w' -> well_formed w -> well_formed w'.
Proof.
  intros [Hl Hn Hs Ht Hd] (Hfree & Halloc & Hself).
  split; [congruence |]. split.
  - intros name l Hname. apply Ht, Halloc in Hname. lia.
  - intros name l s n Hname Hheap Hin.
    apply Ht in Hname. pose proof (Halloc _ _ Hname) as Hlt.
    pose proof (Hs l Hlt) as Hlis. rewrite Hheap in Hlis. simpl in Hlis.
    destruct (heap w !! l) as [[s0 | m] |] eqn:Hl0; try done.
    injection Hlis as Hlis.
    eapply (Hself name l s0 n); [done | done | by rewrite <- Hlis].
Qed.

Lemma table_insert_cases w w' name (l : loc) m l0 :
  senders w' = <[name := l]> <$> senders w ->
  table w' m = Some l0 ->
  (m = name /\ l0 = l) \/ (m <> name /\ table w m = Some l0).
Proof.
  intros Hs. unfold table. rewrite Hs.
  destruct (senders w) as [t |]; simpl; [| done].
  rewrite lookup_insert. case_decide as Hd.
  - intros [= <-]. by left.
  - intros Hm. right. split; [congruence | done].
Qed.

Lemma well_formed_empty : well_formed empty.
Proof.
  split; [done |]. split; [done |]. by intros name l s n Hname.
Qed.

(** [upsert] keeps the state of the sender map. *)
Lemma upsert_well_formed E name opts factory w r w' :
  well_formed w ->
  plain opts ->
  upsert E name opts factory w = Returns r w' ->
  well_formed w'.
Proof.
  intros Hwf Hplain. unfold upsert. rewrite bind_eq.
  destruct (build_total factory
    (opts ++ [WithCloseListener (RemoveFromMap name)]) w) as (r1 & w1 & Hb).
  rewrite Hb. destruct r1 as [e | new].
  { rewrite (build_failed _ _ _ _ _ Hb). by intros [= _ <-]. }
  destruct (build_built _ _ _ _ _ Hb) as (Hnew & o & -> & Ho).
  pose proof (frame_alloc o w) as F1.
  rewrite bind_eq.
  destruct (Dial E new _) as [[e |] w2 | |] eqn:Hd; try done.
  - (* the dial fails *)
    rewrite bind_eq.
    destruct (Close fire new w2) as [a w3 | |] eqn:Hc; try done.
    intros [= _ <-].
    apply frame_Dial in Hd. apply frame_Close in Hc; [| apply fire_frame].
    eapply well_formed_frame; [| exact Hwf].
    eapply frame_trans; [exact F1 |].
    eapply frame_trans; [exact Hd | exact Hc].
  - (* the sender is installed *)
    apply frame_Dial in Hd.
    destruct Hwf as (Hfree & Halloc & Hself).
    destruct Hd as [Hl2 Hn2 Hs2 Ht2 _]. simpl in Hl2, Hn2.
    rewrite bind_eq, Lock_free by congruence.
    rewrite bind_eq. unfold modify at 1. rewrite bind_eq. unfold get at 1.
    fold (ensure_map (set_locked true w2)).
    set (w3 := ensure_map (set_locked true w2)).
    rewrite bind_eq.
    assert (Hclose : exists w4,
      (match table w3 name with
       | Some existing => Close fire existing ;; ret tt
       | None => ret tt
       end) w3 = Returns tt w4 /\ frame [] w3 w4
      \/ forall a w4,
        (match table w3 name with
         | Some existing => Close fire existing ;; ret tt
         | None => ret tt
         end) w3 <> Returns a w4).
    { destruct (table w3 name) as [existing |].
      - rewrite bind_eq.
        destruct (Close fire existing w3) as [a w4 | |] eqn:Hc.
        + exists w4. left. split; [done |].
          eapply frame_Close; [apply fire_frame | done].
        + exists w3. by right.
        + exists w3. by right.
      - exists w3. left. split; [done | apply frame_refl]. }
    destruct Hclose as (w4 & [[-> F4] | Hno]).
    2:{ destruct (match table w3 name with _ => _ end w3) eqn:Hc; try done.
        by destruct (Hno a w0). }
    rewrite bind_eq. unfold modify at 1. rewrite bind_eq.
    unfold Unlock, modify.
    set (w5 := set_locked false _).
    rewrite bind_eq.
    destruct (ProcessWRP E fire new Background authorization w5)
      as [a w6 | |] eqn:Hp; try done.
    intros [= _ <-].
    apply frame_ProcessWRP in Hp; [| apply fire_frame].
    destruct F4 as [Hl4 Hn4 Hs4 Ht4 _]. destruct Hp as [Hl6 Hn6 Hs6 Ht6 _].
    assert (Hh3 : heap w3 = heap w2).
    { unfold w3. by rewrite heap_ensure_map. }
    assert (Hh5 : heap w5 = heap w4) by done.
    assert (L2 : S (length (heap w)) <= length (heap w2)).
    { rewrite length_app in Hn2. simpl in Hn2. lia. }
    assert (L4 : length (heap w2) <= length (heap w4)) by by rewrite <- Hh3.
    assert (L6 : length (heap w4) <= length (heap w6)) by by rewrite <- Hh5.
    (* the cells allocated before the call keep their listeners *)
    assert (Hkeep : forall l, l < S (length (heap w)) ->
      listeners (heap w6 !! l) = listeners ((heap w ++ [o]) !! l)).
    { intros l Hl. rewrite Hs6 by (rewrite Hh5; lia).
      rewrite Hh5, Hs4 by (rewrite Hh3; lia).
      rewrite Hh3. apply Hs2. simpl. rewrite length_app. simpl. lia. }
    (* the entries of the table after the call *)
    assert (Htab : forall m l, table w6 m = Some l ->
      (m = name /\ l = new) \/ (m <> name /\ table w m = Some l)).
    { intros m l Hm. apply Ht6 in Hm.
      apply (table_insert_cases w4 w5 name new) in Hm; [| done].
      destruct Hm as [Hm | [Hne Hm]]; [by left | right].
      split; [done |]. apply Ht4 in Hm. unfold w3 in Hm.
      rewrite table_ensure_map in Hm.
      change (table (set_locked true w2) m) with (table w2 m) in Hm.
      by apply Ht2 in Hm. }
    split; [by rewrite Hl6 |]. split.
    + intros m l Hm. apply Htab in Hm as [[-> ->] | [_ Hm]]; [lia |].
      apply Halloc in Hm. lia.
    + intros m l s n Hm Hheap Hin.
      apply Htab in Hm as [[-> ->] | [Hne Hm]].
      * pose proof (Hkeep new ltac:(lia)) as Hlis.
        rewrite Hheap, Hnew, list_lookup_middle in Hlis by done.
        destruct o as [s0 | m0]; [| done].
        destruct Ho as [_ HN]. simpl in Hlis. injection Hlis as Hlis.
        rewrite Hlis, (New_onClose _ _ HN) in Hin.
        by eapply plain_listeners.
      * pose proof (Halloc _ _ Hm) as Hlt.
        pose proof (Hkeep l ltac:(lia)) as Hlis.
        rewrite Hheap, lookup_app_l in Hlis by done. simpl in Hlis.
        destruct (heap w !! l) as [[s0 | m0] |] eqn:Hl0; try done.
        injection Hlis as Hlis.
        eapply (Hself m l s0 n); [done | done | by rewrite <- Hlis].
Qed.

(** Every world the sender map reaches is in that state. *)
Lemma reachable_well_formed E w : reachable E w -> well_formed w.
Proof.
  induction 1 as [| w name opts factory r w' _ IH Hplain Hu
                  | w name r w' _ IH Hr
                  | w ctx msg r w' _ IH Hp
                  | w r w' _ IH Hc].
  - apply well_formed_empty.
  - by eapply upsert_well_formed.
  - eapply well_formed_frame; [| exact IH]. by eapply frame_Remove_.
  - eapply well_formed_frame; [| exact IH].
    by eapply frame_senderMap_ProcessWRP.
  - eapply well_formed_frame; [| exact IH].
    by eapply frame_senderMap_Close.
Qed.

(** *** The sender map dials a sender once *)

(** [upsert] dials the sender it builds, and no other. *)
Lemma upsert_dials E name opts factory w r w' :
  upsert E name opts factory w = Returns r w' ->
  length (heap w) <= length (heap w') /\
  (dial_calls (trace w') = dial_calls (trace w) \/
   (dial_calls (trace w') = dial_calls (trace w) ++ [length (heap w)] /\
    length (heap w) < length (heap w'))).
Proof.
  unfold upsert. rewrite bind_eq.
  destruct (build_total factory
    (opts ++ [WithCloseListener (RemoveFromMap name)]) w) as (r1 & w1 & Hb).
  rewrite Hb. destruct r1 as [e | new].
  { rewrite (build_failed _ _ _ _ _ Hb). intros [= _ <-]. split; [lia | by left]. }
  destruct (build_built _ _ _ _ _ Hb) as (Hnew & o & -> & Ho).
  rewrite bind_eq.
  destruct (Dial E new _) as [[e |] w2 | |] eqn:Hd; try done;
    apply frame_Dial in Hd; destruct Hd as [_ Hn2 _ _ Hd2];
    simpl in Hn2, Hd2; rewrite length_app in Hn2; simpl in Hn2.
  - rewrite bind_eq.
    destruct (Close fire new w2) as [a w3 | |] eqn:Hc; try done.
    intros [= _ <-].
    apply frame_Close in Hc; [| apply fire_frame].
    destruct Hc as [_ Hn3 _ _ Hd3]. split; [lia |]. right.
    split; [| lia]. by rewrite Hd3, app_nil_r, Hd2, Hnew.
  - rewrite bind_eq. unfold Lock.
    destruct (locked w2); [done |].
    rewrite bind_eq. unfold modify at 1. rewrite bind_eq. unfold get at 1.
    fold (ensure_map (set_locked true w2)).
    set (w3 := ensure_map (set_locked true w2)).
    assert (Hh3 : heap w3 = heap w2).
    { unfold w3. by rewrite heap_ensure_map. }
    assert (Ht3 : trace w3 = trace w2).
    { unfold w3. by rewrite trace_ensure_map. }
    rewrite bind_eq.
    destruct (match table w3 name with
              | Some existing => Close fire existing ;; ret tt
              | None => ret tt
              end w3) as [a w4 | |] eqn:Hc; try done.
    assert (F4 : frame [] w3 w4).
    { destruct (table w3 name) as [existing |].
      - rewrite bind_eq in Hc.
        destruct (Close fire existing w3) as [a' w4' | |] eqn:Hc'; try done.
        injection Hc as _ <-.
        eapply frame_Close; [apply fire_frame | done].
      - injection Hc as _ <-. apply frame_refl. }
    rewrite bind_eq. unfold modify at 1. rewrite bind_eq.
    unfold Unlock, modify.
    set (w5 := set_locked false _).
    rewrite bind_eq.
    destruct (ProcessWRP E fire new Background authorization w5)
      as [a' w6 | |] eqn:Hp; try done.
    intros [= _ <-].
    apply frame_ProcessWRP in Hp; [| apply fire_frame].
    destruct F4 as [_ Hn4 _ _ Hd4]. destruct Hp as [_ Hn6 _ _ Hd6].
    assert (Hh5 : heap w5 = heap w4) by done.
    assert (Ht5 : trace w5 = trace w4) by done.
    rewrite Hh5 in Hn6. rewrite Hh3 in Hn4.
    split; [lia |]. right. split; [| lia].
    by rewrite Hd6, Ht5, Hd4, Ht3, !app_nil_r, Hd2, Hnew.
Qed.

(** In every world the sender map reaches, no sender has been dialled
    twice. *)
Lemma reachable_dials E w :
  reachable E w ->
  NoDup (dial_calls (trace w)) /\
  forall l, l ∈ dial_calls (trace w) -> l < length (heap w).
Proof.
  assert (Hframe : forall w w',
    frame [] w w' ->
    NoDup (dial_calls (trace w)) /\
      (forall l, l ∈ dial_calls (trace w) -> l < length (heap w)) ->
    NoDup (dial_calls (trace w')) /\
      (forall l, l ∈ dial_calls (trace w') -> l < length (heap w'))).
  { intros w0 w0' [_ Hn _ _ Hd] [Hnd Hlt]. rewrite Hd, app_nil_r.
    split; [done |]. intros l Hl. apply Hlt in Hl. lia. }
  induction 1 as [| w name opts factory r w' _ IH Hplain Hu
                  | w name r w' _ IH Hr
                  | w ctx msg r w' _ IH Hp
                  | w r w' _ IH Hc].
  - split; [constructor | by intros l ?%elem_of_nil].
  - destruct IH as [Hnd Hlt].
    destruct (upsert_dials _ _ _ _ _ _ _ Hu) as [Hn [-> | [-> Hgrow]]].
    + split; [done |]. intros l Hl. apply Hlt in Hl. lia.
    + split.
      * apply NoDup_app. split; [done |]. split; [| apply NoDup_singleton].
        intros l Hl ->%list_elem_of_singleton. apply Hlt in Hl. lia.
      * intros l [Hl | ->%list_elem_of_singleton]%elem_of_app; [| done].
        apply Hlt in Hl. lia.
  - eapply Hframe; [by eapply frame_Remove_ | done].
  - eapply Hframe; [by eapply frame_senderMap_ProcessWRP | done].
  - eapply Hframe; [by eapply frame_senderMap_Close | done].
Qed.

(** *** What every call keeps, continued *)

(** The entries [upsert] leaves: those that were there, and the name it
    was given, which holds the sender it built, with the listener that
    removes this name as its last one. *)
Lemma upsert_entries E name opts factory w r w' :
  locked w = false ->
  upsert E name opts factory w = Returns r w' ->
  length (heap w) <= length (heap w') /\
  (forall l, l < length (heap w) ->
     listeners (heap w' !! l) = listeners (heap w !! l)) /\
  (forall m l, table w' m = Some l ->
     table w m = Some l \/
     (m = name /\ l = length (heap w) /\ l < length (heap w') /\
      forall s, heap w' !! l = Some (RealSender s) ->
        onClose s = option_listeners opts ++ [RemoveFromMap name])).
Proof.
  intros Hfree. unfold upsert. rewrite bind_eq.
  destruct (build_total factory
    (opts ++ [WithCloseListener (RemoveFromMap name)]) w) as (r1 & w1 & Hb).
  rewrite Hb. destruct r1 as [e | new].
  { rewrite (build_failed _ _ _ _ _ Hb). intros [= _ <-].
    split; [done |]. split; [done |]. intros m l Hm. by left. }
  destruct (build_built _ _ _ _ _ Hb) as (Hnew & o & -> & Ho).
  pose proof (frame_alloc o w) as F1.
  rewrite bind_eq.
  destruct (Dial E new _) as [[e |] w2 | |] eqn:Hd; try done.
  - (* the dial fails *)
    rewrite bind_eq.
    destruct (Close fire new w2) as [a w3 | |] eqn:Hc; try done.
    intros [= _ <-].
    apply frame_Dial in Hd. apply frame_Close in Hc; [| apply fire_frame].
    pose proof (frame_trans _ _ _ _ _ F1 (frame_trans _ _ _ _ _ Hd Hc)) as F.
    destruct F as [_ Hn Hs Ht _].
    split; [done |]. split; [done |]. intros m l Hm. left. by apply Ht.
  - (* the sender is installed *)
    apply frame_Dial in Hd.
    destruct Hd as [Hl2 Hn2 Hs2 Ht2 _]. simpl in Hl2, Hn2.
    rewrite bind_eq, Lock_free by congruence.
    rewrite bind_eq. unfold modify at 1. rewrite bind_eq. unfold get at 1.
    fold (ensure_map (set_locked true w2)).
    set (w3 := ensure_map (set_locked true w2)).
    rewrite bind_eq.
    assert (Hclose : exists w4,
      (match table w3 name with
       | Some existing => Close fire existing ;; ret tt
       | None => ret tt
       end) w3 = Returns tt w4 /\ frame [] w3 w4
      \/ forall a w4,
        (match table w3 name with
         | Some existing => Close fire existing ;; ret tt
         | None => ret tt
         end) w3 <> Returns a w4).
    { destruct (table w3 name) as [existing |].
      - rewrite bind_eq.
        destruct (Close fire existing w3) as [a w4 | |] eqn:Hc.
        + exists w4. left. split; [done |].
          eapply frame_Close; [apply fire_frame | done].
        + exists w3. by right.
        + exists w3. by right.
      - exists w3. left. split; [done | apply frame_refl]. }
    destruct Hclose as (w4 & [[-> F4] | Hno]).
    2:{ destruct (match table w3 name with _ => _ end w3) eqn:Hc; try done.
        by destruct (Hno a w0). }
    rewrite bind_eq. unfold modify at 1. rewrite bind_eq.
    unfold Unlock, modify.
    set (w5 := set_locked false _).
    rewrite bind_eq.
    destruct (ProcessWRP E fire new Background authorization w5)
      as [a w6 | |] eqn:Hp; try done.
    intros [= _ <-].
    apply frame_ProcessWRP in Hp; [| apply fire_frame].
    destruct F4 as [Hl4 Hn4 Hs4 Ht4 _]. destruct Hp as [Hl6 Hn6 Hs6 Ht6 _].
    assert (Hh3 : heap w3 = heap w2).
    { unfold w3. by rewrite heap_ensure_map. }
    assert (Hh5 : heap w5 = heap w4) by done.
    assert (L2 : S (length (heap w)) <= length (heap w2)).
    { rewrite length_app in Hn2. simpl in Hn2. lia. }
    assert (L4 : length (heap w2) <= length (heap w4)) by by rewrite <- Hh3.
    assert (L6 : length (heap w4) <= length (heap w6)) by by rewrite <- Hh5.
    assert (Hkeep : forall l, l < S (length (heap w)) ->
      listeners (heap w6 !! l) = listeners ((heap w ++ [o]) !! l)).
    { intros l Hl. rewrite Hs6 by (rewrite Hh5; lia).
      rewrite Hh5, Hs4 by (rewrite Hh3; lia).
      rewrite Hh3. apply Hs2. simpl. rewrite length_app. simpl. lia. }
    assert (Htab : forall m l, table w6 m = Some l ->
      (m = name /\ l = new) \/ (m <> name /\ table w m = Some l)).
    { intros m l Hm. apply Ht6 in Hm.
      apply (table_insert_cases w4 w5 name new) in Hm; [| done].
      destruct Hm as [Hm | [Hne Hm]]; [by left | right].
      split; [done |]. apply Ht4 in Hm. unfold w3 in Hm.
      rewrite table_ensure_map in Hm.
      change (table (set_locked true w2) m) with (table w2 m) in Hm.
      by apply Ht2 in Hm. }
    split; [lia |]. split.
    + intros l Hl. rewrite Hkeep by lia. by rewrite lookup_app_l.
    + intros m l Hm. apply Htab in Hm as [[-> ->] | [_ Hm]]; [right | by left].
      split; [done |]. split; [done |]. split; [lia |].
      intros s Hheap. pose proof (Hkeep new ltac:(lia)) as Hlis.
      rewrite Hheap, Hnew, list_lookup_middle in Hlis by done.
      destruct o as [s0 | m0]; [| done].
      destruct Ho as [_ HN]. simpl in Hlis. injection Hlis as Hlis.
      rewrite Hlis. by apply upsert_listener.
Qed.

Lemma armed_frame ds w w' :
  frame ds w w' ->
  (forall name l, table w name = Some l -> l < length (heap w)) ->
  armed w -> armed w'.
Proof.
  intros [_ _ Hs Ht _] Halloc Harmed name l s Hname Hheap.
  apply Ht in Hname. pose proof (Hs l (Halloc _ _ Hname)) as Hlis.
  rewrite Hheap in Hlis. simpl in Hlis.
  destruct (heap w !! l) as [[s0 | m0] |] eqn:Hl0; try done.
  injection Hlis as Hlis. rewrite Hlis. by eapply Harmed.
Qed.

Lemma one_name_frame ds w w' : frame ds w w' -> one_name w -> one_name w'.
Proof.
  intros [_ _ _ Ht _] Hone n1 n2 l H1 H2.
  apply Ht in H1, H2. by eapply Hone.
Qed.

Lemma reachable_armed_one_name E w :
  reachable E w -> armed w /\ one_name w.
Proof.
  induction 1 as [| w name opts factory r w' Hw IH Hplain Hu
                  | w name r w' Hw IH Hr
                  | w ctx msg r w' Hw IH Hp
                  | w r w' Hw IH Hc].
  - split; by intros ? ? ?.
  - destruct IH as [Harmed Hone].
    destruct (reachable_well_formed _ _ Hw) as (Hfree & Halloc & _).
    destruct (upsert_entries _ _ _ _ _ _ _ Hfree Hu) as (Hlen & Hkeep & Htab).
    split.
    + intros m l s Hm Hheap.
      destruct (Htab _ _ Hm) as [Hold | (-> & -> & _ & Hnew)].
      * pose proof (Hkeep l (Halloc _ _ Hold)) as Hlis.
        rewrite Hheap in Hlis. simpl in Hlis.
        destruct (heap w !! l) as [[s0 | m0] |] eqn:Hl0; try done.
        injection Hlis as Hlis. rewrite Hlis. by eapply Harmed.
      * rewrite (Hnew _ Hheap). apply elem_of_app. right. by left.
    + intros n1 n2 l H1 H2.
      destruct (Htab _ _ H1) as [Hold1 | (-> & -> & _)];
        destruct (Htab _ _ H2) as [Hold2 | (-> & Hl2 & _)].
      * by eapply Hone.
      * apply Halloc in Hold1. lia.
      * apply Halloc in Hold2. lia.
      * done.
  - destruct (reachable_well_formed _ _ Hw) as (_ & Halloc & _).
    destruct IH. apply frame_Remove_ in Hr.
    split; [by eapply armed_frame | by eapply one_name_frame].
  - destruct (reachable_well_formed _ _ Hw) as (_ & Halloc & _).
    destruct IH. apply frame_senderMap_ProcessWRP in Hp.
    split; [by eapply armed_frame | by eapply one_name_frame].
  - destruct (reachable_well_formed _ _ Hw) as (_ & Halloc & _).
    destruct IH. apply frame_senderMap_Close in Hc.
    split; [by eapply armed_frame | by eapply one_name_frame].
Qed.

(** *** The snapshot and the table *)

(** The snapshot holds the senders of the table and no other. *)
Lemma snapshot_members w l :
  l ∈ snapshot w <-> exists name, table w name = Some l.
Proof.
  split; [apply snapshot_table |].
  intros (name & Hname). by eapply snapshot_complete.
Qed.

(** It holds one sender for each entry. *)
Lemma snapshot_length w : length (snapshot w) = registered w.
Proof.
  unfold snapshot, registered. destruct (senders w) as [t |]; [| done].
  by rewrite length_fmap, length_map_to_list.
Qed.

(** It holds no sender twice, when no sender has two names. *)
Lemma snapshot_NoDup w : one_name w -> NoDup (snapshot w).
Proof.
  unfold snapshot, one_name, table. intros Hone.
  destruct (senders w) as [t |]; simpl in *; [| constructor].
  apply NoDup_fmap_2_strong; [| apply NoDup_map_to_list].
  intros [n1 l1] [n2 l2] H1%elem_of_map_to_list H2%elem_of_map_to_list.
  simpl. intros <-. f_equal. by eapply Hone.
Qed.

(** *** The broadcast *)

(** C5 -- in every world the sender map reaches, whatever the number of
    its entries, [ProcessWRP] of the sender map for a ServiceAlive message
    answers nil, whatever the senders answer, and the calls of
    [ProcessWRP] on senders it has made, one after the other, are on the
    senders of the table as it was at the call: every sender of an entry
    was called, no other and none twice, so that there are as many calls
    as entries. *)
Theorem broadcast E ctx msg w :
  reachable E w ->
  wrp.Type_ msg = wrp.ServiceAliveMessageType ->
  exists w' ls,
    senderMap_ProcessWRP E ctx msg w = Returns None w' /\
    sends (trace w') = sends (trace w) ++ ((fun l => (l, msg)) <$> ls) /\
    (forall l, l ∈ ls <-> exists name, table w name = Some l) /\
    NoDup ls /\
    length ls = registered w.
Proof.
  intros Hreach Hty.
  destruct (reachable_well_formed E w Hreach) as (Hfree & _ & Hself).
  destruct (reachable_armed_one_name E w Hreach) as [_ Hone].
  destruct (broadcast_self_pruning E ctx msg w Hty Hfree Hself)
    as (w' & Hret & Hsends).
  exists w', (snapshot w). split; [done |]. split; [done |].
  split; [apply snapshot_members |].
  split; [by apply snapshot_NoDup | apply snapshot_length].
Qed.

End nng_invariant.

(** ** The sender map on concrete worlds *)

Module nng_examples.
Import nng notions fixtures nng_facts nng_invariant.
Local Open Scope go_scope.

(** The entries of a table given by computation. *)
Ltac table_cases Ht :=
  let t := fresh "t" in
  let Ht1 := fresh "Ht1" in
  let Ht2 := fresh "Ht2" in
  apply bind_Some in Ht as (t & Ht1 & Ht2);
  vm_compute in Ht1; injection Ht1 as <-;
  apply elem_of_map_to_list in Ht2; vm_compute in Ht2;
  repeat (apply elem_of_cons in Ht2 as [[= -> ->] | Ht2]);
  try (by apply elem_of_nil in Ht2).

Lemma plain_url u : plain [WithURL u].
Proof.
  intros name [H | H]%elem_of_cons; [done | by apply elem_of_nil in H].
Qed.

Lemma w_AB_reachable : reachable E0 w_AB.
Proof.
  apply (reachable_upsert E0 w_A "svcB" [WithURL "tcp://breaks-later"]
           factoryNew None w_AB);
    [| apply plain_url | vm_compute; reflexivity].
  apply (reachable_upsert E0 empty "svcA" [WithURL "tcp://peerA"]
           factoryNew None w_A);
    [apply reachable_empty | apply plain_url | vm_compute; reflexivity].
Qed.

Lemma broadcast_witness :
  exists w' ls,
    senderMap_ProcessWRP E0 Background alive w_AB = Returns None w' /\
    sends (trace w') = sends (trace w_AB) ++ ((fun l => (l, alive)) <$> ls) /\
    (forall l, l ∈ ls <-> exists name, table w_AB name = Some l) /\
    NoDup ls /\
    length ls = registered w_AB.
Proof.
  apply (broadcast E0 Background alive w_AB);
    [exact w_AB_reachable | reflexivity].
Defined.

(** Both senders were sent the message, the one whose peer broke was torn
    down and removed, and the result is nil. *)
Example broadcast_example :
  exists w',
    senderMap_ProcessWRP E0 Background alive w_AB = Returns None w' /\
    drop (length (sends (trace w_AB))) (sends (trace w')) = [(0, alive); (1, alive)] /\
    table w' "svcA" = Some 0 /\ table w' "svcB" = None /\ closed w' 1.
Proof.
  eexists. split; [vm_compute; reflexivity |].
  split; [vm_compute; reflexivity |].
  split; [vm_compute; reflexivity |].
  split; [vm_compute; reflexivity |].
  eexists. split; vm_compute; reflexivity.
Qed.

Lemma unicast_witness :
  senderMap_ProcessWRP E0 Background (request "svcA") w_A =
  ProcessWRP E0 fire 0 Background (request "svcA") w_A.
Proof.
  rewrite (senderMap_ProcessWRP_unicast E0 Background (request "svcA") w_A);
    [reflexivity | discriminate | vm_compute; reflexivity].
Defined.

Example unicast_invalid_locator :
  senderMap_ProcessWRP E0 Background (request "") w_A =
  Returns (Some ErrorInvalidLocator) w_A.
Proof. vm_compute. reflexivity. Qed.

Example unicast_no_entry :
  senderMap_ProcessWRP E0 Background (request "svcZ") w_A =
  Returns (Some ErrNotHandled) w_A.
Proof. vm_compute. reflexivity. Qed.

Lemma upsert_failure_witness :
  exists w',
    upsert E0 "svcA" [WithURL "tcp://refused"] factoryNew w_A
      = Returns (Some dialError) w' /\
    senders w' = senders w_A /\
    locked w' = locked w_A /\
    sends (trace w') = sends (trace w_A) /\
    close_calls (trace w') = close_calls (trace w_A) ++ option_list (Some 1) /\
    (forall l, l < length (heap w_A) -> heap w' !! l = heap w_A !! l).
Proof.
  apply (upsert_failure E0 "svcA" [WithURL "tcp://refused"] factoryNew w_A
           dialError (Some 1)).
  apply (dial_fails E0 "svcA" [WithURL "tcp://refused"] factoryNew w_A
           dialError 1
           (world_of (build factoryNew
              [WithURL "tcp://refused";
               WithCloseListener (RemoveFromMap "svcA")] w_A))
           (world_of (Dial E0 1 (world_of (build factoryNew
              [WithURL "tcp://refused";
               WithCloseListener (RemoveFromMap "svcA")] w_A)))));
    vm_compute; reflexivity.
Defined.

(** The scenario of the specification: no entry before, none after. *)
Example upsert_refused_fresh :
  exists w',
    Upsert E0 "svcA" [WithURL "tcp://refused"] empty
      = Returns (Some dialError) w' /\
    table w' "svcA" = None.
Proof. eexists. split; vm_compute; reflexivity. Qed.

(** Without URL the sender is not built, and the world is as it was. *)
Example upsert_not_built :
  Upsert E0 "svcA" [] w_A = Returns (Some errURLRequired) w_A.
Proof. vm_compute. reflexivity. Qed.

Lemma upsert_replace_witness :
  exists w',
    upsert E0 "svcA" [WithURL "tcp://peerA"] factoryNew w_mock
      = Returns None w' /\
    locked w' = false /\
    closes 0 (trace w') = S (closes 0 (trace w_mock)) /\
    sends (trace w') = sends (trace w_mock) ++ [(1, authorization)] /\
    dial_calls (trace w') = dial_calls (trace w_mock) ++ [1] /\
    (forall m, m <> "svcA" -> table w' m = table w_mock m) /\
    ((table w' "svcA" = Some 1 /\ ~ closed w' 1) \/
     (table w' "svcA" = None /\ closed w' 1)).
Proof.
  apply (upsert_replace E0 "svcA" [WithURL "tcp://peerA"] factoryNew w_mock
           0 1
           (world_of (build factoryNew
              [WithURL "tcp://peerA";
               WithCloseListener (RemoveFromMap "svcA")] w_mock))
           (world_of (Dial E0 1 (world_of (build factoryNew
              [WithURL "tcp://peerA";
               WithCloseListener (RemoveFromMap "svcA")] w_mock)))));
    [vm_compute; reflexivity | vm_compute; reflexivity
    | vm_compute; exact I | apply plain_url
    | vm_compute; reflexivity | vm_compute; reflexivity].
Defined.

(** Against C8 as the specification has it: the entry is replaced,
    [upsert] answers nil, and the failure of the authorization message has
    undone the registration.  (With the senders [Upsert] itself builds,
    replacing an open entry does not even return: the old sender's
    listener waits for the lock that [upsert] holds.) *)
Lemma upsert_handshake_failure_unregisters :
  table w_mock "svcA" = Some 0 /\
  (exists w',
     upsert E0 "svcA" [WithURL "tcp://breaks"] factoryNew w_mock
       = Returns None w' /\
     closes 0 (trace w') = S (closes 0 (trace w_mock)) /\
     sends (trace w') = sends (trace w_mock) ++ [(1, authorization)] /\
     table w' "svcA" = None) /\
  table w_A "svcA" = Some 0 /\
  (exists w',
     Upsert E0 "svcA" [WithURL "tcp://peerA2"] w_A = Blocked w' /\
     locked w' = true).
Proof.
  split; [vm_compute; reflexivity |].
  split; [eexists; repeat split; vm_compute; reflexivity |].
  split; [vm_compute; reflexivity |].
  eexists; split; vm_compute; reflexivity.
Qed.

Lemma close_listener_witness :
  exists w',
    fire (RemoveFromMap "svcA") None w_mock2 = Returns tt w' /\
    table w' "svcA" = None /\
    (forall m, m <> "svcA" -> table w' m = table w_mock2 m) /\
    heap w' = heap w_mock2 /\
    locked w' = false /\
    close_calls (trace w') =
      close_calls (trace w_mock2) ++ option_list (table w_mock2 "svcA").
Proof.
  apply (close_listener_removes_by_name "svcA" None w_mock2);
    [vm_compute; reflexivity |].
  intros l Ht. vm_compute in Ht. injection Ht as <-. vm_compute. exact I.
Defined.

(** Against C2 as the specification has it.  With the mocks of the tests:
    sender 0 was registered under the name and superseded by sender 1; the
    listener given for sender 0 then frees the name, which sender 1 holds.
    With senders proper, in the race of the specification: the listener of
    the old sender closes the new one, whose own listener then waits for
    ever for the lock that [Remove] holds. *)
Lemma stale_notification_hits_newer_entry :
  table w_mock "svcA" = Some 0 /\
  table w_mock2 "svcA" = Some 1 /\
  (exists w',
     fire (RemoveFromMap "svcA") None w_mock2 = Returns tt w' /\
     table w' "svcA" = None) /\
  table w_old "svcA" = Some 0 /\
  table w_race "svcA" = Some 1 /\
  ~ closed w_race 1 /\
  (exists w',
     visitOnClose fire [RemoveFromMap "svcA"] sendFailed w_race = Blocked w' /\
     closed w' 1 /\ locked w' = true).
Proof.
  split; [vm_compute; reflexivity |].
  split; [vm_compute; reflexivity |].
  split; [eexists; split; vm_compute; reflexivity |].
  split; [vm_compute; reflexivity |].
  split; [vm_compute; reflexivity |].
  split.
  { intros (s & Hs & Hn). vm_compute in Hs. injection Hs as <-. done. }
  eexists. split; [vm_compute; reflexivity |].
  split; [| vm_compute; reflexivity].
  eexists. split; vm_compute; reflexivity.
Qed.

(** [w_torn] is the world in which the listeners of the old sender are
    about to run. *)
Example w_torn_is_reached :
  ProcessWRP E0 fire 0 Background (request "svcA") w_old =
  (visitOnClose fire [RemoveFromMap "svcA"] sendFailed ;;
   ret (Some sendError)) w_torn.
Proof. vm_compute. reflexivity. Qed.

Lemma sender_closed_witness :
  ProcessWRP E0 fire 0 Background (request "svcA") w_closed =
    Returns (Some ErrConnClosed)
      (add_event (CallProcessWRP 0 (request "svcA")) w_closed) /\
  Close fire 0 w_closed = Returns None (add_event (CallClose 0) w_closed) /\
  Dial E0 0 w_closed =
    Returns None
      (set_heap
         (<[0 := RealSender
                   (set_sock s_closed (Some {| sendRv := [] |}))]>
            (heap w_closed))
         (add_event (CallDial 0) w_closed)).
Proof.
  assert (H : heap w_closed !! 0 = Some (RealSender s_closed))
    by (vm_compute; reflexivity).
  destruct (sender_closed_until_dial E0 fire 0 s_closed w_closed H)
    as [_ Hclosed].
  destruct (Hclosed eq_refl) as (Hsend & Hclose & _ & Hdial).
  split; [apply (Hsend Background (request "svcA") []); reflexivity |].
  split; [exact Hclose |].
  apply Hdial. vm_compute. reflexivity.
Defined.

(** Against C4 as the specification has it: after [Close], [Dial] on the
    same sender opens a new socket, and the next send goes out and answers
    nil. *)
Lemma closed_sender_is_redialled :
  closed w_closed 0 /\
  Dial E0 0 w_closed = Returns None w_redialled /\
  ~ closed w_redialled 0 /\
  exists w',
    ProcessWRP E0 fire 0 Background (request "svcA") w_redialled
      = Returns None w' /\
    last (trace w') = Some (SockSend 0 []).
Proof.
  split; [eexists; split; vm_compute; reflexivity |].
  split; [vm_compute; reflexivity |].
  split.
  { intros (s & Hs & Hn). vm_compute in Hs. injection Hs as <-. done. }
  eexists. split; vm_compute; reflexivity.
Qed.

(** The listener of the sender was called once, by the first [Close]. *)
Example close_notifies_once :
  trace (world_of (Close fire 0 w_closed)) =
  [CallDial 0; CallClose 0; SockClose 0; Observed 7 None; CallClose 0].
Proof. vm_compute. reflexivity. Qed.

Lemma handleRegisterMsg_witness :
  handleRegisterMsg E0 srv0 alive w_A = Returns (Some ErrNotHandled) w_A /\
  handleRegisterMsg E0 srv0 (registration "svcB" "") w_A
    = Returns (Some errInvalidMsg) w_A /\
  handleRegisterMsg E0 srv0 (registration "svcB" "tcp://peerB") w_A
    = Upsert E0 "svcB" (sOpts srv0 ++ [WithURL "tcp://peerB"]) w_A.
Proof.
  split; [| split].
  - apply (proj1 (handleRegisterMsg_spec E0 srv0 alive w_A)). discriminate.
  - apply (proj1 (proj2 (handleRegisterMsg_spec E0 srv0
             (registration "svcB" "") w_A))); [reflexivity | by right].
  - apply (proj2 (proj2 (handleRegisterMsg_spec E0 srv0
             (registration "svcB" "tcp://peerB") w_A)));
      [reflexivity | discriminate | discriminate].
Defined.

End nng_examples.

(** ** The receiver *)

Module receiver_facts.
Import receiver.

Section Loop.
Variable decode : list byte -> error + wrp.Message.

(** Once the context is done, the error the loop ends with wraps
    [context.Canceled]: it is not nil. *)
Lemma receive_done_canceled turns ms term :
  receive decode true turns = (ms, Some term) ->
  errs.Is term Canceled = true.
Proof.
  revert ms. induction turns as [| t rest IH]; intros ms; [done |].
  cbn [receive andb].
  destruct (takeDone t).
  - intros [= _ <-]. reflexivity.
  - destruct (recv t) as [e | [b |]].
    + destruct (errs.Is (Some e) ErrRecvTimeout); [apply IH |].
      intros [= _ <-]. apply errs_facts.Is_Join_member. set_solver.
    + destruct (decode b).
      * apply IH.
      * destruct (receive decode true rest) as [ms' r] eqn:Hr.
        intros [= _ ->]. by eapply IH.
    + cbn. intros [= _ <-]. reflexivity.
Qed.

(** The loop ends at the latest in the turn in which the [select] takes
    [ctx.Done()]. *)
Lemma receive_stops turns t :
  takeDone t = true ->
  exists ms term, receive decode true (turns ++ [t]) = (ms, Some term).
Proof.
  intros Ht. induction turns as [| t0 rest (ms & term & IH)].
  - cbn. rewrite Ht. cbn. by do 2 eexists.
  - cbn [app receive andb]. rewrite IH.
    destruct (takeDone t0); [cbn; by do 2 eexists |].
    destruct (recv t0) as [e | [b |]].
    + destruct (errs.Is (Some e) ErrRecvTimeout); by do 2 eexists.
    + destruct (decode b); by do 2 eexists.
    + cbn. by do 2 eexists.
Qed.

(** C3 (as the code has it) -- [Close] on a receiver that is not running
    does nothing and answers nil.  On a running receiver it cancels the
    loop, waits for it and answers nil all the same, whatever the error the
    loop ended with; the close listeners are called with that error, which
    after a cancellation is never nil: it wraps [context.Canceled].  The
    wait ends at the latest in the turn in which the [select] takes
    [ctx.Done()]. *)
Theorem Close_spec r :
  (cancel r = false ->
     forall turns, Close decode r turns = Some (None, r, [])) /\
  (cancel r = true ->
     (forall turns ms term,
        receive decode true turns = (ms, Some term) ->
        Close decode r turns = Some (None, set_cancel false r, notify r term) /\
        errs.Is term Canceled = true /\
        term <> None) /\
     (forall turns t,
        takeDone t = true ->
        exists term,
          Close decode r (turns ++ [t])
            = Some (None, set_cancel false r, notify r term))).
Proof.
  split.
  - intros Hr turns. unfold Close. by rewrite Hr.
  - intros Hr. split.
    + intros turns ms term Hrun. unfold Close. rewrite Hr, Hrun.
      split; [done |].
      pose proof (receive_done_canceled _ _ _ Hrun) as Hc.
      split; [done |]. by intros ->.
    + intros turns t Ht.
      destruct (receive_stops turns t Ht) as (ms & term & Hrun).
      exists term. unfold Close. by rewrite Hr, Hrun.
Qed.

(** Left alone, the loop ends with the error of the socket, joined with
    nothing. *)
Lemma wrapper_socket_error r e turns :
  errs.Is (Some e) ErrRecvTimeout = false ->
  Forall (fun t => recv t = RecvErr ErrRecvTimeout) turns ->
  wrapper decode r (turns ++ [{| recv := RecvErr e; takeDone := false |}])
  = Some (set_cancel false r, notify r (Some (joinError [e]))).
Proof.
  intros He Hall. unfold wrapper.
  replace (receive decode false (turns ++ _))
    with (@nil wrp.Message, Some (Some (joinError [e]))); [done |].
  induction Hall as [| t rest Ht _ IH]; cbn [app receive andb recv].
  - by rewrite He.
  - by rewrite Ht.
Qed.

End Loop.

End receiver_facts.

Module receiver_examples.
Import receiver fixtures receiver_facts.

Lemma Close_witness :
  Close decode0 r0 [] = None /\
  Close decode0 (set_cancel false r0) turns0
    = Some (None, set_cancel false r0, []) /\
  exists term,
    Close decode0 r0 turns0
      = Some (None, set_cancel false r0, notify r0 term) /\
    errs.Is term Canceled = true /\
    term <> None.
Proof.
  split; [reflexivity |].
  split.
  - apply (proj1 (Close_spec decode0 (set_cancel false r0))). reflexivity.
  - exists (Some (joinError [Canceled; Canceled])).
    apply (proj1 (proj2 (Close_spec decode0 r0) eq_refl) turns0 []).
    reflexivity.
Defined.

(** Against C3 as the specification has it: the loop ended with an error
    that wraps [context.Canceled], [Close] answered nil, and the close
    listener was given that error, not nil. *)
Lemma Close_answers_nil :
  receive decode0 true turns0
    = ([], Some (Some (joinError [Canceled; Canceled]))) /\
  Close decode0 r0 turns0 =
    Some (None, set_cancel false r0,
          [(0, Some (joinError [Canceled; Canceled]))]).
Proof. split; reflexivity. Qed.

End receiver_examples.

(** ** The sender by itself *)

Module sender_life.
Import nng notions nng_facts.
Local Open Scope go_scope.

#[local] Arguments Remove_ : simpl never.
#[local] Arguments visitOnClose : simpl never.

Lemma add_events_nil w : add_events [] w = w.
Proof. destruct w. unfold add_events. simpl. by rewrite app_nil_r. Qed.

(** Observers record, whatever [sm.Remove] does. *)
Lemma visit_observers remove fs err w :
  forallb is_observer fs = true ->
  visitOnClose (fire_with remove) fs err w =
  Returns tt (add_events (notices fs err) w).
Proof.
  revert w. induction fs as [| f fs IH]; intros w Hobs.
  - by rewrite visitOnClose_nil, add_events_nil.
  - simpl in Hobs. apply andb_prop in Hobs as [Hf Hfs].
    destruct f as [n | tag]; [done |].
    rewrite visitOnClose_cons, bind_eq, fire_observer, IH by done.
    unfold add_events, add_event. simpl. by rewrite <- app_assoc.
Qed.

(** *** sender.New *)

Lemma foldl_apply_url opts s :
  url (foldl (fun s opt => apply opt s) s opts) =
  default (url s)
    (last (omap (fun opt => match opt with
                            | WithURL u => Some u
                            | _ => None
                            end) opts)).
Proof.
  revert s. induction opts as [| opt opts IH]; intros s; [done |].
  simpl. rewrite IH. destruct opt as [u | t | f |]; simpl; try done.
  - rewrite last_cons. by destruct (last _).
  - by destruct (0 <? t)%Z.
Qed.

Lemma foldl_apply_deadline opts s :
  sendDeadline (foldl (fun s opt => apply opt s) s opts) =
  default (sendDeadline s)
    (last (omap (fun opt => match opt with
                            | WithSendTimeout t =>
                                if (0 <? t)%Z then Some t else None
                            | _ => None
                            end) opts)).
Proof.
  revert s. induction opts as [| opt opts IH]; intros s; [done |].
  simpl. rewrite IH. destruct opt as [u | t | f |]; simpl; try done.
  destruct (0 <? t)%Z; simpl; [| done].
  rewrite last_cons. by destruct (last _).
Qed.

Lemma last_deadline_nonneg opts : (0 <= last_deadline opts)%Z.
Proof.
  unfold last_deadline.
  destruct (last _) as [t |] eqn:Hlast; simpl; [| done].
  apply last_Some_elem_of, list_elem_of_omap in Hlast as (opt & _ & Hopt).
  destruct opt as [u | t' | f |]; try done.
  destruct (0 <? t')%Z eqn:Hpos; [| done].
  injection Hopt as <-. apply Z.ltb_lt in Hpos. lia.
Qed.

(** X: [sender.New] by its options.  The last [WithURL] decides: [New]
    fails with "url is required" exactly when there is none or it is
    empty.  Otherwise the sender has that URL, the listeners of the
    options in their order, the last positive send timeout (a timeout that
    is not positive is ignored), which is never negative, and no
    socket. *)
Theorem New_by_options opts :
  New opts =
    (if decide (last_url opts = "") then inl errURLRequired
     else inr {| url := last_url opts;
                 onClose := option_listeners opts;
                 sock := None;
                 sendDeadline := last_deadline opts |}) /\
  (0 <= last_deadline opts)%Z.
Proof.
  split; [| apply last_deadline_nonneg].
  unfold New.
  set (s := foldl _ _ opts).
  assert (Hu : url s = last_url opts) by apply foldl_apply_url.
  assert (Hd : sendDeadline s = last_deadline opts)
    by apply foldl_apply_deadline.
  assert (Hk : sock s = None) by apply foldl_apply_sock.
  assert (Hc : onClose s = option_listeners opts)
    by apply (foldl_apply_onClose opts).
  destruct (String.eqb (url s) "") eqn:Heq.
  - apply eqb_empty in Heq. rewrite Hu in Heq. by rewrite decide_True.
  - rewrite decide_False.
    + destruct s. simpl in *. by subst.
    + intros Hempty. rewrite <- Hu in Hempty.
      apply eqb_empty in Hempty. congruence.
Qed.

(** *** Dial *)

(** X: [Dial] is idempotent.  After a [Dial] of a sender that returned
    nil, another [Dial] returns nil and leaves the sender as it is,
    whatever the network would answer: the socket is kept. *)
Theorem Dial_idempotent E l s w w1 :
  heap w !! l = Some (RealSender s) ->
  Dial E l w = Returns None w1 ->
  ~ closed w1 l /\
  forall E', Dial E' l w1 = Returns None (add_event (CallDial l) w1).
Proof.
  intros Hl Hd. apply Dial_ok in Hd as (_ & _ & _ & _ & Hcell).
  rewrite Hl in Hcell. destruct Hcell as (sk & Hcell). split.
  - intros (s' & Hs' & Hnone). rewrite Hcell in Hs'.
    injection Hs' as <-. done.
  - intros E'. by eapply Dial_connected.
Qed.

(** *** Close *)

(** X: closing a connected sender whose listeners are observers closes
    the socket, then tells every listener once, in the order they were
    added, with a nil reason; the table is left alone.  A second [Close]
    tells nobody. *)
Theorem Close_notifies_once remove l s sk w :
  heap w !! l = Some (RealSender s) ->
  sock s = Some sk ->
  forallb is_observer (onClose s) = true ->
  exists w',
    Close (fire_with remove) l w = Returns None w' /\
    trace w' =
      trace w ++ [CallClose l; SockClose l] ++ notices (onClose s) None /\
    closed w' l /\
    senders w' = senders w /\
    Close (fire_with remove) l w' = Returns None (add_event (CallClose l) w').
Proof.
  intros Hl Hs Hobs.
  rewrite (Close_open _ _ _ _ _ Hl Hs), bind_eq, visit_observers by done.
  eexists. split; [reflexivity |].
  assert (Hcell : heap (add_events (notices (onClose s) None)
                    (torn l s (add_event (CallClose l) w))) !! l
                  = Some (RealSender (set_sock s None))).
  { simpl. rewrite list_lookup_insert_eq; [done |]. by eapply lookup_lt_Some. }
  split; [| split; [| split]].
  - simpl. by rewrite <- !app_assoc.
  - by exists (set_sock s None).
  - done.
  - apply Close_noop. by rewrite Hcell.
Qed.

(** *** ProcessWRP *)

Lemma select_ctx ctx : select ctx (Err ctx) = Err ctx.
Proof. unfold select. destruct (Err ctx); [by destruct (doneFirst ctx) | done]. Qed.

(** X: a send that gets through.  [ProcessWRP] on a connected sender
    whose socket takes the frame returns [ctx.Err()]: nil under a live
    context, and the error of the context under one that is done, although
    the frame has been sent.  The sender stays connected and no listener
    is told. *)
Theorem ProcessWRP_delivers E fire l ctx msg w s buf sk sk' :
  heap w !! l = Some (RealSender s) ->
  encode E msg = inr buf ->
  sock s = Some sk ->
  Socket_Send sk = (None, sk') ->
  exists w',
    ProcessWRP E fire l ctx msg w = Returns (Err ctx) w' /\
    trace w' = trace w ++ [CallProcessWRP l msg; SockSend l buf] /\
    connected w' l /\
    senders w' = senders w.
Proof.
  intros Hl He Hs Hk.
  rewrite (ProcessWRP_sent E fire l ctx msg w s buf sk sk') by done.
  eexists. split; [reflexivity |]. split; [| split; [| done]].
  - simpl. by rewrite <- app_assoc.
  - exists (set_sock s (Some sk')), sk'. split; [| done].
    simpl. rewrite list_lookup_insert_eq; [done |]. by eapply lookup_lt_Some.
Qed.

(** X: a send that fails.  When the socket refuses the frame with [e],
    the socket is closed and every listener is told once, with a reason
    that is both [e] and [ErrFailedToSend]; the caller is given [e] as the
    socket gave it (or the error of a context that is done), so that its
    error is [ErrFailedToSend] only if [e] is; the next [ProcessWRP]
    answers [ErrConnClosed] and tells nobody. *)
Theorem ProcessWRP_send_failure E remove l ctx msg w s buf sk e sk' :
  heap w !! l = Some (RealSender s) ->
  encode E msg = inr buf ->
  sock s = Some sk ->
  Socket_Send sk = (Some e, sk') ->
  forallb is_observer (onClose s) = true ->
  let reason := Some (joinError [e; ErrFailedToSend]) in
  exists w',
    ProcessWRP E (fire_with remove) l ctx msg w
      = Returns (select ctx (Some e)) w' /\
    trace w' =
      trace w ++ [CallProcessWRP l msg; SockSend l buf; SockClose l]
        ++ notices (onClose s) reason /\
    errs.Is reason ErrFailedToSend = true /\
    errs.Is reason e = true /\
    (Err ctx = None -> select ctx (Some e) = Some e) /\
    closed w' l /\
    ProcessWRP E (fire_with remove) l ctx msg w'
      = Returns (Some ErrConnClosed) (add_event (CallProcessWRP l msg) w').
Proof.
  intros Hl He Hs Hk Hobs reason.
  rewrite (ProcessWRP_send_failed E _ l ctx msg w s buf sk e sk') by done.
  rewrite bind_eq, visit_observers by done.
  eexists. split; [reflexivity |].
  assert (Hcell : heap (add_events
      (notices (onClose s) (errs.Join [Some e; Some ErrFailedToSend]))
      (torn l s (add_event (SockSend l buf)
                   (add_event (CallProcessWRP l msg) w)))) !! l
    = Some (RealSender (set_sock s None))).
  { simpl. rewrite list_lookup_insert_eq; [done |]. by eapply lookup_lt_Some. }
  split; [| split; [| split; [| split; [| split]]]].
  - simpl. by rewrite <- !app_assoc.
  - apply (errs_facts.Is_Join_member [Some e; Some ErrFailedToSend]).
    repeat constructor.
  - apply (errs_facts.Is_Join_member [Some e; Some ErrFailedToSend]).
    repeat constructor.
  - intros Hlive. unfold select. by rewrite Hlive.
  - by exists (set_sock s None).
  - by eapply ProcessWRP_closed.
Qed.

End sender_life.

(** ** The sender map over its whole life *)

Module sendermap_life.
Import nng notions nng_facts nng_invariant.
Local Open Scope go_scope.

#[local] Arguments Remove_ : simpl never.
#[local] Arguments visitOnClose : simpl never.

(** *** What every call keeps *)

(** X: what holds between two calls of the sender map, whatever calls came
    before: the lock is free; every entry is a sender that was built; a
    sender registered under a name carries the listener that removes this
    name and no listener that removes another; no sender is registered
    under two names; and no sender was dialled twice. *)
Theorem between_calls E w :
  reachable E w ->
  locked w = false /\
  (forall name l, table w name = Some l -> l < length (heap w)) /\
  (forall name l s n,
     table w name = Some l -> heap w !! l = Some (RealSender s) ->
     RemoveFromMap name ∈ onClose s /\
     (RemoveFromMap n ∈ onClose s -> n = name)) /\
  one_name w /\
  NoDup (dial_calls (trace w)).
Proof.
  intros Hw.
  destruct (reachable_well_formed _ _ Hw) as (Hfree & Halloc & Hself).
  destruct (reachable_armed_one_name _ _ Hw) as [Harmed Hone].
  destruct (reachable_dials _ _ Hw) as [Hnodup _].
  split; [done |]. split; [done |]. split; [| by split].
  intros name l s n Hname Hheap. split.
  - by eapply Harmed.
  - intros Hin. by eapply Hself.
Qed.

Section WithCollaborators.
Variable E : Collaborators.

(** *** Registering a free name *)

(** X: [upsert] of a name that has no entry, from outside the lock, with
    the new sender built and dialled: [upsert] returns nil (it cannot
    wait for the lock); the sender was dialled, and the authorization
    message was sent to it and to no other; no sender that was there is
    touched, and the other names are as they were.  The name holds the new
    sender, unless the send of the authorization message failed: the new
    sender is then closed and the name is free again, and the only [Close]
    calls are on the new sender. *)
Theorem upsert_fresh name opts factory w new w1 w2 :
  locked w = false ->
  table w name = None ->
  plain opts ->
  build factory (opts ++ [WithCloseListener (RemoveFromMap name)]) w
    = Returns (inr new) w1 ->
  Dial E new w1 = Returns None w2 ->
  exists w' cs,
    upsert E name opts factory w = Returns None w' /\
    locked w' = false /\
    close_calls (trace w') = close_calls (trace w) ++ cs /\
    (forall l, l ∈ cs -> l = new) /\
    sends (trace w') = sends (trace w) ++ [(new, authorization)] /\
    dial_calls (trace w') = dial_calls (trace w) ++ [new] /\
    (forall m, m <> name -> table w' m = table w m) /\
    (forall l, l < length (heap w) -> heap w' !! l = heap w !! l) /\
    ((table w' name = Some new /\ ~ closed w' new) \/
     (table w' name = None /\ closed w' new)).
Proof.
  intros Hfree Hex Hplain Hb Hd.
  destruct (build_built _ _ _ _ _ Hb) as (Hnew & o & -> & Ho).
  destruct (Dial_ok _ _ _ _ Hd) as (Hl2 & Hs2 & Ht2 & Hh2 & Hn2).
  simpl in Hl2, Hs2, Ht2.
  assert (Ho1 : heap (set_heap (heap w ++ [o]) w) !! new = Some o).
  { simpl. rewrite Hnew. by rewrite list_lookup_middle. }
  rewrite Ho1 in Hn2.
  rewrite (upsert_dialled _ _ _ _ _ _ _ _ Hb Hd) by congruence.
  set (w3 := ensure_map (set_locked true w2)).
  assert (Htab2 : forall m, table w2 m = table w m).
  { intros m. unfold table. by rewrite Hs2. }
  rewrite Htab2, Hex, bind_eq.
  unfold ret at 1. rewrite bind_eq. unfold modify at 1.
  rewrite bind_eq. unfold Unlock, modify.
  set (w5 := set_locked false _).
  assert (Hfree5 : locked w5 = false) by done.
  assert (Hheap5 : heap w5 = heap w2).
  { unfold w5, w3. simpl. by rewrite heap_ensure_map. }
  assert (Htab5 : forall m,
    table w5 m = if decide (name = m) then Some new else table w m).
  { intros m. rewrite <- Htab2.
    by apply (table_install (set_locked true w2) w5). }
  assert (Htr5 : trace w5 = trace w ++ [CallDial new]).
  { unfold w5, w3. simpl. rewrite trace_ensure_map. simpl. by rewrite Ht2. }
  assert (Hlen : new < length (heap w5)).
  { rewrite Hheap5. destruct o; [destruct Hn2 as [sk Hn2] |];
      by eapply lookup_lt_Some. }
  assert (Hold5 : forall l, l < length (heap w) -> heap w5 !! l = heap w !! l).
  { intros l Hl. rewrite Hheap5, Hh2 by lia. simpl. by rewrite lookup_app_l. }
  rewrite bind_eq.
  (* what the trace shows once the authorization has been sent *)
  assert (Hfin : forall w' cs,
    sends (trace w') = sends (trace w5) ++ [(new, authorization)] ->
    dial_calls (trace w') = dial_calls (trace w5) ->
    close_calls (trace w') = close_calls (trace w5) ++ cs ->
    close_calls (trace w') = close_calls (trace w) ++ cs /\
    sends (trace w') = sends (trace w) ++ [(new, authorization)] /\
    dial_calls (trace w') = dial_calls (trace w) ++ [new]).
  { intros w' cs Hs Hdc Hcc.
    rewrite Htr5 in Hs, Hdc, Hcc.
    rewrite sends_app in Hs. rewrite dial_calls_app in Hdc.
    rewrite close_calls_app in Hcc. simpl in Hs, Hdc, Hcc.
    rewrite app_nil_r in Hs. rewrite app_nil_r in Hcc. done. }
  destruct o as [s0 | m].
  - destruct Ho as [_ HN]. destruct Hn2 as [sk Hn2].
    set (s := set_sock s0 (Some sk)) in *.
    assert (Hl5 : heap w5 !! new = Some (RealSender s)) by by rewrite Hheap5.
    destruct (encode E authorization) as [e | buf] eqn:He.
    { rewrite (ProcessWRP_unencodable E fire new Background authorization
                 w5 s e Hl5 He).
      eexists. exists []. split; [done |].
      destruct (Hfin (add_event (CallProcessWRP new authorization) w5) [])
        as (? & ? & ?).
      { simpl. by rewrite sends_app. }
      { simpl. by rewrite dial_calls_app, app_nil_r. }
      { simpl. by rewrite close_calls_app. }
      split; [done |]. split; [done |].
      split; [by intros l ?%elem_of_nil |].
      split; [done |]. split; [done |]. split.
      { intros m Hm. change (table (add_event _ w5) m) with (table w5 m).
        rewrite Htab5. by rewrite decide_False. }
      split; [exact Hold5 |].
      left. change (table (add_event _ w5) name) with (table w5 name).
      rewrite Htab5, decide_True by done. split; [done |].
      intros Hc. change (closed w5 new) in Hc.
      destruct Hc as (s' & Hs' & Hnone). rewrite Hl5 in Hs'.
      by injection Hs' as <-. }
    destruct (Socket_Send sk) as [[e |] sk'] eqn:Hk.
    + rewrite (ProcessWRP_send_failed E fire new Background authorization
                 w5 s buf sk e sk' Hl5 He eq_refl Hk).
      rewrite bind_eq.
      set (w6 := add_event (SockSend new buf)
                   (add_event (CallProcessWRP new authorization) w5)).
      assert (Hl6 : heap w6 !! new = Some (RealSender s)) by done.
      assert (Hown : forall n, RemoveFromMap n ∈ onClose s -> n = name).
      { intros n. unfold s. simpl. rewrite (New_onClose _ _ HN).
        by apply plain_listeners. }
      assert (Hq : forall n l', RemoveFromMap n ∈ onClose s ->
        table (torn new s w6) n = Some l' -> quiet (torn new s w6) l').
      { intros n l' Hin Ht. rewrite (Hown n Hin) in Ht.
        change (table (torn new s w6) name) with (table w5 name) in Ht.
        rewrite Htab5, decide_True in Ht by done. injection Ht as <-.
        by apply quiet_torn. }
      destruct (visit_quiet (onClose s)
        (errs.Join [Some e; Some ErrFailedToSend]) (torn new s w6) Hfree5 Hq)
        as (w' & -> & Hfree' & Hheap' & Htab' & Hs' & Hd' & cs & Hc' & Hcs).
      exists w', cs. split; [done |].
      destruct (Hfin w' cs) as (? & ? & ?).
      { rewrite Hs'. simpl. rewrite !sends_app. simpl.
        by rewrite !app_nil_r. }
      { rewrite Hd'. simpl. rewrite !dial_calls_app. simpl.
        by rewrite !app_nil_r. }
      { rewrite Hc'. simpl. rewrite !close_calls_app. simpl.
        by rewrite !app_nil_r. }
      split; [done |]. split; [done |]. split.
      { intros l Hl. destruct (Hcs l Hl) as (n & Hin & Ht).
        rewrite (Hown n Hin) in Ht.
        change (table (torn new s w6) name) with (table w5 name) in Ht.
        rewrite Htab5, decide_True in Ht by done. congruence. }
      split; [done |]. split; [done |]. split.
      { intros m Hm. rewrite Htab'. rewrite decide_False.
        - change (table (torn new s w6) m) with (table w5 m).
          rewrite Htab5. by rewrite decide_False.
        - intros Hin. by apply Hm, Hown. }
      split.
      { intros l Hl. rewrite Hheap'. unfold torn. simpl.
        rewrite list_lookup_insert_ne by lia. by apply Hold5. }
      right. split.
      * rewrite Htab'. rewrite decide_True; [done |].
        unfold s. simpl. rewrite (New_onClose _ _ HN), option_listeners_app.
        apply elem_of_app. right. simpl. by left.
      * exists (set_sock s None). split; [| done].
        rewrite Hheap'. unfold torn. simpl.
        by rewrite list_lookup_insert_eq.
    + rewrite (ProcessWRP_sent E fire new Background authorization
                 w5 s buf sk sk' Hl5 He eq_refl Hk).
      eexists. exists []. split; [done |].
      match goal with |- context [locked ?w0 = false] => set (w' := w0) end.
      destruct (Hfin w' []) as (? & ? & ?).
      { unfold w'. simpl. rewrite !sends_app. simpl.
        by rewrite !app_nil_r. }
      { unfold w'. simpl. rewrite !dial_calls_app. simpl.
        by rewrite !app_nil_r. }
      { unfold w'. simpl. rewrite !close_calls_app. simpl.
        by rewrite !app_nil_r. }
      split; [done |]. split; [done |].
      split; [by intros l ?%elem_of_nil |].
      split; [done |]. split; [done |]. split.
      { intros m Hm. change (table w' m) with (table w5 m).
        rewrite Htab5. by rewrite decide_False. }
      split.
      { intros l Hl. unfold w'. simpl.
        rewrite list_lookup_insert_ne by lia. by apply Hold5. }
      left. change (table w' name) with (table w5 name).
      rewrite Htab5, decide_True by done. split; [done |].
      intros (s' & Hs' & Hnone). unfold w' in Hs'. simpl in Hs'.
      rewrite list_lookup_insert_eq in Hs' by done.
      by injection Hs' as <-.
  - subst factory. assert (Hl5 : heap w5 !! new = Some (MockSender m)).
    { by rewrite Hheap5. }
    rewrite (ProcessWRP_mock E fire new Background authorization w5 m Hl5).
    eexists. exists []. split; [done |].
    match goal with |- context [locked ?w0 = false] => set (w' := w0) end.
    destruct (Hfin w' []) as (? & ? & ?).
    { unfold w'. simpl. by rewrite !sends_app. }
    { unfold w'. simpl. by rewrite !dial_calls_app, app_nil_r. }
    { unfold w'. simpl. by rewrite !close_calls_app. }
    split; [done |]. split; [done |].
    split; [by intros l ?%elem_of_nil |].
    split; [done |]. split; [done |]. split.
    { intros m' Hm. change (table w' m') with (table w5 m').
      rewrite Htab5. by rewrite decide_False. }
    split.
    { intros l Hl. unfold w'. simpl.
      rewrite list_lookup_insert_ne by lia. by apply Hold5. }
    left. change (table w' name) with (table w5 name).
    rewrite Htab5, decide_True by done. split; [done |].
    intros (s' & Hs' & Hnone). unfold w' in Hs'. simpl in Hs'.
    by rewrite list_lookup_insert_eq in Hs'.
Qed.

(** The same with [sender.New], a peer that accepts the connection and
    takes the authorization message: the world [Upsert] leaves. *)
Lemma Upsert_connects name opts w s0 sk buf sk' :
  locked w = false ->
  table w name = None ->
  New (opts ++ [WithCloseListener (RemoveFromMap name)]) = inr s0 ->
  dialNewSocket E (url s0) (sendDeadline s0) = inr sk ->
  encode E authorization = inr buf ->
  Socket_Send sk = (None, sk') ->
  exists w',
    Upsert E name opts w = Returns None w' /\
    locked w' = false /\
    (forall m, table w' m =
       if decide (name = m) then Some (length (heap w)) else table w m) /\
    heap w' = heap w ++ [RealSender (set_sock s0 (Some sk'))] /\
    trace w' =
      trace w ++ [CallDial (length (heap w));
                  CallProcessWRP (length (heap w)) authorization;
                  SockSend (length (heap w)) buf].
Proof.
  intros Hfree Hex HN Hdial He Hk.
  set (new := length (heap w)).
  set (w1 := set_heap (heap w ++ [RealSender s0]) w).
  assert (Hb : build factoryNew
    (opts ++ [WithCloseListener (RemoveFromMap name)]) w
    = Returns (inr new) w1).
  { unfold build. by rewrite HN. }
  assert (Hl1 : heap w1 !! new = Some (RealSender s0)).
  { unfold w1, new. simpl. by rewrite list_lookup_middle. }
  assert (Hclosed : sock s0 = None) by by eapply New_unconnected.
  pose proof (Dial_accepted E new w1 s0 sk Hl1 Hclosed Hdial) as Hd.
  unfold Upsert.
  rewrite (upsert_dialled _ _ _ _ _ _ _ _ Hb Hd) by done.
  match type of Hd with _ = Returns None ?w0 => set (w2 := w0) in * end.
  set (w3 := ensure_map (set_locked true w2)).
  assert (Htab2 : forall m, table w2 m = table w m) by done.
  rewrite Htab2, Hex, bind_eq.
  unfold ret at 1. rewrite bind_eq. unfold modify at 1.
  rewrite bind_eq. unfold Unlock, modify.
  set (w5 := set_locked false _).
  assert (Hheap5 : heap w5 = heap w ++ [RealSender (set_sock s0 (Some sk))]).
  { unfold w5, w3. simpl. rewrite heap_ensure_map. unfold w2, w1, new. simpl.
    rewrite insert_app_r_alt by lia. by rewrite Nat.sub_diag. }
  assert (Htab5 : forall m,
    table w5 m = if decide (name = m) then Some new else table w m).
  { intros m. rewrite <- Htab2.
    by apply (table_install (set_locked true w2) w5). }
  assert (Htr5 : trace w5 = trace w ++ [CallDial new]).
  { unfold w5, w3. simpl. by rewrite trace_ensure_map. }
  assert (Hl5 : heap w5 !! new = Some (RealSender (set_sock s0 (Some sk)))).
  { rewrite Hheap5. unfold new. by rewrite list_lookup_middle. }
  assert (Hfree5 : locked w5 = false) by done.
  clearbody w5.
  rewrite bind_eq.
  rewrite (ProcessWRP_sent E fire new Background authorization
             w5 _ buf sk sk' Hl5 He eq_refl Hk).
  eexists. split; [done |]. split; [done |]. split; [exact Htab5 |]. split.
  - simpl. rewrite Hheap5. unfold new.
    rewrite insert_app_r_alt by lia. by rewrite Nat.sub_diag.
  - simpl. rewrite Htr5. by rewrite <- !app_assoc.
Qed.

(** Looking a destination up. *)
Lemma unicast_lookup ctx msg w dest target :
  wrp.Type_ msg <> wrp.ServiceAliveMessageType ->
  locked w = false ->
  ParseLocator E (wrp.To msg) = inr dest ->
  table w (wrp.Service dest) = Some target ->
  senderMap_ProcessWRP E ctx msg w = ProcessWRP E fire target ctx msg w.
Proof.
  intros Htype Hfree Hdest Hname. unfold senderMap_ProcessWRP.
  apply Z.eqb_neq in Htype. rewrite Htype, Hdest.
  rewrite bind_eq. unfold RLock. rewrite Hfree.
  rewrite bind_eq. unfold get at 1. rewrite bind_eq. unfold RUnlock, ret at 1.
  by rewrite Hname.
Qed.

(** *** A connection that fails *)

(** X: the sender map prunes itself.  In a world the sender map has
    reached, a message for a name whose sender is connected, and whose
    socket refuses the frame with [e]: the caller is given [e] (or the
    error of a context that is done); the sender is closed, its entry is
    removed, the other entries stay, and the lock is free again. *)
Theorem unicast_failure_prunes ctx msg w dest l s sk buf e sk' :
  reachable E w ->
  wrp.Type_ msg <> wrp.ServiceAliveMessageType ->
  ParseLocator E (wrp.To msg) = inr dest ->
  table w (wrp.Service dest) = Some l ->
  heap w !! l = Some (RealSender s) ->
  sock s = Some sk ->
  encode E msg = inr buf ->
  Socket_Send sk = (Some e, sk') ->
  exists w',
    senderMap_ProcessWRP E ctx msg w = Returns (select ctx (Some e)) w' /\
    table w' (wrp.Service dest) = None /\
    (forall m, m <> wrp.Service dest -> table w' m = table w m) /\
    closed w' l /\
    (forall l', l' <> l -> heap w' !! l' = heap w !! l') /\
    sends (trace w') = sends (trace w) ++ [(l, msg)] /\
    locked w' = false.
Proof.
  intros Hw Htype Hdest Hname Hl Hs He Hk.
  destruct (reachable_well_formed _ _ Hw) as (Hfree & Halloc & Hself).
  destruct (reachable_armed_one_name _ _ Hw) as [Harmed _].
  rewrite (unicast_lookup ctx msg w dest l Htype Hfree Hdest Hname).
  rewrite (ProcessWRP_send_failed E fire l ctx msg w s buf sk e sk'
             Hl He Hs Hk).
  rewrite bind_eq.
  set (w6 := add_event (SockSend l buf) (add_event (CallProcessWRP l msg) w)).
  assert (Hown : forall n, RemoveFromMap n ∈ onClose s ->
            n = wrp.Service dest).
  { intros n Hin. by eapply Hself. }
  assert (Hq : forall n l', RemoveFromMap n ∈ onClose s ->
    table (torn l s w6) n = Some l' -> quiet (torn l s w6) l').
  { intros n l' Hin Ht. rewrite (Hown n Hin) in Ht.
    change (table (torn l s w6) (wrp.Service dest))
      with (table w (wrp.Service dest)) in Ht.
    rewrite Hname in Ht. injection Ht as <-. by apply quiet_torn. }
  destruct (visit_quiet (onClose s)
    (errs.Join [Some e; Some ErrFailedToSend]) (torn l s w6) Hfree Hq)
    as (w' & -> & Hfree' & Hheap' & Htab' & Hs' & _ & _).
  exists w'. split; [done |]. split; [| split; [| split; [| split; [| split]]]].
  - rewrite Htab', decide_True; [done |]. by eapply Harmed.
  - intros m Hm. rewrite Htab', decide_False; [done |].
    intros Hin. by apply Hm, Hown.
  - exists (set_sock s None). split; [| done].
    rewrite Hheap'. unfold torn. simpl.
    rewrite list_lookup_insert_eq; [done |]. by eapply lookup_lt_Some.
  - intros l' Hne. rewrite Hheap'. unfold torn. simpl.
    by rewrite list_lookup_insert_ne.
  - rewrite Hs'. simpl. rewrite !sends_app. simpl. by rewrite !app_nil_r.
  - done.
Qed.

(** *** Remove *)

(** X: [Remove] is idempotent.  From outside the lock, [Remove] of a name
    whose sender, if there is one, is a mock or has no socket returns nil,
    frees the name and leaves the other names and the senders as they are;
    [Remove] of a name that has no entry, the nil map included, returns
    nil and changes nothing. *)
Theorem Remove_idempotent name w :
  locked w = false ->
  (forall l, table w name = Some l -> quiet w l) ->
  exists w',
    Remove name w = Returns None w' /\
    table w' name = None /\
    (forall m, m <> name -> table w' m = table w m) /\
    heap w' = heap w /\
    Remove name w' = Returns None w'.
Proof.
  intros Hfree Hq.
  destruct (Remove_quiet name w Hfree Hq)
    as (w' & Hr & Hfree' & Hheap' & Hsenders' & _).
  exists w'. split; [done |].
  assert (Hgone : table w' name = None).
  { rewrite (table_delete w w' name name Hsenders'). by rewrite decide_True. }
  split; [done |]. split; [| split; [done |]].
  - intros m Hm. rewrite (table_delete w w' name m Hsenders').
    by rewrite decide_False.
  - unfold Remove. rewrite Remove_S, bind_eq, Lock_free by done.
    rewrite bind_eq. unfold get at 1.
    change (table (set_locked true w') name) with (table w' name).
    rewrite Hgone. rewrite bind_eq. unfold Unlock, modify, ret.
    f_equal. destruct w'. simpl in *. by subst.
Qed.

(** *** Closing a connected entry *)

Lemma not_all_observers fs n :
  RemoveFromMap n ∈ fs -> forallb is_observer fs = false.
Proof.
  induction fs as [| f fs IH]; intros Hin.
  - by apply elem_of_nil in Hin.
  - apply elem_of_cons in Hin as [<- | Hin]; [done |].
    simpl. rewrite IH by done. by destruct (is_observer f).
Qed.

Lemma reachable_hot w name l :
  reachable E w ->
  table w name = Some l ->
  connected w l ->
  exists s sk,
    heap w !! l = Some (RealSender s) /\ sock s = Some sk /\
    forallb is_observer (onClose s) = false.
Proof.
  intros Hw Hname (s & sk & Hl & Hs).
  destruct (reachable_armed_one_name _ _ Hw) as [Harmed _].
  exists s, sk. split; [done |]. split; [done |].
  by eapply not_all_observers, Harmed.
Qed.

(** X: the table's lock is taken twice.  In a world the sender map has
    reached, let a name hold a connected sender.  [Remove] of this name,
    and [upsert] of this name once the new sender is built and dialled, do
    not return: they close the sender with the lock held, and the close
    listener of the sender waits for the lock.  The sender is closed, the
    entry is still there and the lock stays held. *)
Theorem closing_connected_entry_blocks w name l :
  reachable E w ->
  table w name = Some l ->
  connected w l ->
  (exists w',
     Remove name w = Blocked w' /\
     closed w' l /\ table w' name = Some l /\ locked w' = true) /\
  (forall opts factory new w1 w2,
     build factory (opts ++ [WithCloseListener (RemoveFromMap name)]) w
       = Returns (inr new) w1 ->
     Dial E new w1 = Returns None w2 ->
     exists w',
       upsert E name opts factory w = Blocked w' /\
       closed w' l /\ table w' name = Some l /\ locked w' = true).
Proof.
  intros Hw Hname Hconn.
  destruct (reachable_well_formed _ _ Hw) as (Hfree & _ & _).
  destruct (reachable_hot _ _ _ Hw Hname Hconn) as (s & sk & Hl & Hs & Hobs).
  split.
  - by eapply Remove_blocks.
  - intros opts factory new w1 w2 Hb Hd. by eapply upsert_blocks.
Qed.

(** *** senderMap.Close *)

Lemma close_all_quiet ls w :
  (forall l, l ∈ ls -> quiet w l) ->
  close_all ls w = Returns tt (add_events (CallClose <$> ls) w).
Proof.
  revert w. induction ls as [| l ls IH]; intros w Hq.
  - by rewrite sender_life.add_events_nil.
  - simpl. rewrite bind_eq.
    rewrite Close_noop by (apply quiet_noop, Hq; by left).
    rewrite IH.
    + unfold add_events, add_event. simpl. by rewrite <- app_assoc.
    + intros l' Hl'. apply (Hq l'). by right.
Qed.

Lemma close_all_blocks ls w :
  locked w = true ->
  (forall l, l ∈ ls ->
     quiet w l \/
     exists s sk, heap w !! l = Some (RealSender s) /\ sock s = Some sk /\
       forallb is_observer (onClose s) = false) ->
  (exists l, l ∈ ls /\ connected w l) ->
  exists w', close_all ls w = Blocked w' /\ locked w' = true.
Proof.
  revert w. induction ls as [| l ls IH]; intros w Hheld Hall (l0 & Hin & Hc).
  { by apply elem_of_nil in Hin. }
  simpl. rewrite bind_eq.
  destruct (Hall l ltac:(by left)) as [Hq | (s & sk & Hl & Hs & Hobs)].
  - rewrite Close_noop by by apply quiet_noop.
    apply IH.
    + done.
    + intros l' Hl'. apply (Hall l'). by right.
    + exists l0. split; [| done].
      apply elem_of_cons in Hin as [-> | Hin]; [| done].
      destruct Hc as (s & sk & Hl & Hs). unfold quiet in Hq.
      rewrite Hl in Hq. congruence.
  - destruct (Close_blocks l w s sk Hheld Hl Hs Hobs)
      as (w' & -> & _ & _ & Hheld').
    by exists w'.
Qed.

(** X: [senderMap.Close] when no entry is connected (the entries are
    mocks or senders that have lost their socket), from outside the lock:
    it returns nil; the [Close] calls it has made are on the senders of
    the table as it was: every sender of an entry was closed and no
    other, with as many calls as entries, and no sender twice when no
    sender is registered under two names; the map is nil afterwards, the
    lock is free, the senders are as they were and nothing was sent. *)
Theorem senderMap_Close_clears w :
  locked w = false ->
  (forall name l, table w name = Some l -> quiet w l) ->
  exists w' ls,
    senderMap_Close w = Returns None w' /\
    senders w' = None /\
    locked w' = false /\
    heap w' = heap w /\
    close_calls (trace w') = close_calls (trace w) ++ ls /\
    (forall l, l ∈ ls <-> exists name, table w name = Some l) /\
    length ls = registered w /\
    (one_name w -> NoDup ls) /\
    sends (trace w') = sends (trace w).
Proof.
  intros Hfree Hq. unfold senderMap_Close.
  rewrite bind_eq, Lock_free by done.
  rewrite bind_eq. unfold get at 1. rewrite bind_eq.
  change (snapshot (set_locked true w)) with (snapshot w).
  rewrite close_all_quiet.
  2:{ intros l Hl. apply snapshot_table in Hl as (name & Hname).
      by apply (Hq name). }
  rewrite bind_eq. unfold modify at 1. rewrite bind_eq.
  unfold Unlock, modify, ret.
  eexists. exists (snapshot w). split; [reflexivity |]. simpl.
  split; [done |]. split; [done |]. split; [done |].
  assert (Hcalls : forall ls, close_calls (CallClose <$> ls) = ls).
  { induction ls as [| x ls IH]; [done |]. simpl. f_equal. exact IH. }
  assert (Hsends : forall ls : list nat, sends (CallClose <$> ls) = []).
  { induction ls as [| x ls IH]; [done |]. done. }
  split; [| split; [| split; [| split]]].
  - rewrite close_calls_app. f_equal. apply Hcalls.
  - apply snapshot_members.
  - apply snapshot_length.
  - apply snapshot_NoDup.
  - rewrite sends_app. etrans; [| apply app_nil_r]. f_equal. apply Hsends.
Qed.

(** [senderMap.Close] with a connected entry does not return. *)
Lemma senderMap_Close_waits w name l :
  reachable E w ->
  table w name = Some l ->
  connected w l ->
  exists w', senderMap_Close w = Blocked w' /\ locked w' = true.
Proof.
  intros Hw Hname Hconn.
  destruct (reachable_well_formed _ _ Hw) as (Hfree & Halloc & _).
  unfold senderMap_Close.
  rewrite bind_eq, Lock_free by done.
  rewrite bind_eq. unfold get at 1. rewrite bind_eq.
  change (snapshot (set_locked true w)) with (snapshot w).
  destruct (close_all_blocks (snapshot w) (set_locked true w))
    as (w' & -> & Hheld); [done | | | by exists w'].
  - intros l' Hl'. apply snapshot_table in Hl' as (n & Hn).
    pose proof (Halloc _ _ Hn) as Hlt.
    apply lookup_lt_is_Some in Hlt as [o Ho].
    destruct o as [s | m].
    + destruct (sock s) as [sk |] eqn:Hs.
      * right.
        destruct (reachable_hot w n l' Hw Hn) as (s1 & sk1 & H1 & H2 & H3).
        { by exists s, sk. }
        by exists s1, sk1.
      * left. unfold quiet. simpl. by rewrite Ho.
    + left. unfold quiet. simpl. by rewrite Ho.
  - exists l. split; [by eapply snapshot_complete | done].
Qed.

End WithCollaborators.

End sendermap_life.

(** ** The receiver: its loop, its options, Listen *)

Module receiver_life.
Import receiver notions receiver_facts.

Section Loop.
Variable decode : list byte -> error + wrp.Message.

Lemma receive_benign turns rest :
  Forall benign turns ->
  receive decode false (turns ++ rest) =
  (decoded decode turns ++ (receive decode false rest).1,
   (receive decode false rest).2).
Proof.
  induction 1 as [| t turns Ht _ IH].
  { simpl. by destruct (receive decode false rest). }
  simpl. unfold benign in Ht.
  destruct (recv t) as [e | [b |]]; simpl; [| | done].
  - simpl in Ht. rewrite Ht. exact IH.
  - destruct (decode b) as [e | msg]; [exact IH |].
    rewrite IH. done.
Qed.

(** X: the loop while its context is live.  It hands the message
    listeners the frames that decode, in the order they were received; a
    frame that does not decode and a receive that times out are skipped
    and the loop goes on.  It ends at the first receive that fails
    otherwise, with that error, or that gives neither bytes nor an error,
    with nil; [wrapper] then stops the receiver and tells every close
    listener once, with that error. *)
Theorem receive_live r turns :
  (Forall benign turns ->
     receive decode false turns = (decoded decode turns, None) /\
     wrapper decode r turns = None) /\
  (forall pre t post,
     turns = pre ++ t :: post ->
     Forall benign pre ->
     ~ benign t ->
     receive decode false turns = (decoded decode pre, Some (fatal t)) /\
     wrapper decode r turns = Some (set_cancel false r, notify r (fatal t))).
Proof.
  split.
  - intros Hall. pose proof (receive_benign turns [] Hall) as Hr.
    rewrite !app_nil_r in Hr. simpl in Hr.
    split; [done |]. unfold wrapper. by rewrite Hr.
  - intros pre t post -> Hpre Ht.
    assert (Hr : receive decode false (pre ++ t :: post)
                 = (decoded decode pre, Some (fatal t))).
    { rewrite (receive_benign pre (t :: post) Hpre).
      assert (Hend : receive decode false (t :: post) = ([], Some (fatal t))).
      { simpl. unfold benign in Ht. unfold fatal.
        destruct (recv t) as [e | [b |]]; simpl.
        - simpl in Ht.
          destruct (is_ e ErrRecvTimeout) eqn:He; [by destruct Ht | done].
        - by destruct Ht.
        - done. }
      rewrite Hend. simpl. by rewrite app_nil_r. }
    split; [done |]. unfold wrapper. by rewrite Hr.
Qed.

(** *** Listen and Close *)

(** X: [Listen] and [Close] undo each other.  [Listen] on a receiver that
    is not running opens a socket at the URL and with the timeout of the
    receiver; if that fails the receiver is left as it was.  While the
    receiver runs, [Listen] returns nil without opening a socket.  Once
    the loop takes the cancellation [Close] returns nil and the receiver
    is as before [Listen], so that [Listen] starts it again. *)
Theorem Listen_Close newSocket r :
  cancel r = false ->
  (forall e, newSocket (url r) (timeout r) = Some e ->
     Listen newSocket r = (Some e, r)) /\
  (newSocket (url r) (timeout r) = None ->
     Listen newSocket r = (None, set_cancel true r) /\
     (forall newSocket',
        Listen newSocket' (set_cancel true r) = (None, set_cancel true r)) /\
     (forall turns t, takeDone t = true ->
        exists term,
          Close decode (set_cancel true r) (turns ++ [t])
            = Some (None, r, notify r term))).
Proof.
  intros Hstopped. split.
  - intros e He. unfold Listen. by rewrite Hstopped, He.
  - intros Hok. split; [| split].
    + unfold Listen. by rewrite Hstopped, Hok.
    + done.
    + intros turns t Ht.
      destruct (receive_stops decode turns t Ht) as (ms & term & Hr).
      exists term. unfold Close. simpl. rewrite Hr.
      destruct r. simpl in *. by subst.
Qed.

End Loop.

(** *** receiver.New *)

Lemma foldl_apply_None opts :
  foldl (fun c opt => c ≫= apply opt) None opts = None.
Proof. by induction opts. Qed.

Lemma foldl_apply_nil opts c :
  rx_nil opts = true ->
  foldl (fun c opt => c ≫= apply opt) (Some c) opts = None.
Proof.
  revert c. induction opts as [| opt opts IH]; intros c Hnil; [done |].
  destruct opt; simpl in *;
    try (destruct (0 <=? _)%Z); try apply IH; try done.
  apply foldl_apply_None.
Qed.

Lemma foldl_apply_spec opts c :
  rx_nil opts = false ->
  foldl (fun c opt => c ≫= apply opt) (Some c) opts =
  Some {| rcv :=
            {| url := default (url (rcv c))
                 (last (omap (fun opt => match opt with
                                         | WithURL u => Some u
                                         | _ => None
                                         end) opts));
               timeout := default (timeout (rcv c))
                 (last (omap (fun opt => match opt with
                                         | WithRecvTimeout t =>
                                             if (0 <=? t)%Z then Some t
                                             else None
                                         | _ => None
                                         end) opts));
               onFailure := onFailure (rcv c) ++ rx_listeners opts;
               cancel := cancel (rcv c) |};
          onMsg := onMsg c ++ rx_handlers opts |}.
Proof.
  revert c. induction opts as [| opt opts IH]; intros c Hnil.
  - simpl. rewrite !app_nil_r. by destruct c as [[]].
  - destruct opt as [u | t | m | f |]; simpl in Hnil; [| | | | done].
    + simpl. rewrite IH by done. simpl. rewrite last_cons.
      by repeat destruct (last _).
    + simpl. destruct (0 <=? t)%Z; simpl.
      * rewrite IH by done. simpl. rewrite last_cons.
        by repeat destruct (last _).
      * by rewrite IH.
    + simpl. rewrite IH by done. simpl. by rewrite <- app_assoc.
    + simpl. rewrite IH by done. simpl. by rewrite <- app_assoc.
Qed.

Lemma rx_timeout_nonneg opts : (0 <= rx_timeout opts)%Z.
Proof.
  unfold rx_timeout.
  destruct (last _) as [t |] eqn:Hlast; simpl; [| done].
  apply last_Some_elem_of, list_elem_of_omap in Hlast as (opt & _ & Hopt).
  destruct opt as [u | t' | m | f |]; try done.
  destruct (0 <=? t')%Z eqn:Hpos; [| done].
  injection Hopt as <-. by apply Z.leb_le in Hpos.
Qed.

(** X: [receiver.New] by its options.  A nil option makes [New] panic (it
    is applied as the others are).  Otherwise the last [WithURL] decides:
    [New] fails with "url is required" exactly when there is none or it is
    empty; the receiver has that URL, the last timeout that is not
    negative (a negative one is ignored), which is never negative, the
    handlers and the listeners of the options in their order, and is not
    running. *)
Theorem receiver_New_by_options opts :
  New opts =
    (if rx_nil opts then None
     else Some
       (if decide (rx_url opts = "") then inl errURLRequired
        else inr {| rcv := {| url := rx_url opts;
                              timeout := rx_timeout opts;
                              onFailure := rx_listeners opts;
                              cancel := false |};
                    onMsg := rx_handlers opts |})) /\
  (0 <= rx_timeout opts)%Z.
Proof.
  split; [| apply rx_timeout_nonneg].
  unfold New. destruct (rx_nil opts) eqn:Hnil.
  - by rewrite foldl_apply_nil.
  - rewrite foldl_apply_spec by done. simpl.
    fold (rx_url opts). fold (rx_timeout opts).
    destruct (String.eqb (rx_url opts) "") eqn:Heq.
    + apply nng_facts.eqb_empty in Heq. by rewrite decide_True.
    + rewrite decide_False; [done |].
      intros Hempty. apply nng_facts.eqb_empty in Hempty. congruence.
Qed.

End receiver_life.

(** ** The server *)

Module server_facts.
Import nng notions nng_facts nng_invariant server.
Local Open Scope go_scope.

#[local] Arguments Remove_ : simpl never.
#[local] Arguments visitOnClose : simpl never.

(** *** The chain, for processors that may not return *)

(** On processors that return, the chain is that of stopping.go. *)
Lemma Processors_ProcessWRP_lift
    (p : @stopping.Processors World Context) ctx msg w :
  Processors_ProcessWRP (lift_all p) ctx msg w =
  Returns (stopping.ProcessWRP (fun ctx _ => Err ctx) p ctx msg w).1
          (stopping.ProcessWRP (fun ctx _ => Err ctx) p ctx msg w).2.
Proof.
  revert w. induction p as [| proc rest IH]; intros w; [done |].
  simpl. destruct (Err ctx) as [e |]; [done |].
  destruct proc as [f |]; simpl; [| apply IH].
  rewrite bind_eq. unfold lift at 1.
  destruct (f ctx msg w) as [err w1].
  destruct (errs.Is err ErrNotHandled); [apply IH | done].
Qed.

Lemma chain_done p ctx msg w e :
  Err ctx = Some e ->
  Processors_ProcessWRP (p : list (option Processor)) ctx msg w =
  Returns (Some (match p with [] => ErrNotHandled | _ => e end)) w.
Proof. intros He. destruct p; simpl; [done |]. by rewrite He. Qed.

Lemma chain_call f rest ctx msg w :
  Err ctx = None ->
  Processors_ProcessWRP (Some f :: rest) ctx msg w =
  (err <- f ctx msg ;;
   if errs.Is err ErrNotHandled
   then Processors_ProcessWRP rest ctx msg
   else ret err) w.
Proof. intros Hlive. simpl. by rewrite Hlive. Qed.

Lemma chain_pure f rest ctx msg w :
  Err ctx = None ->
  Processors_ProcessWRP (Some (ProcessorFunc f) :: rest) ctx msg w =
  if errs.Is (f msg) ErrNotHandled
  then Processors_ProcessWRP rest ctx msg w
  else Returns (f msg) w.
Proof.
  intros Hlive. rewrite chain_call by done.
  rewrite bind_eq. unfold ProcessorFunc, ret.
  by destruct (errs.Is (f msg) ErrNotHandled).
Qed.

(** *** The filters *)

Lemma unsupported_passes B m :
  supported B (wrp.Type_ m) = true ->
  filters.ErrorOnUnsupportedMsgTypes B m = Some ErrNotHandled.
Proof.
  unfold supported, filters.ErrorOnUnsupportedMsgTypes.
  by destruct (_ || _).
Qed.

Lemma unsupported_stops B m :
  supported B (wrp.Type_ m) = false ->
  filters.ErrorOnUnsupportedMsgTypes B m =
    Some (joinError [filters.invalidType (wrp.Type_ m);
                     filters.ErrUnsupported]) /\
  errs.Is (Some (joinError [filters.invalidType (wrp.Type_ m);
                            filters.ErrUnsupported])) ErrNotHandled = false /\
  errs.Is (Some (joinError [filters.invalidType (wrp.Type_ m);
                            filters.ErrUnsupported])) filters.ErrUnsupported
    = true.
Proof.
  unfold supported, filters.ErrorOnUnsupportedMsgTypes.
  destruct (_ || _); [| done]. intros _. done.
Qed.

Lemma local_passes m :
  local (wrp.Type_ m) = false ->
  filters.ErrorOnLocalMsgTypes m = Some ErrNotHandled.
Proof.
  unfold local, filters.ErrorOnLocalMsgTypes. by destruct (_ || _).
Qed.

Lemma local_stops m :
  local (wrp.Type_ m) = true ->
  filters.ErrorOnLocalMsgTypes m = Some filters.ErrLocalDisallowed.
Proof.
  unfold local, filters.ErrorOnLocalMsgTypes. by destruct (_ || _).
Qed.

Lemma local_not_alive m :
  local (wrp.Type_ m) = false ->
  wrp.Type_ m <> wrp.ServiceAliveMessageType /\
  wrp.Type_ m <> wrp.ServiceRegistrationMessageType /\
  wrp.Type_ m <> wrp.AuthorizationMessageType.
Proof.
  unfold local. intros H. repeat split; intros Heq; rewrite Heq in H; done.
Qed.

Lemma Is_NotHandled : errs.Is (Some ErrNotHandled) ErrNotHandled = true.
Proof. reflexivity. Qed.

Lemma Is_LocalDisallowed :
  errs.Is (Some filters.ErrLocalDisallowed) ErrNotHandled = false.
Proof. reflexivity. Qed.

Lemma Is_InvalidMsg : errs.Is (Some errInvalidMsg) ErrNotHandled = false.
Proof. reflexivity. Qed.

Section Chains.
Variable E : Collaborators.
Variable B : filters.Bounds.
Variable rxObservers : Context -> wrp.Message -> M unit.
Variable txObservers : Context -> wrp.Message -> M unit.
Variable egress : Context -> wrp.Message -> M unit.
Variable ObserverAsProcessor :
  (Context -> wrp.Message -> M unit) -> Processor.

Abbreviation ProcessWRP :=
  (Server_ProcessWRP E B txObservers ObserverAsProcessor).
Abbreviation received :=
  (server.received E B rxObservers egress ObserverAsProcessor).

(** *** [Server.ProcessWRP]: towards the network *)

(** X: what [Server.ProcessWRP] refuses.  Under a context that is done it
    returns the error of the context.  Otherwise a message whose type is
    out of range or invalid is refused with an error that is
    [ErrUnsupported], and a message of a local type (Authorization,
    ServiceRegistration, ServiceAlive) with [ErrLocalDisallowed].  In the
    three cases nothing has happened: no observer was called, no sender
    was looked up and nothing was sent; in particular a caller cannot make
    the server broadcast. *)
Theorem Server_ProcessWRP_refuses ctx msg w :
  (forall e, Err ctx = Some e -> ProcessWRP ctx msg w = Returns (Some e) w) /\
  (Err ctx = None ->
   supported B (wrp.Type_ msg) = false ->
     ProcessWRP ctx msg w =
       Returns (Some (joinError [filters.invalidType (wrp.Type_ msg);
                                 filters.ErrUnsupported])) w /\
     errs.Is (Some (joinError [filters.invalidType (wrp.Type_ msg);
                               filters.ErrUnsupported]))
       filters.ErrUnsupported = true) /\
  (Err ctx = None ->
   supported B (wrp.Type_ msg) = true ->
   local (wrp.Type_ msg) = true ->
     ProcessWRP ctx msg w = Returns (Some filters.ErrLocalDisallowed) w).
Proof.
  unfold Server_ProcessWRP, ingressChain. split; [| split].
  - intros e He. by rewrite (chain_done _ _ _ _ e).
  - intros Hlive Hsup.
    destruct (unsupported_stops B msg Hsup) as (Hres & Hnot & His).
    split; [| done]. rewrite chain_pure by done. by rewrite Hres, Hnot.
  - intros Hlive Hsup Hloc.
    rewrite chain_pure by done.
    rewrite (unsupported_passes B msg Hsup), Is_NotHandled.
    rewrite chain_pure by done.
    by rewrite (local_stops msg Hloc), Is_LocalDisallowed.
Qed.

(** Past the two filters. *)
Lemma Server_ProcessWRP_passes ctx msg w :
  observer_passes ObserverAsProcessor ->
  Err ctx = None ->
  supported B (wrp.Type_ msg) = true ->
  local (wrp.Type_ msg) = false ->
  ProcessWRP ctx msg w =
    (txObservers ctx msg ;;
     err <- senderMap_ProcessWRP E ctx msg ;;
     ret (at_end err)) w.
Proof.
  intros Hobs Hlive Hsup Hloc.
  unfold Server_ProcessWRP, ingressChain.
  rewrite chain_pure by done.
  rewrite (unsupported_passes B msg Hsup), Is_NotHandled.
  rewrite chain_pure by done.
  rewrite (local_passes msg Hloc), Is_NotHandled.
  rewrite chain_call by done.
  rewrite !bind_eq, Hobs, bind_eq.
  destruct (txObservers ctx msg w) as [[] w1 | w1 |]; [| done | done].
  unfold ret at 1. rewrite Is_NotHandled.
  rewrite chain_call by done. rewrite !bind_eq.
  destruct (senderMap_ProcessWRP E ctx msg w1) as [err w2 | w2 |];
    [| done | done].
  unfold at_end. by destruct (errs.Is err ErrNotHandled).
Qed.

(** X: what [Server.ProcessWRP] sends.  Under a live context, a message
    of a type in range that is not local is shown to the tx observers and
    handed to the sender map, which routes it by its destination (the
    message is not a ServiceAlive, so it is never broadcast); the caller
    is given the answer of the sender map, an answer that says not-handled
    becoming [ErrNotHandled] itself. *)
Theorem Server_ProcessWRP_routes ctx msg w :
  observer_passes ObserverAsProcessor ->
  Err ctx = None ->
  supported B (wrp.Type_ msg) = true ->
  local (wrp.Type_ msg) = false ->
  wrp.Type_ msg <> wrp.ServiceAliveMessageType /\
  ProcessWRP ctx msg w =
    (txObservers ctx msg ;;
     err <- senderMap_ProcessWRP E ctx msg ;;
     ret (at_end err)) w.
Proof.
  intros Hobs Hlive Hsup Hloc.
  split; [by apply local_not_alive |].
  by apply Server_ProcessWRP_passes.
Qed.

(** *** The chain of the receiver: from the network *)

(** Up to the registration handler. *)
Lemma received_registers srv msg w :
  observer_passes ObserverAsProcessor ->
  supported B (wrp.Type_ msg) = true ->
  wrp.Type_ msg = wrp.ServiceRegistrationMessageType ->
  received srv msg w =
    (rxObservers Background msg ;;
     err <- handleRegisterMsg E srv msg ;;
     ret (if errs.Is err ErrNotHandled
          then Some filters.ErrLocalDisallowed else err)) w.
Proof.
  intros Hobs Hsup Htype.
  assert (Hloc : local (wrp.Type_ msg) = true) by by rewrite Htype.
  unfold server.received, rxChain.
  rewrite chain_call by done.
  rewrite !bind_eq, Hobs, bind_eq.
  destruct (rxObservers Background msg w) as [[] w1 | w1 |];
    [| done | done].
  unfold ret at 1. rewrite Is_NotHandled.
  rewrite chain_pure by done.
  rewrite (unsupported_passes B msg Hsup), Is_NotHandled.
  rewrite chain_call by done. rewrite !bind_eq.
  destruct (handleRegisterMsg E srv msg w1) as [err w2 | w2 |];
    [| done | done].
  destruct (errs.Is err ErrNotHandled); [| done].
  rewrite chain_pure by done.
  by rewrite (local_stops msg Hloc), Is_LocalDisallowed.
Qed.

Lemma handleRegisterMsg_valid srv msg :
  wrp.Type_ msg = wrp.ServiceRegistrationMessageType ->
  wrp.ServiceName msg <> "" ->
  wrp.URL msg <> "" ->
  handleRegisterMsg E srv msg =
  Upsert E (wrp.ServiceName msg) (sOpts srv ++ [WithURL (wrp.URL msg)]).
Proof.
  intros Htype Hname Hurl. unfold handleRegisterMsg.
  rewrite Htype, Z.eqb_refl. simpl negb. cbv iota.
  assert (Hor : String.eqb (wrp.ServiceName msg) ""
                || String.eqb (wrp.URL msg) "" = false).
  { apply orb_false_iff. split.
    - destruct (String.eqb (wrp.ServiceName msg) "") eqn:Hq; [| done].
      by apply eqb_empty in Hq.
    - destruct (String.eqb (wrp.URL msg) "") eqn:Hq; [| done].
      by apply eqb_empty in Hq. }
  by rewrite Hor.
Qed.

(** X: a registration that is received.  The rx observers see the
    message; if its service name or its URL is empty the chain ends with
    "invalid message"; otherwise the sender of the service is upserted
    under the service name with the URL of the message, and the chain ends
    with the answer of [Upsert] (an answer that says not-handled would be
    turned into [ErrLocalDisallowed] by the next filter).  The egress
    modifiers never see a registration. *)
Theorem received_registration srv msg w :
  observer_passes ObserverAsProcessor ->
  supported B (wrp.Type_ msg) = true ->
  wrp.Type_ msg = wrp.ServiceRegistrationMessageType ->
  (wrp.ServiceName msg = "" \/ wrp.URL msg = "" ->
     received srv msg w =
       (rxObservers Background msg ;; ret (Some errInvalidMsg)) w) /\
  (wrp.ServiceName msg <> "" ->
   wrp.URL msg <> "" ->
     received srv msg w =
       (rxObservers Background msg ;;
        err <- Upsert E (wrp.ServiceName msg)
                 (sOpts srv ++ [WithURL (wrp.URL msg)]) ;;
        ret (if errs.Is err ErrNotHandled
             then Some filters.ErrLocalDisallowed else err)) w).
Proof.
  intros Hobs Hsup Htype.
  rewrite (received_registers srv msg w Hobs Hsup Htype).
  split.
  - intros Hempty. unfold handleRegisterMsg.
    rewrite Htype, Z.eqb_refl. simpl negb. cbv iota.
    assert (Hor : String.eqb (wrp.ServiceName msg) ""
                  || String.eqb (wrp.URL msg) "" = true).
    { apply orb_true_iff. destruct Hempty as [H | H]; [left | right];
        by apply eqb_empty. }
    rewrite Hor. rewrite !bind_eq.
    destruct (rxObservers Background msg w) as [[] w1 | w1 |];
      [| done | done].
    by rewrite bind_eq.
  - intros Hname Hurl. by rewrite handleRegisterMsg_valid.
Qed.

(** X: what else is received.  The rx observers see every message.  A
    message whose type is out of range or invalid ends the chain with an
    error that is [ErrUnsupported]; an Authorization or a ServiceAlive
    message ends it with [ErrLocalDisallowed]; in both cases the egress
    modifiers are not called.  Any other message that is not a
    registration is shown to the egress modifiers and the chain ends with
    nil, whatever the modifiers did. *)
Theorem received_delivery srv msg w :
  observer_passes ObserverAsProcessor ->
  (supported B (wrp.Type_ msg) = false ->
     received srv msg w =
       (rxObservers Background msg ;;
        ret (Some (joinError [filters.invalidType (wrp.Type_ msg);
                              filters.ErrUnsupported]))) w) /\
  (supported B (wrp.Type_ msg) = true ->
   wrp.Type_ msg <> wrp.ServiceRegistrationMessageType ->
   local (wrp.Type_ msg) = true ->
     received srv msg w =
       (rxObservers Background msg ;;
        ret (Some filters.ErrLocalDisallowed)) w) /\
  (supported B (wrp.Type_ msg) = true ->
   local (wrp.Type_ msg) = false ->
     received srv msg w =
       (rxObservers Background msg ;; egress Background msg ;; ret None) w).
Proof.
  intros Hobs.
  assert (Hstart : received srv msg w =
    (rxObservers Background msg ;;
     Processors_ProcessWRP
       [Some (ProcessorFunc (filters.ErrorOnUnsupportedMsgTypes B));
        Some (fun _ msg => handleRegisterMsg E srv msg);
        Some (ProcessorFunc filters.ErrorOnLocalMsgTypes);
        Some (egressWRP egress)] Background msg) w).
  { unfold server.received, rxChain.
    rewrite chain_call by done.
    rewrite !bind_eq, Hobs, bind_eq.
    destruct (rxObservers Background msg w) as [[] w1 | w1 |];
      [| done | done].
    unfold ret at 1. by rewrite Is_NotHandled. }
  assert (Hskip : forall w1,
    wrp.Type_ msg <> wrp.ServiceRegistrationMessageType ->
    handleRegisterMsg E srv msg w1 = Returns (Some ErrNotHandled) w1).
  { intros w1 Hne. unfold handleRegisterMsg.
    apply Z.eqb_neq in Hne. by rewrite Hne. }
  rewrite Hstart. rewrite !bind_eq.
  destruct (rxObservers Background msg w) as [[] w1 | w1 |];
    [| by repeat split | by repeat split].
  split; [| split].
  - intros Hsup. destruct (unsupported_stops B msg Hsup) as (Hres & Hnot & _).
    rewrite chain_pure by done. by rewrite Hres, Hnot.
  - intros Hsup Hne Hloc.
    rewrite chain_pure by done.
    rewrite (unsupported_passes B msg Hsup), Is_NotHandled.
    rewrite chain_call by done. rewrite bind_eq, Hskip by done.
    rewrite Is_NotHandled.
    rewrite chain_pure by done.
    by rewrite (local_stops msg Hloc), Is_LocalDisallowed.
  - intros Hsup Hloc.
    destruct (local_not_alive msg Hloc) as (_ & Hne & _).
    rewrite chain_pure by done.
    rewrite (unsupported_passes B msg Hsup), Is_NotHandled.
    rewrite chain_call by done. rewrite bind_eq, Hskip by done.
    rewrite Is_NotHandled.
    rewrite chain_pure by done.
    rewrite (local_passes msg Hloc), Is_NotHandled.
    rewrite chain_call by done. unfold egressWRP. rewrite !bind_eq.
    destruct (egress Background msg w1) as [[] w2 | w2 |]; done.
Qed.

(** *** From the registration to the first message *)

(** X: a service that registers can be reached.  Let the lock be free and
    the name [name] have no entry, the observers leave the sender map
    alone, and the peer at the URL accept the connection and the frames.
    Once the registration of [name] has been received, [name] holds a
    connected sender, to which the authorization message was sent; and
    [Server.ProcessWRP] of a message for [name], of a type in range that
    is not local, returns nil under a live context, the frame of the
    message being the last thing sent on that connection. *)
Theorem registered_service_is_reachable
    srv reg ctx msg w s0 sk abuf sk1 dest buf sk2 :
  observer_passes ObserverAsProcessor ->
  bystander rxObservers ->
  bystander txObservers ->
  locked w = false ->
  table w (wrp.ServiceName reg) = None ->
  supported B (wrp.Type_ reg) = true ->
  wrp.Type_ reg = wrp.ServiceRegistrationMessageType ->
  wrp.ServiceName reg <> "" ->
  wrp.URL reg <> "" ->
  New ((sOpts srv ++ [WithURL (wrp.URL reg)])
         ++ [WithCloseListener (RemoveFromMap (wrp.ServiceName reg))])
    = inr s0 ->
  dialNewSocket E (url s0) (sendDeadline s0) = inr sk ->
  encode E authorization = inr abuf ->
  Socket_Send sk = (None, sk1) ->
  Err ctx = None ->
  supported B (wrp.Type_ msg) = true ->
  local (wrp.Type_ msg) = false ->
  ParseLocator E (wrp.To msg) = inr dest ->
  wrp.Service dest = wrp.ServiceName reg ->
  encode E msg = inr buf ->
  Socket_Send sk1 = (None, sk2) ->
  let new := length (heap w) in
  exists w1 w2,
    received srv reg w = Returns None w1 /\
    table w1 (wrp.ServiceName reg) = Some new /\
    connected w1 new /\
    url s0 = wrp.URL reg /\
    ProcessWRP ctx msg w1 = Returns None w2 /\
    sends (trace w2) =
      sends (trace w) ++ [(new, authorization); (new, msg)] /\
    last (trace w2) = Some (SockSend new buf) /\
    connected w2 new.
Proof.
  intros Hobs Hrx Htx Hfree Hname Hsupr Htype Hn Hu HN Hdial Hae Hk
    Hlive Hsup Hloc Hdest Hsvc He Hk2 new.
  (* the registration *)
  destruct (Hrx Background reg w) as (evs & Hrun & Hs1 & _ & _).
  set (wa := add_events evs w) in *.
  destruct (sendermap_life.Upsert_connects E (wrp.ServiceName reg)
              (sOpts srv ++ [WithURL (wrp.URL reg)]) wa s0 sk abuf sk1)
    as (w1 & Hup & Hfree1 & Htab1 & Hheap1 & Htr1); try done.
  assert (Hrec : received srv reg w = Returns None w1).
  { rewrite (received_registers srv reg w Hobs Hsupr Htype).
    rewrite bind_eq, Hrun. rewrite handleRegisterMsg_valid by done.
    by rewrite bind_eq, Hup. }
  assert (Hl1 : heap w1 !! new = Some (RealSender (set_sock s0 (Some sk1)))).
  { rewrite Hheap1. unfold new. by rewrite list_lookup_middle. }
  assert (Hnew1 : table w1 (wrp.ServiceName reg) = Some new).
  { rewrite Htab1. by rewrite decide_True. }
  (* the message *)
  destruct (Htx ctx msg w1) as (evs2 & Hrun2 & Hs2 & _ & _).
  set (wb := add_events evs2 w1) in *.
  assert (Hsend : senderMap_ProcessWRP E ctx msg wb =
    Returns (Err ctx)
      (set_heap (<[new := RealSender
                            (set_sock (set_sock s0 (Some sk1)) (Some sk2))]>
                   (heap wb))
         (add_event (SockSend new buf)
            (add_event (CallProcessWRP new msg) wb)))).
  { rewrite (sendermap_life.unicast_lookup E ctx msg wb dest new).
    - by eapply ProcessWRP_sent.
    - by apply local_not_alive.
    - done.
    - done.
    - by rewrite Hsvc. }
  exists w1. eexists.
  split; [done |]. split; [done |]. split.
  { by exists (set_sock s0 (Some sk1)), sk1. }
  split; [by eapply registration_url |]. split.
  { rewrite (Server_ProcessWRP_passes ctx msg w1 Hobs Hlive Hsup Hloc).
    rewrite bind_eq, Hrun2, bind_eq, Hsend. unfold ret, at_end.
    by rewrite Hlive. }
  split; [| split].
  - simpl. rewrite Htr1. simpl.
    rewrite !sends_app, Hs1, Hs2. simpl.
    rewrite !app_nil_r, <- app_assoc. done.
  - simpl. by rewrite last_snoc.
  - exists (set_sock (set_sock s0 (Some sk1)) (Some sk2)), sk2.
    split; [| done]. simpl.
    rewrite list_lookup_insert_eq; [done |]. by eapply lookup_lt_Some.
Qed.

End Chains.

(** *** NewServer *)

Lemma foldl_apply_config opts c :
  foldl (fun c opt => apply opt c) c opts =
  {| rOpts := rOpts c ++ receiver_options opts;
     heartbeatInterval :=
       default (heartbeatInterval c)
         (last (omap (fun opt => match opt with
                                 | WithHeartbeatInterval i => Some i
                                 | _ => None
                                 end) opts));
     rxObserverTags := rxObserverTags c ++ rx_observers opts;
     txObserverTags := txObserverTags c ++ tx_observers opts;
     egressTags := egressTags c ++ egress_modifiers opts |}.
Proof.
  revert c. induction opts as [| opt opts IH]; intros c.
  - simpl. rewrite !app_nil_r. by destruct c.
  - destruct opt; simpl; rewrite IH; simpl;
      rewrite ?last_cons, <- ?app_assoc; try done.
    unfold omap. by destruct (last _).
Qed.

Lemma rx_nil_receiver_options opts tail :
  rx_nil tail = false -> rx_nil (receiver_options opts ++ tail) = false.
Proof.
  intros Htail. induction opts as [| opt opts IH]; [done |].
  destruct opt; simpl; done.
Qed.

Lemma rx_listeners_receiver_options opts :
  rx_listeners (receiver_options opts) = [].
Proof. induction opts as [| opt opts IH]; [done |]. by destruct opt. Qed.

Lemma rx_handlers_receiver_options opts :
  rx_handlers (receiver_options opts) = [].
Proof. induction opts as [| opt opts IH]; [done |]. by destruct opt. Qed.

Lemma omap_snoc_none {A C} (f : A -> option C) l x :
  f x = None -> omap f (l ++ [x]) = omap f l.
Proof.
  intros Hx. rewrite omap_app. simpl. rewrite Hx. by rewrite app_nil_r.
Qed.

(** X: [NewServer] by its options.  It never panics.  The last [RXURL]
    decides: [NewServer] fails with "url is required" exactly when there
    is none or it is empty.  Otherwise the receiver listens on that URL
    with the last [RXTimeout] that is not negative, has the rx chain as
    its only message handler and no close listener (the server is not
    told when its receiver stops by itself), and is not running; the
    heartbeat interval is that of the last [WithHeartbeatInterval],
    whatever its value, and 30 seconds if there is none; the observers and
    the modifiers are those of the options, in order. *)
Theorem NewServer_by_options opts :
  let ropts := receiver_options opts in
  NewServer opts =
    Some (if decide (rx_url ropts = "") then inl errURLRequired
          else inr ({| rOpts := ropts;
                       heartbeatInterval := last_heartbeat opts;
                       rxObserverTags := rx_observers opts;
                       txObserverTags := tx_observers opts;
                       egressTags := egress_modifiers opts |},
                    {| receiver.rcv :=
                         {| receiver.url := rx_url ropts;
                            receiver.timeout := rx_timeout ropts;
                            receiver.onFailure := [];
                            receiver.cancel := false |};
                       receiver.onMsg := [chainHandler] |})).
Proof.
  intros ropts. unfold NewServer.
  change (foldl (fun c opt => apply opt c) zero
            (WithHeartbeatInterval defaultHeartbeat :: opts))
    with (foldl (fun c opt => apply opt c)
            (apply (WithHeartbeatInterval defaultHeartbeat) zero) opts).
  rewrite foldl_apply_config. simpl.
  fold ropts. fold (last_heartbeat opts).
  unfold receiver.New.
  rewrite receiver_life.foldl_apply_spec
    by by apply rx_nil_receiver_options.
  simpl.
  assert (Hurl : forall d,
    default d (last (omap (fun opt => match opt with
                                      | receiver.WithURL u => Some u
                                      | _ => None
                                      end)
                       (ropts ++ [receiver.WithModifyWRP chainHandler])))
    = default d (last (omap (fun opt => match opt with
                                        | receiver.WithURL u => Some u
                                        | _ => None
                                        end) ropts))).
  { intros d. by rewrite omap_snoc_none. }
  assert (Htime : forall d,
    default d (last (omap (fun opt => match opt with
                                      | receiver.WithRecvTimeout t =>
                                          if (0 <=? t)%Z then Some t
                                          else None
                                      | _ => None
                                      end)
                       (ropts ++ [receiver.WithModifyWRP chainHandler])))
    = default d (last (omap (fun opt => match opt with
                                        | receiver.WithRecvTimeout t =>
                                            if (0 <=? t)%Z then Some t
                                            else None
                                        | _ => None
                                        end) ropts))).
  { intros d. by rewrite omap_snoc_none. }
  assert (Hlis : rx_listeners
                   (ropts ++ [receiver.WithModifyWRP chainHandler]) = []).
  { unfold rx_listeners. rewrite omap_snoc_none by done.
    apply rx_listeners_receiver_options. }
  assert (Hhan : rx_handlers
                   (ropts ++ [receiver.WithModifyWRP chainHandler])
                 = [chainHandler]).
  { unfold rx_handlers. rewrite omap_app.
    fold (rx_handlers ropts). unfold ropts.
    by rewrite rx_handlers_receiver_options. }
  rewrite Hurl, Htime, Hlis, Hhan.
  fold (rx_url ropts). fold (rx_timeout ropts).
  destruct (String.eqb (rx_url ropts) "") eqn:Heq.
  - apply eqb_empty in Heq. by rewrite decide_True.
  - rewrite decide_False; [done |].
    intros Hempty. apply eqb_empty in Hempty. congruence.
Qed.

(** *** Start and Stop *)

(** X: [Start].  On a server that is marked started, [Start] returns nil
    and changes nothing.  Otherwise it marks the server started, starts
    one heartbeat goroutine, and returns what [Listen] returns.  If
    [Listen] fails, the server stays marked started with its heartbeat
    running and its receiver stopped: another [Start] returns nil without
    listening, whatever the network would answer. *)
Theorem Start_once newSocket s :
  (heartbeatCancel s = true -> Start newSocket s = (None, s)) /\
  (heartbeatCancel s = false ->
     heartbeatCancel (Start newSocket s).2 = true /\
     heartbeats (Start newSocket s).2 = S (heartbeats s) /\
     Start newSocket s =
       ((receiver.Listen newSocket (r s)).1, (Start newSocket s).2) /\
     r (Start newSocket s).2 = (receiver.Listen newSocket (r s)).2 /\
     (forall newSocket',
        Start newSocket' (Start newSocket s).2
          = (None, (Start newSocket s).2))) /\
  (heartbeatCancel s = false ->
   receiver.cancel (r s) = false ->
   forall e,
     newSocket (receiver.url (r s)) (receiver.timeout (r s)) = Some e ->
     (Start newSocket s).1 = Some e /\
     receiver.cancel (r (Start newSocket s).2) = false) /\
  (steady s -> steady (Start newSocket s).2).
Proof.
  unfold Start, steady. split; [| split; [| split]].
  - by intros ->.
  - intros ->. destruct (receiver.Listen newSocket (r s)). simpl. done.
  - intros -> Hstopped e He. unfold receiver.Listen.
    by rewrite Hstopped, He.
  - destruct (heartbeatCancel s) eqn:Hc; simpl; [by rewrite Hc |].
    destruct (receiver.Listen newSocket (r s)). simpl. by intros ->.
Qed.

Lemma senderMap_Close_returns w e w' :
  senderMap_Close w = Returns e w' ->
  e = None /\ senders w' = None /\ locked w' = false.
Proof.
  unfold senderMap_Close. rewrite bind_eq. unfold Lock.
  destruct (locked w); [done |].
  rewrite bind_eq. unfold get at 1. rewrite bind_eq.
  destruct (close_all _ _) as [[] w1 | w1 |]; [| done | done].
  rewrite bind_eq. unfold modify at 1. rewrite bind_eq.
  unfold Unlock, modify, ret. by intros [= <- <-].
Qed.

(** X: [Stop] when it returns.  It returns nil; the server is not marked
    started, its receiver is stopped, its heartbeat goroutine, if it had
    one, is gone, and the sender map is the nil map with its lock free.
    This holds whether or not the server had been started: [Stop] closes
    the receiver and the sender map in both cases. *)
Theorem Stop_returns decode s turns w err s' calls w' :
  Stop decode s turns w = Returns (Some (err, s', calls)) w' ->
  err = None /\
  heartbeatCancel s' = false /\
  receiver.cancel (r s') = false /\
  (steady s -> heartbeats s' = 0 /\ steady s') /\
  senders w' = None /\
  locked w' = false.
Proof.
  unfold Stop, receiver.Close.
  destruct (receiver.cancel (r s)) eqn:Hrun.
  - destruct (receiver.receive decode true turns) as [ms [term |]];
      [| done].
    rewrite bind_eq.
    destruct (senderMap_Close w) as [e2 w2 | w2 |] eqn:Hc; [| done | done].
    apply senderMap_Close_returns in Hc as (-> & Hnil & Hfree).
    unfold ret. intros [= <- <- <- <-].
    split; [done |]. split; [done |]. split; [done |].
    split; [| done].
    unfold steady. simpl. intros ->. by destruct (heartbeatCancel s).
  - rewrite bind_eq.
    destruct (senderMap_Close w) as [e2 w2 | w2 |] eqn:Hc; [| done | done].
    apply senderMap_Close_returns in Hc as (-> & Hnil & Hfree).
    unfold ret. intros [= <- <- <- <-].
    split; [done |]. split; [done |]. split; [done |].
    split; [| done].
    unfold steady. simpl. intros ->. by destruct (heartbeatCancel s).
Qed.

(** X: closing the sender map with a connected service.  In a world the
    sender map has reached, if some name holds a connected sender,
    [senderMap.Close] does not return: the lock it holds is the one the
    close listener of the sender waits for.  [Stop] then does not return
    either, although its receiver has stopped. *)
Theorem Close_and_Stop_block E decode s turns w name l :
  reachable E w ->
  table w name = Some l ->
  connected w l ->
  (exists w', senderMap_Close w = Blocked w' /\ locked w' = true) /\
  (receiver.Close decode (r s) turns <> None ->
   exists w', Stop decode s turns w = Blocked w' /\ locked w' = true).
Proof.
  intros Hw Hname Hconn.
  destruct (sendermap_life.senderMap_Close_waits E w name l Hw Hname Hconn)
    as (w' & Hb & Hheld).
  split; [by exists w' |].
  intros Hclosed. unfold Stop.
  destruct (receiver.Close decode (r s) turns) as [[[e1 r'] calls] |];
    [| done].
  exists w'. by rewrite bind_eq, Hb.
Qed.

End server_facts.

(** ** The client *)

Module client_facts.
Import client.

(** X: [NewClient] forgets its options.  [NewClient] applies the options
    and checks them: it fails when no port can be found for a client
    without URL, and with "server URL is required" when the options leave
    the server URL empty.  When it succeeds, the client it returns is the
    zero client: it holds neither the URLs nor the modifiers that the
    options gave. *)
Theorem NewClient_forgets findOpenURL opts :
  let c := foldl (fun c opt => apply opt c) zero opts in
  (clientURL c = "" ->
     forall e, findOpenURL = inl e -> NewClient findOpenURL opts = inl e) /\
  (clientURL c <> "" \/ (exists u, findOpenURL = inr u) ->
     serverURL c = "" ->
     NewClient findOpenURL opts = inl errServerURLRequired) /\
  (clientURL c <> "" \/ (exists u, findOpenURL = inr u) ->
     serverURL c <> "" ->
     NewClient findOpenURL opts = inr zero) /\
  (forall c', NewClient findOpenURL opts = inr c' -> c' = zero).
Proof.
  intros c. unfold NewClient. fold c. unfold determineClientURL, validateClient.
  assert (Heq : forall x : string,
    (String.eqb x "" = true <-> x = "")).
  { intros x. apply nng_facts.eqb_empty. }
  split; [| split; [| split]].
  - intros Hc e ->. apply Heq in Hc. by rewrite Hc.
  - intros Hfound Hs. apply Heq in Hs.
    destruct (String.eqb (clientURL c) "") eqn:Hc.
    + destruct Hfound as [Hne | [u ->]].
      * by apply Heq in Hc.
      * simpl. by rewrite Hs.
    + by rewrite Hs.
  - intros Hfound Hs.
    assert (Hs' : String.eqb (serverURL c) "" = false).
    { destruct (String.eqb (serverURL c) "") eqn:Hq; [| done].
      by apply Heq in Hq. }
    destruct (String.eqb (clientURL c) "") eqn:Hc.
    + destruct Hfound as [Hne | [u ->]].
      * by apply Heq in Hc.
      * simpl. by rewrite Hs'.
    + by rewrite Hs'.
  - intros c'.
    destruct (String.eqb (clientURL c) "").
    + destruct findOpenURL as [e | u]; [done |]. simpl.
      destruct (String.eqb (serverURL c) ""); [done |]. by intros [= <-].
    + destruct (String.eqb (serverURL c) ""); [done |]. by intros [= <-].
Qed.

(** The options are given and the client has none of them. *)
Example NewClient_example :
  NewClient (inr "tcp://127.0.0.1:7777")
    [WithClientURL "tcp://127.0.0.1:5555";
     WithServerURL "tcp://127.0.0.1:6666"; WithReceivedModifier 1]
  = inr {| clientURL := ""; serverURL := ""; egress := [] |}.
Proof. reflexivity. Qed.

End client_facts.

(** ** The chain: who is called, and in what order *)

Module stopping_order.
Import stopping stopping_facts.

Section Chain.
Context {World Ctx : Type}.
Variable ctxErr : Ctx -> World -> option error.

(** The positions invoked while passing through entries go up, and stay
    within these entries. *)
Lemma passes_sorted ctx msg i (pre : @Processors World Ctx) w calls w' :
  passes ctxErr ctx msg i pre w calls w' ->
  StronglySorted lt calls /\
  Forall (fun k => i <= k < i + length pre) calls.
Proof.
  induction 1 as [i w | i rest w calls w' Hlive _ IH
                  | i f rest w err w1 calls w' Hlive Hf Herr _ IH].
  - split; constructor.
  - destruct IH as [Hs Hb]. split; [done |].
    eapply Forall_impl; [exact Hb |]. simpl. intros k Hk. lia.
  - destruct IH as [Hs Hb]. split.
    + constructor; [done |].
      eapply Forall_impl; [exact Hb |]. simpl. intros k Hk. lia.
    + constructor; [simpl; lia |].
      eapply Forall_impl; [exact Hb |]. simpl. intros k Hk. lia.
Qed.

Lemma sorted_snoc (calls : list nat) (n : nat) :
  StronglySorted lt calls ->
  Forall (fun k => k < n) calls ->
  StronglySorted lt (calls ++ [n]).
Proof.
  induction 1 as [| k calls Hs IH Hk]; intros Hb; simpl.
  - repeat constructor.
  - apply Forall_cons in Hb as [Hkn Hb]. constructor; [by apply IH |].
    apply Forall_app. split; [done |]. by constructor.
Qed.

Lemma run_sorted ctx msg i (p : @Processors World Ctx) w calls r w' :
  run ctxErr ctx msg i p w calls r w' ->
  StronglySorted lt calls /\
  forall k, k ∈ calls -> i <= k /\ exists f, p !! (k - i) = Some (Some f).
Proof.
  destruct 1 as [calls w' Hp
                | pre q post calls w' e -> Hp Hdone
                | pre f post calls w1 err w' -> Hp Hlive Hf Herr].
  - split; [by eapply passes_sorted |]. by eapply passes_positions.
  - split; [by eapply passes_sorted |].
    intros k Hk.
    destruct (passes_positions _ _ _ _ _ _ _ _ Hp k Hk) as (Hik & g & Hg).
    split; [done |]. exists g. by apply lookup_app_l_Some.
  - destruct (passes_sorted _ _ _ _ _ _ _ Hp) as [Hs Hb].
    split.
    + apply sorted_snoc; [done |].
      eapply Forall_impl; [exact Hb |]. simpl. intros k Hk. lia.
    + intros k [Hk | Hk]%elem_of_app.
      * destruct (passes_positions _ _ _ _ _ _ _ _ Hp k Hk)
          as (Hik & g & Hg).
        split; [done |]. exists g. by apply lookup_app_l_Some.
      * apply list_elem_of_singleton in Hk as ->. split; [lia |].
        exists f. replace (i + length pre - i) with (length pre) by lia.
        by apply list_lookup_middle.
Qed.

(** X: no processor is called twice.  Let every processor of a chain note
    its position when it is invoked.  Whatever the processors and the
    context do, the positions noted by one call of the chain go strictly
    up, and each of them holds a processor: a processor is invoked at most
    once, in the order of the chain, and a nil entry never.  Noting
    changes neither the result nor the world the call leaves. *)
Theorem ProcessWRP_calls_in_order (p : @Processors World Ctx) ctx msg w :
  exists calls,
    ProcessWRP (noted_ctxErr ctxErr) (noting_from 0 p) ctx msg (w, [])
    = ((ProcessWRP ctxErr p ctx msg w).1,
       ((ProcessWRP ctxErr p ctx msg w).2, calls)) /\
    StronglySorted lt calls /\
    forall k, k ∈ calls -> exists f, p !! k = Some (Some f).
Proof.
  destruct (ProcessWRP_run_from ctxErr 0 p ctx msg w [])
    as (calls & Hrun & Hnoted).
  exists calls. split; [exact Hnoted |].
  destruct (run_sorted _ _ _ _ _ _ _ _ Hrun) as [Hs Hpos].
  split; [done |]. intros k Hk.
  destruct (Hpos k Hk) as (_ & f & Hf). exists f.
  by rewrite Nat.sub_0_r in Hf.
Qed.

End Chain.

(** The chain of the test that ends with an error: the processors at 0
    and 1 were invoked, in this order, and the one at 2 was not. *)
Example returns_error_in_order :
  ProcessWRP (noted_ctxErr fixtures.testCtxErr)
    (noting_from 0 fixtures.returnsError) false wrp.zero ([], [])
  = (Some fixtures.someError, ([0; 1], [0; 1])).
Proof. reflexivity. Qed.

End stopping_order.

(** ** The later properties on concrete inputs *)

Module life_examples.
Import nng notions fixtures nng_facts nng_invariant nng_examples.
Import sender_life sendermap_life.
Local Open Scope go_scope.

Lemma w_A_reachable : reachable E0 w_A.
Proof.
  apply (reachable_upsert E0 empty "svcA" [WithURL "tcp://peerA"]
           factoryNew None w_A);
    [apply reachable_empty | apply plain_url | vm_compute; reflexivity].
Qed.

Lemma w_old_reachable : reachable E0 w_old.
Proof.
  apply (reachable_upsert E0 empty "svcA" [WithURL "tcp://breaks-later"]
           factoryNew None w_old);
    [apply reachable_empty | apply plain_url | vm_compute; reflexivity].
Qed.

(** *** the sender *)

Lemma Dial_idempotent_witness :
  ~ closed w_dialled 0 /\
  forall E',
    Dial E' 0 w_dialled = Returns None (add_event (CallDial 0) w_dialled).
Proof.
  apply (Dial_idempotent E0 0 s_closed w_built w_dialled);
    vm_compute; reflexivity.
Defined.

Lemma Close_notifies_once_witness :
  exists w',
    Close fire 0 w_dialled = Returns None w' /\
    trace w' =
      trace w_dialled ++ [CallClose 0; SockClose 0] ++ [Observed 7 None] /\
    closed w' 0 /\
    senders w' = senders w_dialled /\
    Close fire 0 w' = Returns None (add_event (CallClose 0) w').
Proof.
  apply (Close_notifies_once Remove 0
           (set_sock s_closed (Some {| sendRv := [] |}))
           {| sendRv := [] |} w_dialled);
    vm_compute; reflexivity.
Defined.

(** The context is done: the frame goes out all the same. *)
Lemma ProcessWRP_delivers_witness :
  exists w',
    ProcessWRP E0 fire 0 cancelled (request "svcA") w_dialled
      = Returns (Some Canceled) w' /\
    trace w' =
      trace w_dialled ++ [CallProcessWRP 0 (request "svcA"); SockSend 0 []] /\
    connected w' 0 /\
    senders w' = senders w_dialled.
Proof.
  apply (ProcessWRP_delivers E0 fire 0 cancelled (request "svcA") w_dialled
           (set_sock s_closed (Some {| sendRv := [] |})) []
           {| sendRv := [] |} {| sendRv := [] |});
    vm_compute; reflexivity.
Defined.

Lemma ProcessWRP_send_failure_witness :
  exists w',
    ProcessWRP E0 fire 0 Background (request "svcA") w_watched
      = Returns (Some sendError) w' /\
    trace w' =
      trace w_watched
        ++ [CallProcessWRP 0 (request "svcA"); SockSend 0 []; SockClose 0]
        ++ [Observed 1 sendFailed; Observed 2 sendFailed] /\
    errs.Is sendFailed ErrFailedToSend = true /\
    errs.Is sendFailed sendError = true /\
    (Err Background = None ->
       select Background (Some sendError) = Some sendError) /\
    closed w' 0 /\
    ProcessWRP E0 fire 0 Background (request "svcA") w'
      = Returns (Some ErrConnClosed)
          (add_event (CallProcessWRP 0 (request "svcA")) w').
Proof.
  apply (ProcessWRP_send_failure E0 Remove 0 Background (request "svcA")
           w_watched s_watched [] {| sendRv := [Some sendError] |}
           sendError {| sendRv := [] |});
    vm_compute; reflexivity.
Defined.

(** *** the sender map *)

Lemma between_calls_witness :
  locked w_AB = false /\
  (forall name l, table w_AB name = Some l -> l < length (heap w_AB)) /\
  (forall name l s n,
     table w_AB name = Some l -> heap w_AB !! l = Some (RealSender s) ->
     RemoveFromMap name ∈ onClose s /\
     (RemoveFromMap n ∈ onClose s -> n = name)) /\
  one_name w_AB /\
  NoDup (dial_calls (trace w_AB)).
Proof. apply (between_calls E0 w_AB w_AB_reachable). Defined.

Lemma upsert_fresh_witness :
  exists w' cs,
    upsert E0 "svcB" [WithURL "tcp://peerB"] factoryNew w_A
      = Returns None w' /\
    locked w' = false /\
    close_calls (trace w') = close_calls (trace w_A) ++ cs /\
    (forall l, l ∈ cs -> l = 1) /\
    sends (trace w') = sends (trace w_A) ++ [(1, authorization)] /\
    dial_calls (trace w') = dial_calls (trace w_A) ++ [1] /\
    (forall m, m <> "svcB" -> table w' m = table w_A m) /\
    (forall l, l < length (heap w_A) -> heap w' !! l = heap w_A !! l) /\
    ((table w' "svcB" = Some 1 /\ ~ closed w' 1) \/
     (table w' "svcB" = None /\ closed w' 1)).
Proof.
  apply (upsert_fresh E0 "svcB" [WithURL "tcp://peerB"] factoryNew w_A 1
           (world_of (build factoryNew
              [WithURL "tcp://peerB";
               WithCloseListener (RemoveFromMap "svcB")] w_A))
           (world_of (Dial E0 1 (world_of (build factoryNew
              [WithURL "tcp://peerB";
               WithCloseListener (RemoveFromMap "svcB")] w_A)))));
    [vm_compute; reflexivity | vm_compute; reflexivity | apply plain_url
    | vm_compute; reflexivity | vm_compute; reflexivity].
Defined.

Lemma unicast_failure_prunes_witness :
  exists w',
    senderMap_ProcessWRP E0 Background (request "svcA") w_old
      = Returns (Some sendError) w' /\
    table w' "svcA" = None /\
    (forall m, m <> "svcA" -> table w' m = table w_old m) /\
    closed w' 0 /\
    (forall l', l' <> 0 -> heap w' !! l' = heap w_old !! l') /\
    sends (trace w') = sends (trace w_old) ++ [(0, request "svcA")] /\
    locked w' = false.
Proof.
  apply (unicast_failure_prunes E0 Background (request "svcA") w_old
           {| wrp.Scheme := "mac"; wrp.Authority := "112233445566";
              wrp.Service := "svcA"; wrp.Ignored := "" |}
           0 s_old {| sendRv := [Some sendError] |} [] sendError
           {| sendRv := [] |});
    [exact w_old_reachable | vm_compute; discriminate
    | vm_compute; reflexivity | vm_compute; reflexivity
    | vm_compute; reflexivity | vm_compute; reflexivity
    | vm_compute; reflexivity | vm_compute; reflexivity].
Defined.

Lemma Remove_idempotent_witness :
  exists w',
    Remove "svcA" w_mock = Returns None w' /\
    table w' "svcA" = None /\
    (forall m, m <> "svcA" -> table w' m = table w_mock m) /\
    heap w' = heap w_mock /\
    Remove "svcA" w' = Returns None w'.
Proof.
  apply (Remove_idempotent "svcA" w_mock); [vm_compute; reflexivity |].
  intros l Ht. vm_compute in Ht. injection Ht as <-. vm_compute. exact I.
Defined.

Lemma w_A_connected : connected w_A 0.
Proof.
  exists {| url := "tcp://peerA"; onClose := [RemoveFromMap "svcA"];
            sock := Some {| sendRv := [] |}; sendDeadline := 0%Z |},
         {| sendRv := [] |}.
  split; vm_compute; reflexivity.
Qed.

Lemma closing_connected_entry_blocks_witness :
  (exists w',
     Remove "svcA" w_A = Blocked w' /\
     closed w' 0 /\ table w' "svcA" = Some 0 /\ locked w' = true) /\
  (forall opts factory new w1 w2,
     build factory (opts ++ [WithCloseListener (RemoveFromMap "svcA")]) w_A
       = Returns (inr new) w1 ->
     Dial E0 new w1 = Returns None w2 ->
     exists w',
       upsert E0 "svcA" opts factory w_A = Blocked w' /\
       closed w' 0 /\ table w' "svcA" = Some 0 /\ locked w' = true).
Proof.
  apply (closing_connected_entry_blocks E0 w_A "svcA" 0);
    [exact w_A_reachable | vm_compute; reflexivity | exact w_A_connected].
Defined.

Lemma senderMap_Close_clears_witness :
  exists w' ls,
    senderMap_Close w_mock = Returns None w' /\
    senders w' = None /\
    locked w' = false /\
    heap w' = heap w_mock /\
    close_calls (trace w') = close_calls (trace w_mock) ++ ls /\
    (forall l, l ∈ ls <-> exists name, table w_mock name = Some l) /\
    length ls = registered w_mock /\
    (one_name w_mock -> NoDup ls) /\
    sends (trace w') = sends (trace w_mock).
Proof.
  apply (senderMap_Close_clears w_mock); [vm_compute; reflexivity |].
  intros name l Ht. table_cases Ht. vm_compute. exact I.
Defined.

(** The one entry of the table was closed, once. *)
Example senderMap_Close_example :
  exists w',
    senderMap_Close w_mock = Returns None w' /\
    drop (length (close_calls (trace w_mock))) (close_calls (trace w')) = [0] /\
    senders w' = None.
Proof. eexists. repeat split; vm_compute; reflexivity. Qed.

End life_examples.

(** ** The receiver and the server on concrete inputs *)

Module server_examples.
Import nng notions fixtures nng_facts server.
Import receiver_life server_facts life_examples.
Local Open Scope go_scope.

Lemma observerAsProcessor_passes : observer_passes observerAsProcessor.
Proof. by intros o ctx msg w. Qed.

Lemma recording_bystander tag : bystander (recording tag).
Proof. intros ctx msg w. by exists [Observed tag None]. Qed.

(** *** the receiver *)

(** A frame, a timeout, a frame that does not decode, then the socket
    closes: one message is delivered, and the close listener is told. *)
Lemma receive_live_witness :
  receiver.receive decode1 false (turns1 ++ [turn_closed])
    = ([event "svcA"], Some (Some (joinError [socketClosed]))) /\
  receiver.wrapper decode1 r0 (turns1 ++ [turn_closed])
    = Some (receiver.set_cancel false r0,
            [(0, Some (joinError [socketClosed]))]).
Proof.
  apply (proj2 (receive_live decode1 r0 (turns1 ++ [turn_closed]))
           turns1 turn_closed [] eq_refl).
  - repeat constructor.
  - vm_compute. discriminate.
Defined.

Lemma Listen_Close_witness :
  receiver.Listen newSocket0 (receiver.set_cancel false r0) = (None, r0) /\
  (forall newSocket', receiver.Listen newSocket' r0 = (None, r0)) /\
  (forall turns t, receiver.takeDone t = true ->
     exists term,
       receiver.Close decode0 r0 (turns ++ [t])
         = Some (None, receiver.set_cancel false r0,
                 receiver.notify (receiver.set_cancel false r0) term)).
Proof.
  apply (proj2 (Listen_Close decode0 newSocket0
                  (receiver.set_cancel false r0) eq_refl)).
  vm_compute. reflexivity.
Defined.

(** The options of the receiver tests. *)
Example receiver_New_negative_timeout :
  receiver.New [receiver.WithURL "tcp://127.0.0.1:6666";
                receiver.WithRecvTimeout (-1)]
  = Some (inr {| receiver.rcv :=
                   {| receiver.url := "tcp://127.0.0.1:6666";
                      receiver.timeout := 0%Z; receiver.onFailure := [];
                      receiver.cancel := false |};
                 receiver.onMsg := [] |}).
Proof. reflexivity. Qed.

Example receiver_New_nil_option :
  receiver.New [receiver.WithURL "tcp://127.0.0.1:6666"; receiver.NilOption]
  = None.
Proof. reflexivity. Qed.

(** *** the chains *)

(** The server cannot be made to broadcast. *)
Lemma Server_ProcessWRP_refuses_witness :
  Server_ProcessWRP E0 wrp_go (recording 1) observerAsProcessor
    Background alive w_A
  = Returns (Some filters.ErrLocalDisallowed) w_A.
Proof.
  apply (proj2 (proj2 (Server_ProcessWRP_refuses E0 wrp_go (recording 1)
                          observerAsProcessor Background alive w_A)));
    reflexivity.
Defined.

Lemma Server_ProcessWRP_routes_witness :
  wrp.Type_ (event "svcA") <> wrp.ServiceAliveMessageType /\
  Server_ProcessWRP E0 wrp_go (recording 1) observerAsProcessor
    Background (event "svcA") w_A
  = (recording 1 Background (event "svcA") ;;
     err <- senderMap_ProcessWRP E0 Background (event "svcA") ;;
     ret (at_end err)) w_A.
Proof.
  apply (Server_ProcessWRP_routes E0 wrp_go (recording 1)
           observerAsProcessor Background (event "svcA") w_A);
    [exact observerAsProcessor_passes | reflexivity | reflexivity
    | reflexivity].
Defined.

(** The message went to the observer and to the sender of "svcA". *)
Example Server_ProcessWRP_example :
  exists w',
    Server_ProcessWRP E0 wrp_go (recording 1) observerAsProcessor
      Background (event "svcA") w_A = Returns None w' /\
    drop (length (trace w_A)) (trace w') =
      [Observed 1 None; CallProcessWRP 0 (event "svcA"); SockSend 0 []].
Proof. eexists. split; vm_compute; reflexivity. Qed.

Lemma received_registration_witness :
  (wrp.ServiceName (registration "svcB" "tcp://peerB") = "" \/
   wrp.URL (registration "svcB" "tcp://peerB") = "" ->
     received E0 wrp_go (recording 2) (recording 3) observerAsProcessor
       srv0 (registration "svcB" "tcp://peerB") w_A =
       (recording 2 Background (registration "svcB" "tcp://peerB") ;;
        ret (Some errInvalidMsg)) w_A) /\
  (wrp.ServiceName (registration "svcB" "tcp://peerB") <> "" ->
   wrp.URL (registration "svcB" "tcp://peerB") <> "" ->
     received E0 wrp_go (recording 2) (recording 3) observerAsProcessor
       srv0 (registration "svcB" "tcp://peerB") w_A =
       (recording 2 Background (registration "svcB" "tcp://peerB") ;;
        err <- Upsert E0 "svcB" (sOpts srv0 ++ [WithURL "tcp://peerB"]) ;;
        ret (if errs.Is err ErrNotHandled
             then Some filters.ErrLocalDisallowed else err)) w_A).
Proof.
  apply (received_registration E0 wrp_go (recording 2) (recording 3)
           observerAsProcessor srv0 (registration "svcB" "tcp://peerB") w_A);
    [exact observerAsProcessor_passes | reflexivity | reflexivity].
Defined.

Lemma received_delivery_witness :
  (supported wrp_go (wrp.Type_ alive) = false ->
     received E0 wrp_go (recording 2) (recording 3) observerAsProcessor
       srv0 alive w_A =
       (recording 2 Background alive ;;
        ret (Some (joinError [filters.invalidType (wrp.Type_ alive);
                              filters.ErrUnsupported]))) w_A) /\
  (supported wrp_go (wrp.Type_ alive) = true ->
   wrp.Type_ alive <> wrp.ServiceRegistrationMessageType ->
   local (wrp.Type_ alive) = true ->
     received E0 wrp_go (recording 2) (recording 3) observerAsProcessor
       srv0 alive w_A =
       (recording 2 Background alive ;;
        ret (Some filters.ErrLocalDisallowed)) w_A) /\
  (supported wrp_go (wrp.Type_ alive) = true ->
   local (wrp.Type_ alive) = false ->
     received E0 wrp_go (recording 2) (recording 3) observerAsProcessor
       srv0 alive w_A =
       (recording 2 Background alive ;; recording 3 Background alive ;;
        ret None) w_A).
Proof.
  apply (received_delivery E0 wrp_go (recording 2) (recording 3)
           observerAsProcessor srv0 alive w_A).
  exact observerAsProcessor_passes.
Defined.

(** What is received, by computation: a heartbeat of a peer is dropped,
    an event reaches the egress modifiers, a message of type 0 is
    refused. *)
Example received_examples :
  received E0 wrp_go (recording 2) (recording 3) observerAsProcessor
    srv0 alive w_A
  = Returns (Some filters.ErrLocalDisallowed)
      (add_event (Observed 2 None) w_A) /\
  received E0 wrp_go (recording 2) (recording 3) observerAsProcessor
    srv0 (event "svcA") w_A
  = Returns None
      (add_event (Observed 3 None) (add_event (Observed 2 None) w_A)) /\
  received E0 wrp_go (recording 2) (recording 3) observerAsProcessor
    srv0 wrp.zero w_A
  = Returns (Some (joinError [errorString "invalid message type: 0";
                              filters.ErrUnsupported]))
      (add_event (Observed 2 None) w_A).
Proof. repeat split; vm_compute; reflexivity. Qed.

Lemma registered_service_is_reachable_witness :
  exists w1 w2,
    received E0 wrp_go (recording 2) (recording 3) observerAsProcessor
      srv0 (registration "svcB" "tcp://peerB") w_A = Returns None w1 /\
    table w1 "svcB" = Some 1 /\
    connected w1 1 /\
    url s_B = "tcp://peerB" /\
    Server_ProcessWRP E0 wrp_go (recording 1) observerAsProcessor
      Background (event "svcB") w1 = Returns None w2 /\
    sends (trace w2) =
      sends (trace w_A) ++ [(1, authorization); (1, event "svcB")] /\
    last (trace w2) = Some (SockSend 1 []) /\
    connected w2 1.
Proof.
  apply (registered_service_is_reachable E0 wrp_go (recording 2)
           (recording 1) (recording 3) observerAsProcessor srv0
           (registration "svcB" "tcp://peerB") Background (event "svcB")
           w_A s_B {| sendRv := [] |} [] {| sendRv := [] |}
           {| wrp.Scheme := "mac"; wrp.Authority := "112233445566";
              wrp.Service := "svcB"; wrp.Ignored := "" |}
           [] {| sendRv := [] |});
    try exact observerAsProcessor_passes;
    try apply recording_bystander;
    try (vm_compute; reflexivity);
    vm_compute; discriminate.
Defined.

(** *** NewServer, Start and Stop *)

(** The cases of the server tests: no option, and valid options. *)
Example NewServer_no_options : NewServer [] = Some (inl errURLRequired).
Proof. reflexivity. Qed.

Example NewServer_valid_options :
  NewServer [RXURL "url"; RXTimeout 10000000000;
             WithHeartbeatInterval 10000000000; WithRXObserver 1;
             WithTXObserver 2; WithEgressModifier 3]
  = Some (inr ({| rOpts := [receiver.WithURL "url";
                            receiver.WithRecvTimeout 10000000000];
                  heartbeatInterval := 10000000000%Z;
                  rxObserverTags := [1]; txObserverTags := [2];
                  egressTags := [3] |},
               {| receiver.rcv :=
                    {| receiver.url := "url";
                       receiver.timeout := 10000000000%Z;
                       receiver.onFailure := [];
                       receiver.cancel := false |};
                  receiver.onMsg := [chainHandler] |})).
Proof. reflexivity. Qed.

(** A start that fails cannot be tried again. *)
Example Start_failed :
  Start newSocket0 life_bad =
    (Some listenError,
     {| r := r life_bad; heartbeatCancel := true; heartbeats := 1 |}) /\
  Start (fun _ _ => None)
    {| r := r life_bad; heartbeatCancel := true; heartbeats := 1 |} =
    (None, {| r := r life_bad; heartbeatCancel := true; heartbeats := 1 |}).
Proof. split; reflexivity. Qed.

Lemma Stop_returns_witness :
  None = (None : option error) /\
  heartbeatCancel life0 = false /\
  receiver.cancel (r life0) = false /\
  (steady life1 -> heartbeats life0 = 0 /\ steady life0) /\
  senders (world_of (Stop decode0 life1 turns0 w_mock)) = None /\
  locked (world_of (Stop decode0 life1 turns0 w_mock)) = false.
Proof.
  apply (Stop_returns decode0 life1 turns0 w_mock None life0
           [(0, Some (joinError [Canceled; Canceled]))]
           (world_of (Stop decode0 life1 turns0 w_mock))).
  vm_compute. reflexivity.
Defined.

Lemma Close_and_Stop_block_witness :
  (exists w', senderMap_Close w_A = Blocked w' /\ locked w' = true) /\
  (receiver.Close decode0 (r life1) turns0 <> None ->
   exists w', Stop decode0 life1 turns0 w_A = Blocked w' /\ locked w' = true).
Proof.
  apply (Close_and_Stop_block E0 decode0 life1 turns0 w_A "svcA" 0);
    [exact w_A_reachable | vm_compute; reflexivity | exact w_A_connected].
Defined.

End server_examples.
